(** * Citation resolution core of openblog

    A shallow embedding of
      - [pipeline/processors/url_validator.py]  (class [CitationURLValidator])
      - [pipeline/blog_generation/stage_04_citations.py]  ([_parse_sources])
    together with the parts of the Python standard library these functions
    call ([str] methods, [re], [urllib.parse]).

    Conventions.
      - A Python [str] is a list of Unicode code points ([list N]).
      - A function that may raise returns [option] (pure code) or a value of
        [result] (effectful code).
      - The module-level dictionaries [_URL_STATUS_CACHE] and
        [_AUTHORITY_CACHE] are [gmap]s carried in an explicit world state,
        next to the history of the calls made to the outside (clock, HTTP
        client, Gemini client). *)

From Stdlib Require Import String Ascii ZArith NArith List Lia Bool Permutation.
From stdpp Require Import base option list gmap.

(** ** Python strings *)

Module PyStr.

Abbreviation char := N (only parsing).
Abbreviation str := (list N) (only parsing).

(** [py "abc"] is the Python literal ['abc'] (ASCII literals only). *)
Definition py (s : string) : str :=
  List.map N_of_ascii (list_ascii_of_string s).

Fixpoint str_eqb (a b : str) : bool :=
  match a, b with
  | [], [] => true
  | x :: a', y :: b' => N.eqb x y && str_eqb a' b'
  | _, _ => false
  end.

Definition mem_char (c : char) (set : str) : bool :=
  existsb (N.eqb c) set.

(** [str.isspace] on one code point; the regular expression class [\s] on
    [str] patterns is the same set. *)
Definition isspace (c : char) : bool :=
  ((9 <=? c) && (c <=? 13) || (28 <=? c) && (c <=? 32) || (c =? 133)
   || (c =? 160) || (c =? 5760) || (8192 <=? c) && (c <=? 8202)
   || (c =? 8232) || (c =? 8233) || (c =? 8239) || (c =? 8287)
   || (c =? 12288))%N.

(** ASCII decimal digits.  (Python's [\d] also accepts the decimal digits of
    other scripts; those are outside this model.) *)
Definition isdigit (c : char) : bool := ((48 <=? c) && (c <=? 57))%N.

Definition isupper_ascii (c : char) : bool := ((65 <=? c) && (c <=? 90))%N.
Definition islower_ascii (c : char) : bool := ((97 <=? c) && (c <=? 122))%N.
Definition isalpha_ascii (c : char) : bool := isupper_ascii c || islower_ascii c.

(** [str.lower] on ASCII letters; other code points are left as they are.
    On a string of ASCII characters this is Python's [str.lower]; beyond
    ASCII Python applies the Unicode case mapping, which is not a mapping of
    one character at a time (a capital sigma at the end of a word becomes the
    final sigma). *)
Definition lower_char (c : char) : char :=
  if isupper_ascii c then (c + 32)%N else c.
Definition lower (s : str) : str := List.map lower_char s.

(** [s.startswith(p)] *)
Fixpoint startswith (s p : str) {struct p} : bool :=
  match p, s with
  | [], _ => true
  | x :: p', y :: s' => N.eqb x y && startswith s' p'
  | _ :: _, [] => false
  end.

(** [s.startswith((p1, p2, ...))] *)
Definition startswith_any (s : str) (ps : list str) : bool :=
  existsb (startswith s) ps.

(** [s.endswith(p)] *)
Definition endswith (s p : str) : bool := startswith (rev s) (rev p).

(** [s.lstrip(chars)], with the set given as a predicate *)
Fixpoint lstrip_by (P : char -> bool) (s : str) : str :=
  match s with
  | c :: s' => if P c then lstrip_by P s' else s
  | [] => []
  end.
Definition rstrip_by (P : char -> bool) (s : str) : str :=
  rev (lstrip_by P (rev s)).
Definition strip_by (P : char -> bool) (s : str) : str :=
  rstrip_by P (lstrip_by P s).

(** [s.strip()], [s.lstrip(chars)], [s.rstrip(chars)], [s.strip(chars)] *)
Definition strip (s : str) : str := strip_by isspace s.
Definition lstrip_chars (chars s : str) : str := lstrip_by (fun c => mem_char c chars) s.
Definition rstrip_chars (chars s : str) : str := rstrip_by (fun c => mem_char c chars) s.
Definition strip_chars (chars s : str) : str := strip_by (fun c => mem_char c chars) s.

(** [s.find(c)] for a one-character [c]: [None] stands for [-1]. *)
Fixpoint find_char (c : char) (s : str) : option nat :=
  match s with
  | [] => None
  | x :: s' => if N.eqb x c then Some 0 else S <$> find_char c s'
  end.

(** [s.find(c, start)] *)
Definition find_char_from (c : char) (start : nat) (s : str) : option nat :=
  (fun i => start + i) <$> find_char c (drop start s).

(** [s.rfind(c)] *)
Fixpoint rfind_char (c : char) (s : str) : option nat :=
  match s with
  | [] => None
  | x :: s' =>
      match rfind_char c s' with
      | Some i => Some (S i)
      | None => if N.eqb x c then Some 0 else None
      end
  end.

(** [sub in s] and [s.find(sub)] *)
Fixpoint find_sub (sub s : str) : option nat :=
  if startswith s sub then Some 0
  else match s with
       | [] => None
       | _ :: s' => S <$> find_sub sub s'
       end.
Definition contains (sub s : str) : bool := bool_decide (is_Some (find_sub sub s)).

(** [s.replace(old, new)] for a non-empty [old]: the occurrences are taken
    from the left and do not overlap.  [skip] counts the characters of the
    occurrence just replaced that are still to be passed over. *)
Fixpoint replace_go (old new : str) (skip : nat) (s : str) : str :=
  match s with
  | [] => []
  | c :: s' =>
      match skip with
      | S k => replace_go old new k s'
      | O => if startswith s old
             then new ++ replace_go old new (length old - 1) s'
             else c :: replace_go old new 0 s'
      end
  end.
Definition replace (old new s : str) : str := replace_go old new 0 s.

(** [s.split(c)] for a one-character separator *)
Fixpoint split_char (c : char) (s : str) : list str :=
  match s with
  | [] => [[]]
  | x :: s' =>
      if N.eqb x c then [] :: split_char c s'
      else match split_char c s' with
           | w :: ws => (x :: w) :: ws
           | [] => [[x]]
           end
  end.

(** [s.split(c, 1)]: at most one split, at the first occurrence *)
Definition split_first (c : char) (s : str) : str * option str :=
  match find_char c s with
  | Some i => (take i s, Some (drop (S i) s))
  | None => (s, None)
  end.

(** [sep.join(parts)] *)
Fixpoint join (sep : str) (parts : list str) : str :=
  match parts with
  | [] => []
  | [p] => p
  | p :: ps => p ++ sep ++ join sep ps
  end.

(** [int(s)] for a string of ASCII digits *)
Definition py_int (s : str) : Z :=
  fold_left (fun acc c => (10 * acc + (Z.of_N c - 48))%Z) s 0%Z.

End PyStr.
Export PyStr.

(** ** [urllib.parse] (CPython 3.11) *)

Module UrlLib.

Record ParseResult := mkParse {
  scheme : str; netloc : str; path : str;
  params : str; query : str; fragment : str }.

Definition scheme_chars : str :=
  py "abcdefghijklmnopqrstuvwxyzABCDEFGHIJKLMNOPQRSTUVWXYZ0123456789+-.".

Definition uses_netloc : list str :=
  List.map py ["";"ftp";"http";"gopher";"nntp";"telnet";"imap";"wais";"file";
               "mms";"https";"shttp";"snews";"prospero";"rtsp";"rtspu";
               "rsync";"svn";"svn+ssh";"sftp";"nfs";"git";"git+ssh";"ws";
               "wss"]%string.

Definition uses_params : list str :=
  List.map py ["";"ftp";"hdl";"prospero";"http";"imap";"https";"shttp";
               "rtsp";"rtspu";"sip";"sips";"mms";"sftp";"tel"]%string.

Definition in_list (s : str) (l : list str) : bool := existsb (str_eqb s) l.

(** [_WHATWG_C0_CONTROL_OR_SPACE]: the code points 0 to 32 *)
Definition c0_control_or_space (c : char) : bool := (c <=? 32)%N.

(** [_UNSAFE_URL_BYTES_TO_REMOVE]: tab, carriage return, line feed *)
Definition unsafe_url_byte (c : char) : bool :=
  ((c =? 9) || (c =? 13) || (c =? 10))%N.

Definition isascii (c : char) : bool := (c <? 128)%N.

(** [_splitnetloc(url, 2)]: the netloc runs from index 2 to the first of
    [/], [?], [#] found from index 2 on (or to the end). *)
Definition is_netloc_delim (c : char) : bool :=
  ((c =? 47) || (c =? 63) || (c =? 35))%N.

Fixpoint span_until (P : char -> bool) (s : str) : str * str :=
  match s with
  | [] => ([], [])
  | c :: s' => if P c then ([], s)
               else let '(a, b) := span_until P s' in (c :: a, b)
  end.

Definition _splitnetloc2 (url : str) : str * str :=
  span_until is_netloc_delim (drop 2 url).

(** [_splitparams] *)
Definition _splitparams (url : str) : str * str :=
  match rfind_char 47%N url with
  | Some j =>
      match find_char_from 59%N j url with
      | Some i => (take i url, drop (S i) url)
      | None => (url, [])
      end
  | None =>
      match find_char 59%N url with
      | Some i => (take i url, drop (S i) url)
      | None =>
          (* [i = -1]: [url[:-1]] and [url[0:]]; not reached from
             [urlparse], which only calls when [';' in url] *)
          (take (length url - 1) url, url)
      end
  end.

(** The path and params that [urlparse] makes of the path of [urlsplit],
    for a scheme that uses params *)
Definition param_split (u : str) : str * str :=
  if mem_char 59%N u then _splitparams u else (u, []).

(** The path that [urlunparse] hands to [urlunsplit] *)
Definition param_join (p par : str) : str :=
  if negb (str_eqb par []) then p ++ py ";" ++ par else p.

(** What [urlunsplit] appends for a query and for a fragment *)
Definition query_part (q : str) : str :=
  if negb (str_eqb q []) then py "?" ++ q else [].
Definition fragment_part (f : str) : str :=
  if negb (str_eqb f []) then py "#" ++ f else [].

Definition safe (c : char) : bool := negb (unsafe_url_byte c).

Definition starts_with_slash (u : str) : Prop :=
  match u with [] => True | c :: _ => c = 47%N end.

Section Parse.

(** The two validations of a netloc that [urlsplit] delegates to other
    modules ([ipaddress], [unicodedata]); [true] when they accept.
    [bracketed_netloc_ok] is [_check_bracketed_netloc], called when the
    netloc holds an opening and a closing square bracket; [nfkc_netloc_ok]
    is the NFKC test of [_checknetloc], reached when the netloc is not
    ASCII.  The theorems hold for every such pair of validations. *)
Variable bracketed_netloc_ok : str -> bool.
Variable nfkc_netloc_ok : str -> bool.

Definition _checknetloc (nl : str) : bool :=
  match nl with
  | [] => true
  | _ => if forallb isascii nl then true else nfkc_netloc_ok nl
  end.

(** [urlsplit(url)]; [None] stands for [ValueError]. *)
Definition urlsplit (url0 : str) : option (str * str * str * str * str) :=
  let url := lstrip_by c0_control_or_space url0 in
  let url := List.filter (fun c => negb (unsafe_url_byte c)) url in
  let '(scheme, url) :=
    match find_char 58%N url, url with
    | Some (S i' as i), c0 :: _ =>
        if isascii c0 && isalpha_ascii c0
           && forallb (fun c => mem_char c scheme_chars) (take i url)
        then (lower (take i url), drop (S i) url)
        else ([], url)
    | _, _ => ([], url)
    end in
  if str_eqb (take 2 url) (py "//") then
    let '(netloc, url) := _splitnetloc2 url in
    let has_open := mem_char 91%N netloc in
    let has_close := mem_char 93%N netloc in
    if (has_open && negb has_close) || (has_close && negb has_open) then None
    else if has_open && has_close && negb (bracketed_netloc_ok netloc) then None
    else
      let '(url, fragment) :=
        match split_first 35%N url with (u, Some f) => (u, f) | (u, None) => (u, []) end in
      let '(url, query) :=
        match split_first 63%N url with (u, Some q) => (u, q) | (u, None) => (u, []) end in
      if _checknetloc netloc then Some (scheme, netloc, url, query, fragment)
      else None
  else
    let '(url, fragment) :=
      match split_first 35%N url with (u, Some f) => (u, f) | (u, None) => (u, []) end in
    let '(url, query) :=
      match split_first 63%N url with (u, Some q) => (u, q) | (u, None) => (u, []) end in
    Some (scheme, [], url, query, fragment).

(** What [urlsplit] does after the scheme and [//] have been taken off *)
Definition split_authority (sch rest : str) : option (str * str * str * str * str) :=
  let '(netloc, url) := span_until is_netloc_delim rest in
  let has_open := mem_char 91%N netloc in
  let has_close := mem_char 93%N netloc in
  if (has_open && negb has_close) || (has_close && negb has_open) then None
  else if has_open && has_close && negb (bracketed_netloc_ok netloc) then None
  else
    let '(url, fragment) :=
      match split_first 35%N url with (u, Some f) => (u, f) | (u, None) => (u, []) end in
    let '(url, query) :=
      match split_first 63%N url with (u, Some q) => (u, q) | (u, None) => (u, []) end in
    if _checknetloc netloc then Some (sch, netloc, url, query, fragment)
    else None.

Definition clean (s : str) : str := List.filter (fun c => negb (unsafe_url_byte c)) s.

(** The netloc passes the checks of [urlsplit]. *)
Definition netloc_accepted (n : str) : bool :=
  negb ((mem_char 91%N n && negb (mem_char 93%N n))
        || (mem_char 93%N n && negb (mem_char 91%N n)))
  && negb (mem_char 91%N n && mem_char 93%N n && negb (bracketed_netloc_ok n))
  && _checknetloc n.

(** [urlparse(url)] *)
Definition urlparse (url : str) : option ParseResult :=
  match urlsplit url with
  | None => None
  | Some (scheme, netloc, url, query, fragment) =>
      if in_list scheme uses_params && mem_char 59%N url then
        let '(url, params) := _splitparams url in
        Some (mkParse scheme netloc url params query fragment)
      else Some (mkParse scheme netloc url [] query fragment)
  end.

End Parse.

(** [urlunsplit] and [urlunparse] *)
Definition urlunsplit (scheme netloc url query fragment : str) : str :=
  let url :=
    if negb (str_eqb netloc [])
       || (negb (str_eqb scheme []) && in_list scheme uses_netloc
           && negb (str_eqb (take 2 url) (py "//")))
    then
      let url := match url with
                 | c :: _ => if N.eqb c 47%N then url else 47%N :: url
                 | [] => url
                 end in
      py "//" ++ netloc ++ url
    else url in
  let url := if negb (str_eqb scheme []) then scheme ++ py ":" ++ url else url in
  let url := if negb (str_eqb query []) then url ++ py "?" ++ query else url in
  let url := if negb (str_eqb fragment []) then url ++ py "#" ++ fragment else url in
  url.

Definition urlunparse (p : ParseResult) : str :=
  let url := if negb (str_eqb (params p) [])
             then path p ++ py ";" ++ params p else path p in
  urlunsplit (scheme p) (netloc p) url (query p) (fragment p).

End UrlLib.
Export UrlLib.

(** ** [url_validator.py]: the pure helpers of [CitationURLValidator] *)

(** [FORBIDDEN_HOSTS] *)
Definition FORBIDDEN_HOSTS : list str :=
  [py "vertexaisearch.cloud.google.com"; py "cloud.google.com"].

(** [_CACHE_TTL] and [_FAILED_URL_TTL], in seconds *)
Definition _CACHE_TTL : Z := 180.
Definition _FAILED_URL_TTL : Z := 60.

(** [_normalize_hostname] *)
Definition _normalize_hostname (hostname : str) : str :=
  match hostname with
  | [] => []
  | _ =>
      let hostname := lstrip_chars (py ".") (lower hostname) in
      if startswith hostname (py "www.") then drop 4 hostname else hostname
  end.

(** [_is_subdomain] *)
Definition _is_subdomain (host root : str) : bool :=
  match host, root with
  | [], _ | _, [] => false
  | _, _ => endswith host (py "." ++ root)
  end.

(** [_is_error_page_url] *)
Definition error_patterns : list str :=
  List.map py ["/notfound"; "/not-found"; "/404"; "/error"; "notfound.aspx";
               "/notfound.aspx"; "/page-not-found"; "/404-error"]%string.

Definition _is_error_page_url (url : str) : bool :=
  let url_lower := lower url in
  existsb (fun pattern => contains pattern url_lower) error_patterns.

(** [_is_specific_page_url] (the class defines it twice, with the same body) *)
Definition _is_specific_page_url (url : str) : bool :=
  match url with
  | [] => false
  | _ =>
      let url_clean :=
        strip_chars (py "/") (replace (py "http://") [] (replace (py "https://") [] url)) in
      if negb (mem_char 47%N url_clean) then false
      else
        let parts := split_char 47%N url_clean in
        if Nat.leb (length parts) 1 then false
        else
          let path := join (py "/") (drop 1 parts) in
          match path with
          | [] => false
          | _ =>
              negb (in_list (lower path)
                      (List.map py [""; "index.html"; "index"; "home";
                                    "homepage"; "default"]%string))
          end
  end.

Section PureHelpers.

Variable bracketed_netloc_ok : str -> bool.
Variable nfkc_netloc_ok : str -> bool.

Local Abbreviation urlparse := (UrlLib.urlparse bracketed_netloc_ok nfkc_netloc_ok).

(** The competitor entry as handed to [urlparse] *)
Definition comp_url (competitor : str) : str :=
  if startswith competitor (py "http") then competitor
  else py "https://" ++ competitor.

(** The loop over [competitors]; [None] when [urlparse] raises. *)
Fixpoint filter_competitors (host : str) (competitors : list str) : option bool :=
  match competitors with
  | [] => Some false
  | competitor :: rest =>
      match urlparse (comp_url competitor) with
      | None => None
      | Some comp_parsed =>
          let comp_host := _normalize_hostname (netloc comp_parsed) in
          if str_eqb host comp_host || _is_subdomain host comp_host
          then Some true
          else filter_competitors host rest
      end
  end.

(** The body of the [try] block of [_should_filter_url] *)
Definition should_filter_body (url company_url : str) (competitors : list str)
  : option bool :=
  match urlparse url with
  | None => None
  | Some parsed =>
      let host := _normalize_hostname (netloc parsed) in
      if in_list host FORBIDDEN_HOSTS then Some true
      else
        match company_url with
        | [] => filter_competitors host competitors
        | _ =>
            match urlparse company_url with
            | None => None
            | Some company_parsed =>
                let company_host := _normalize_hostname (netloc company_parsed) in
                if str_eqb host company_host || _is_subdomain host company_host
                then Some true
                else filter_competitors host competitors
            end
        end
  end.

(** [_should_filter_url]: [except Exception: return False] *)
Definition _should_filter_url (url company_url : str) (competitors : list str)
  : bool :=
  match should_filter_body url company_url competitors with
  | Some b => b
  | None => false
  end.

(** The tracking prefixes of [_normalize_url] *)
Definition tracking_prefixes : list str := [py "utm_"; py "gclid"; py "fbclid"].

Definition keep_param (param : str) : bool :=
  negb (str_eqb param []) && negb (startswith_any (lower param) tracking_prefixes).

(** The string handed to [urlparse] by [_normalize_url] *)
Definition with_protocol (url : str) : str :=
  let url := strip url in
  if negb (startswith_any url [py "http://"; py "https://"])
  then py "https://" ++ url else url.

(** [_normalize_url]; [None] when [urlparse] raises [ValueError] (the
    function has no handler of its own). *)
Definition _normalize_url (url : str) : option str :=
  match urlparse (with_protocol url) with
  | None => None
  | Some parsed =>
      let query_params := List.filter keep_param (split_char 38%N (query parsed)) in
      match query_params with
      | _ :: _ =>
          let new_query := join (py "&") query_params in
          Some (urlunparse (mkParse (scheme parsed) (netloc parsed) (path parsed)
                                    (params parsed) new_query (fragment parsed)))
      | [] =>
          Some (urlunparse (mkParse (scheme parsed) (netloc parsed) (path parsed)
                                    (params parsed) [] (fragment parsed)))
      end
  end.

(** Notions used to state the properties of the filter *)

(** The normalised host of a URL; [None] when [urlparse] raises. *)
Definition host_of (u : str) : option str :=
  (fun parsed => _normalize_hostname (netloc parsed)) <$> urlparse u.

(** [host] equals [root] or is a dot-boundary subdomain of it (both not
    empty in the second case, as [_is_subdomain] has it). *)
Definition host_matches (host root : str) : Prop :=
  host = root \/ (host <> [] /\ root <> [] /\ endswith host (py "." ++ root) = true).

(** A competitor entry given the protocol [https://] when it has none *)
Definition with_https (competitor : str) : str :=
  if startswith_any competitor [py "http://"; py "https://"] then competitor
  else py "https://" ++ competitor.

(** The netloc is a host name and nothing else: it has no port and no user
    information, that is, no [:] and no [@].  ([_should_filter_url] reads
    [parsed.netloc]; for such a netloc that is the host.) *)
Definition host_only (nl : str) : bool :=
  negb (mem_char 58%N nl) && negb (mem_char 64%N nl).

(** [u] parses, its netloc is a host name and nothing else, and [root], the
    normalised host, is not empty. *)
Definition names_host (u root : str) : Prop :=
  exists parsed,
    urlparse u = Some parsed /\ host_only (netloc parsed) = true /\
    root = _normalize_hostname (netloc parsed) /\ root <> [].

End PureHelpers.

(** A validation of netlocs that accepts every netloc, for the examples *)
Definition accept_all (netloc : str) : bool := true.

(** ** [re]: a backtracking matcher for the patterns of the source

    The patterns of the two source files only repeat single characters and
    character classes, so a repetition is over a class.  The matcher tries
    the alternatives in the order of Python's engine: the left branch of [|]
    first, a greedy repetition longest first, a lazy one shortest first. *)

Module Re.

Inductive re :=
| Eps
| Chr (c : char)
| Cls (p : char -> bool)
| Rep (p : char -> bool) (lo : nat) (hi : option nat) (greedy : bool)
| Seq (r1 r2 : re)
| Alt (r1 r2 : re)
| Grp (n : nat) (r : re).

(** Captured groups, most recent first *)
Definition caps := list (nat * str).

Definition group (n : nat) (cs : caps) : str :=
  match List.find (fun '(m, _) => Nat.eqb m n) cs with
  | Some (_, s) => s
  | None => []
  end.

Definition orelse {R} (a b : option R) : option R :=
  match a with Some _ => a | None => b end.

Definition hi_allows (hi : option nat) : bool :=
  match hi with Some 0 => false | _ => true end.

Fixpoint rep {R} (p : char -> bool) (lo : nat) (hi : option nat)
    (greedy : bool) (s : str) (k : str -> option R) : option R :=
  let stop := match lo with 0 => k s | S _ => None end in
  match s with
  | c :: s' =>
      if p c && hi_allows hi then
        let more := rep p (Nat.pred lo) (Nat.pred <$> hi) greedy s' k in
        if greedy then orelse more stop else orelse stop more
      else stop
  | [] => stop
  end.

Fixpoint matchk {R} (r : re) (s : str) (cs : caps)
    (k : str -> caps -> option R) : option R :=
  match r with
  | Eps => k s cs
  | Chr c =>
      match s with
      | x :: s' => if N.eqb x c then k s' cs else None
      | [] => None
      end
  | Cls p =>
      match s with
      | x :: s' => if p x then k s' cs else None
      | [] => None
      end
  | Rep p lo hi greedy => rep p lo hi greedy s (fun s' => k s' cs)
  | Seq r1 r2 => matchk r1 s cs (fun s1 cs1 => matchk r2 s1 cs1 k)
  | Alt r1 r2 => orelse (matchk r1 s cs k) (matchk r2 s cs k)
  | Grp n r =>
      matchk r s cs
        (fun s' cs' => k s' ((n, take (length s - length s') s) :: cs'))
  end.

(** [re.match(r, s)]: the groups and the text left after the match *)
Definition re_match (r : re) (s : str) : option (caps * str) :=
  matchk r s [] (fun rest cs => Some (cs, rest)).

(** [re.search(r, s)]: start index, matched text, groups *)
Fixpoint re_search_from (r : re) (i : nat) (s : str)
  : option (nat * str * caps) :=
  match re_match r s with
  | Some (cs, rest) => Some (i, take (length s - length rest) s, cs)
  | None =>
      match s with
      | [] => None
      | _ :: s' => re_search_from r (S i) s'
      end
  end.
Definition re_search (r : re) (s : str) : option (nat * str * caps) :=
  re_search_from r 0 s.

(** [re.findall(r, s)] for a pattern without groups *)
Fixpoint findall_go (r : re) (skip : nat) (s : str) : list str :=
  match skip, s with
  | S k, _ :: s' => findall_go r k s'
  | S _, [] => []
  | 0, _ =>
      match re_match r s, s with
      | Some (_, rest), _ :: s' =>
          let m := take (length s - length rest) s in
          m :: findall_go r (length m - 1) s'
      | Some (_, _), [] => [[]]
      | None, _ :: s' => findall_go r 0 s'
      | None, [] => []
      end
  end.
Definition re_findall (r : re) (s : str) : list str := findall_go r 0 s.

(** [re.sub(r, '', s)] for a pattern that matches no empty string *)
Fixpoint sub_go (r : re) (skip : nat) (s : str) : str :=
  match skip, s with
  | S k, _ :: s' => sub_go r k s'
  | S _, [] => []
  | 0, [] => []
  | 0, c :: s' =>
      match re_match r s with
      | Some (_, rest) => sub_go r (length s - length rest - 1) s'
      | None => c :: sub_go r 0 s'
      end
  end.
Definition re_sub_empty (r : re) (s : str) : str := sub_go r 0 s.

(** Building patterns *)
Fixpoint seqs (rs : list re) : re :=
  match rs with
  | [] => Eps
  | [r] => r
  | r :: rs' => Seq r (seqs rs')
  end.
Definition lit (s : str) : re := seqs (List.map Chr s).
Definition star (p : char -> bool) : re := Rep p 0 None true.
Definition plus (p : char -> bool) : re := Rep p 1 None true.
Definition plus_lazy (p : char -> bool) : re := Rep p 1 None false.
Definition opt (p : char -> bool) : re := Rep p 0 (Some 1) true.
Definition chr_is (c : char) : char -> bool := N.eqb c.
Definition none_of (set : str) (c : char) : bool := negb (mem_char c set).
Definition not_space (c : char) : bool := negb (isspace c).
(** [.] without [re.DOTALL] *)
Definition dot (c : char) : bool := negb (N.eqb c 10).
(** the en dash U+2013 or the hyphen: [[–\-]] *)
Definition en_dash : char := 8211%N.
Definition dash (c : char) : bool := N.eqb c en_dash || N.eqb c 45.
(** [https?://] *)
Definition http_prefix : re := seqs [lit (py "http"); opt (chr_is 115%N); lit (py "://")].

End Re.
Export Re.

(** ** Python values that travel through the validator

    The values that [json.loads] builds.  A citation title is one of them:
    the title of an accepted alternative is whatever the assistant's JSON
    holds under ["title"]. *)

Unset Elimination Schemes.
Inductive json :=
| JNull
| JBool (b : bool)
| JInt (z : Z)
| JFloat (nonzero : bool)
| JStr (s : str)
| JArr (l : list json)
| JObj (d : list (str * json)).
Set Elimination Schemes.

(** Python truthiness *)
Definition truthy (v : json) : bool :=
  match v with
  | JNull => false
  | JBool b => b
  | JInt z => negb (Z.eqb z 0)
  | JFloat nz => nz
  | JStr s => negb (str_eqb s [])
  | JArr l => match l with [] => false | _ => true end
  | JObj d => match d with [] => false | _ => true end
  end.

(** [d.get(key)] on a dict: [None] is Python's [None] for a missing key *)
Fixpoint dict_get (key : str) (d : list (str * json)) : option json :=
  match d with
  | [] => None
  | (k, v) :: d' => if str_eqb k key then Some v else dict_get key d'
  end.

(** ** The citation record ([models/citation.py] is not part of the sources
    at hand: the record has the three attributes the code reads and writes) *)

Record Citation := mkCitation {
  number : Z;
  url : str;
  title : json }.

Definition set_number (n : Z) (c : Citation) : Citation :=
  mkCitation n (url c) (title c).

(** ** [stage_04_citations.py]: [_parse_sources] *)

Module Patterns.

(** [\[(\d+)\]:\s*(https?://[^\s]+?)(?:\s+[–\-]\s+|\s+)(.+)] *)
Definition line_dash : re :=
  seqs [Chr 91; Grp 1 (plus isdigit); Chr 93; Chr 58; star isspace;
        Grp 2 (seqs [http_prefix; plus_lazy not_space]);
        Alt (seqs [plus isspace; Cls dash; plus isspace]) (plus isspace);
        Grp 3 (plus dot)]%N.

(** [\[(\d+)\]:\s*(https?://[^\s]+)\s+(.+)] *)
Definition line_space : re :=
  seqs [Chr 91; Grp 1 (plus isdigit); Chr 93; Chr 58; star isspace;
        Grp 2 (seqs [http_prefix; plus not_space]);
        plus isspace; Grp 3 (plus dot)]%N.

(** [\[(\d+)\]:\s*(.+)] *)
Definition line_free : re :=
  seqs [Chr 91; Grp 1 (plus isdigit); Chr 93; Chr 58; star isspace;
        Grp 2 (plus dot)]%N.

(** [https?://[^\s–\-\)\]\}]+] *)
Definition url_in_text : re :=
  seqs [http_prefix;
        plus (fun c => not_space c && negb (dash c) && none_of (py ")]}") c)].

(** [https?://[^\s]+\s*[–\-]?\s*] *)
Definition url_and_separator : re :=
  seqs [http_prefix; plus not_space; star isspace; opt dash; star isspace].

End Patterns.

Section Parser.

(** The constructor [Citation(number=..., url=..., title=...)] of the missing
    model class; [None] when it raises. *)
Variable Citation_init : Z -> str -> str -> option Citation.

(** One pass of the [for line in lines] loop: the citations appended to
    [citation_list.citations] for this line (none or one). *)
Definition parse_line (line0 : str) : list Citation :=
  let line := strip line0 in
  match line with
  | [] => []
  | _ =>
      let m := match re_match Patterns.line_dash line with
               | Some m => Some m
               | None => re_match Patterns.line_space line
               end in
      match m with
      | Some (cs, _) =>
          let number := py_int (group 1 cs) in
          let url := strip (group 2 cs) in
          let title := strip (group 3 cs) in
          match Citation_init number url title with
          | Some citation => [citation]
          | None => []
          end
      | None =>
          match re_match Patterns.line_free line with
          | Some (cs, _) =>
              let number := py_int (group 1 cs) in
              let content := strip (group 2 cs) in
              match re_search Patterns.url_in_text content with
              | Some (_, matched, _) =>
                  let url := rstrip_chars (py ".,;:!?)") matched in
                  let title := strip (re_sub_empty Patterns.url_and_separator content) in
                  let title := match title with [] => url | _ => title end in
                  if startswith url (py "/") then []
                  else match Citation_init number url title with
                       | Some citation => [citation]
                       | None => []
                       end
              | None => []
              end
          | None => []
          end
      end
  end.

(** [for i, citation in enumerate(citation_list.citations, 1):
       citation.number = i] *)
Fixpoint renumber (i : Z) (citations : list Citation) : list Citation :=
  match citations with
  | [] => []
  | citation :: rest => set_number i citation :: renumber (i + 1) rest
  end.

(** [_parse_sources]: the objects are created here, one per accepted line,
    so no two entries of the list are the same object. *)
Definition _parse_sources (sources_text : str) : list Citation :=
  let lines := split_char 10%N (strip sources_text) in
  renumber 1 (List.concat (List.map parse_line lines)).

End Parser.

(** The plain constructor: the three attributes as given *)
Definition plain_init (n : Z) (u t : str) : option Citation :=
  Some (mkCitation n u (JStr t)).

(** The sources text of the example:
    [[5]: http://a.com – A] followed by [[9]: http://b.com – B] *)
Definition example_sources : str :=
  py "[5]: http://a.com " ++ [en_dash] ++ py " A" ++ [10%N] ++
  py "[9]: http://b.com " ++ [en_dash] ++ py " B".


(** ** Effects: exceptions, the world, the outside *)

(** The exceptions that the code tells apart; all of them derive from
    [Exception]. *)
Inductive exn :=
| TimeoutError            (* asyncio.TimeoutError *)
| HttpxTimeoutException   (* httpx.TimeoutException *)
| HttpxRequestError       (* httpx.RequestError *)
| JSONDecodeError
| ValueError
| TypeError
| AttributeError
| RuntimeError.

Inductive result (A : Type) :=
| Ok (a : A)
| Raise (e : exn).
Arguments Ok {A} a.
Arguments Raise {A} e.

(** What the validator asks the Gemini client: the values its prompt is
    built from. *)
Inductive gemini_request :=
| AskAlternative (search_query company_url : str) (competitors : list str)
| AskSpecificPage (domain : str) (title : json).

(** The calls made to the outside, most recent first *)
Inductive event :=
| EvTime
| EvHead (url : str)
| EvGet (url : str)
| EvGemini (req : gemini_request).

Record World := mkWorld {
  (** [_URL_STATUS_CACHE]: url -> (is_valid, final_url, timestamp) *)
  status_cache : gmap str (bool * str * Z);
  (** [_AUTHORITY_CACHE]: query -> (result, timestamp) *)
  authority_cache : gmap str (option (str * str) * Z);
  (** the calls made so far *)
  history : list event;
  (** the [Citation] objects, by identity *)
  heap : nat -> Citation }.

Definition M (A : Type) : Type := World -> result A * World.

Definition ret {A} (a : A) : M A := fun w => (Ok a, w).
Definition raise {A} (e : exn) : M A := fun w => (Raise e, w).
Definition bind {A B} (m : M A) (k : A -> M B) : M B :=
  fun w => match m w with
           | (Ok a, w') => k a w'
           | (Raise e, w') => (Raise e, w')
           end.
(** [try: m except ...: h e]; the handler decides which exceptions it takes
    and raises the others again. *)
Definition catch {A} (m : M A) (h : exn -> M A) : M A :=
  fun w => match m w with
           | (Ok a, w') => (Ok a, w')
           | (Raise e, w') => h e w'
           end.

Notation "'let!' x ':=' m 'in' k" := (bind m (fun x => k))
  (at level 10, x name, m at level 200, k at level 200, only parsing).
Notation "'run!' m 'in' k" := (bind m (fun _ => k))
  (at level 10, m at level 200, k at level 200, only parsing).

Definition log_event (e : event) (w : World) : World :=
  mkWorld (status_cache w) (authority_cache w) (e :: history w) (heap w).

Definition set_status_cache (url : str) (entry : bool * str * Z) : M unit :=
  fun w => (Ok tt, mkWorld (<[url := entry]> (status_cache w))
                           (authority_cache w) (history w) (heap w)).

Definition set_authority_cache (key : str) (entry : option (str * str) * Z) : M unit :=
  fun w => (Ok tt, mkWorld (status_cache w)
                           (<[key := entry]> (authority_cache w))
                           (history w) (heap w)).

Definition get_status_cache (url : str) : M (option (bool * str * Z)) :=
  fun w => (Ok (status_cache w !! url), w).

Definition get_authority_cache (key : str) : M (option (option (str * str) * Z)) :=
  fun w => (Ok (authority_cache w !! key), w).

Definition deref (r : nat) : M Citation := fun w => (Ok (heap w r), w).

Definition heap_set (r : nat) (c : Citation) (h : nat -> Citation) : nat -> Citation :=
  fun r' => if Nat.eqb r' r then c else h r'.

(** [citation.url = v] and [citation.title = v] *)
Definition assign_url (r : nat) (v : str) : M unit :=
  fun w => (Ok tt, mkWorld (status_cache w) (authority_cache w) (history w)
                           (heap_set r (mkCitation (number (heap w r)) v (title (heap w r))) (heap w))).
Definition assign_title (r : nat) (v : json) : M unit :=
  fun w => (Ok tt, mkWorld (status_cache w) (authority_cache w) (history w)
                           (heap_set r (mkCitation (number (heap w r)) (url (heap w r)) v) (heap w))).

Definition number_of_gemini_calls (w : World) : nat :=
  length (List.filter (fun e => match e with EvGemini _ => true | _ => false end) (history w)).

Definition number_of_http_calls (w : World) : nat :=
  length (List.filter (fun e => match e with EvHead _ | EvGet _ => true | _ => false end)
            (history w)).

(** From [w] to [w']: the [Citation] objects are untouched and the history
    has only grown. *)
Definition grows (w w' : World) : Prop :=
  heap w' = heap w /\ exists evs, history w' = evs ++ history w.

Definition framed {A} (m : M A) : Prop :=
  forall w r w', m w = (r, w') -> grows w w'.

(** ** [url_validator.py]: the patterns *)

Module VPatterns.

Definition quote : char := 34%N.
Definition quoted (s : str) : re := seqs [Chr quote; lit s; Chr quote].
Definition not_brace : char -> bool := none_of (py "}").
Definition quote_chars : str := [34; 39]%N.

(** [\{[^}]*Q url Q[^}]*Q verified Q[^}]*\}], *) (* Q the double quote *)
Definition json_url_verified : re :=
  seqs [Chr 123%N; star not_brace; quoted (py "url"); star not_brace;
        quoted (py "verified"); star not_brace; Chr 125%N].

(** [\{[^}]+\}] *)
Definition json_object : re := seqs [Chr 123%N; plus not_brace; Chr 125%N].

(** [\{[^}]*Q url Q[^}]*\}] *)
Definition json_url : re :=
  seqs [Chr 123%N; star not_brace; quoted (py "url"); star not_brace; Chr 125%N].

(** [\{[^}]*Q url_meta_title Q[^}]*\}] *)
Definition json_meta_title : re :=
  seqs [Chr 123%N; star not_brace; quoted (py "url_meta_title"); star not_brace;
        Chr 125%N].

(** [https?://[^\s\)\]\>QA]+], A the apostrophe *)
Definition url_token : re :=
  seqs [http_prefix;
        plus (fun c => not_space c && none_of (py ")]>" ++ quote_chars) c)].

(** [\[\d+\]] *)
Definition citation_marker : re := seqs [Chr 91%N; plus isdigit; Chr 93%N].

(** A letter under [re.I]: both cases, and for [i] the two dotted and
    dotless letters U+0130 and U+0131 that Python folds to it. *)
Definition ci (c : char) : re :=
  Cls (fun x => N.eqb (lower_char x) (lower_char c)
                || (N.eqb (lower_char c) 105 && (N.eqb x 304 || N.eqb x 305))).
Definition lit_ci (s : str) : re := seqs (List.map ci s).

(** [(?:title|meta)[:\s]+[QA]?([^QA]{10,80})[QA]?] with [re.I] *)
Definition title_near : re :=
  seqs [Alt (lit_ci (py "title")) (lit_ci (py "meta"));
        plus (fun c => N.eqb c 58 || isspace c);
        opt (fun c => mem_char c quote_chars);
        Grp 1 (Rep (none_of quote_chars) 10 (Some 80) true);
        opt (fun c => mem_char c quote_chars)].

End VPatterns.

(** [_build_search_query] *)
Definition _build_search_query (title : str) : str :=
  let query := strip title in
  let query := re_sub_empty VPatterns.citation_marker query in
  if Nat.ltb 100 (length query) then take 100 query ++ py "..." else query.

(** The table [authority_patterns] of [_try_authority_fallback] *)
Definition authority_patterns : list (list str * list (str * str)) :=
  [ (List.map py ["business"; "finance"; "economy"; "revenue"; "profit"; "market";
                  "enterprise"]%string,
     [(py "https://www.investopedia.com/", py "Investopedia");
      (py "https://hbr.org/", py "Harvard Business Review");
      (py "https://www.census.gov/", py "U.S. Census Bureau");
      (py "https://www.brookings.edu/", py "Brookings Institution")]);
    (List.map py ["ai"; "artificial intelligence"; "machine learning"; "technology";
                  "software"; "automation"]%string,
     [(py "https://www.nist.gov/", py "NIST");
      (py "https://www.nature.com/", py "Nature");
      (py "https://techcrunch.com/", py "TechCrunch");
      (py "https://www.ieee.org/", py "IEEE")]);
    (List.map py ["health"; "medical"; "healthcare"; "patient"; "treatment";
                  "clinical"]%string,
     [(py "https://www.who.int/", py "World Health Organization");
      (py "https://www.nejm.org/", py "New England Journal of Medicine");
      (py "https://www.nih.gov/", py "National Institutes of Health");
      (py "https://jamanetwork.com/", py "JAMA Network")]);
    (List.map py ["manufacturing"; "industry"; "production"; "factory";
                  "industrial"]%string,
     [(py "https://www.manufacturing.net/", py "Manufacturing.net");
      (py "https://www.industryweek.com/", py "IndustryWeek");
      (py "https://www.nist.gov/", py "NIST")]);
    (List.map py ["marketing"; "advertising"; "digital"; "content"; "email";
                  "automation"; "campaign"]%string,
     [(py "https://hbr.org/", py "Harvard Business Review");
      (py "https://www.statista.com/", py "Statista");
      (py "https://techcrunch.com/", py "TechCrunch");
      (py "https://www.pewresearch.org/", py "Pew Research Center")]);
    (List.map py ["research"; "study"; "report"; "data"; "statistics"]%string,
     [(py "https://www.pewresearch.org/", py "Pew Research Center");
      (py "https://www.census.gov/", py "U.S. Census Bureau");
      (py "https://www.statista.com/", py "Statista");
      (py "https://www.brookings.edu/", py "Brookings")]) ].

(** How the block that reads the structured answer ends: with a [return],
    or by falling through to the scan of the raw text. *)
Inductive flow (A : Type) :=
| Return (a : A)
| FallThrough.
Arguments Return {A} a.
Arguments FallThrough {A}.

(** ** [url_validator.py]: the validator *)

Section Validator.

Variable bracketed_netloc_ok : str -> bool.
Variable nfkc_netloc_ok : str -> bool.

(** The outside.  Each call is answered according to its position in the
    history, so that the same request may be answered differently at
    different moments. *)
(** [time.time()], in seconds (the float is read as a whole number of
    seconds; only differences of two readings are compared with the TTLs) *)
Variable time_time : nat -> Z.
(** [asyncio.wait_for(self.http_client.head(url), ...)] and the same for
    [get]: the status code and [str(response.url)], or the exception *)
Variable http_head : nat -> str -> result (Z * str).
Variable http_get : nat -> str -> result (Z * str).
(** [self.gemini_client.generate_content(prompt, enable_tools=True)], under
    [asyncio.wait_for] where the code has it: what one call of the method
    returns or raises.  The client ([gemini_client.py]) sends the request to
    the API up to [MAX_RETRIES = 3] times inside one call; these requests are
    not events of their own here, an [EvGemini] stands for one call of the
    method. *)
Variable generate_content : nat -> gemini_request -> result str.
(** [json.loads] on a text that starts with a brace: the dict, or [None] for
    [json.JSONDecodeError] *)
Variable json_loads : str -> option (list (str * json)).

Local Abbreviation urlparse := (UrlLib.urlparse bracketed_netloc_ok nfkc_netloc_ok).
Local Abbreviation _normalize_url := (_normalize_url bracketed_netloc_ok nfkc_netloc_ok).
Local Abbreviation _should_filter_url :=
  (_should_filter_url bracketed_netloc_ok nfkc_netloc_ok).

Definition now : M Z :=
  fun w => (Ok (time_time (length (history w))), log_event EvTime w).
Definition head (url : str) : M (Z * str) :=
  fun w => (http_head (length (history w)) url, log_event (EvHead url) w).
Definition get (url : str) : M (Z * str) :=
  fun w => (http_get (length (history w)) url, log_event (EvGet url) w).
(** One call of [generate_content]; it is one [EvGemini] in the history,
    however many times the client sends the request inside the call. *)
Definition ask_gemini (req : gemini_request) : M str :=
  fun w => (generate_content (length (history w)) req, log_event (EvGemini req) w).

Definition is_redirect (status_code : Z) : bool :=
  existsb (Z.eqb status_code) [301; 302; 303; 307; 308]%Z.

(** The redirect branch of [_check_url_status]: one [get] of the URL the
    [head] ended on, under [except asyncio.TimeoutError] *)
Definition follow_redirect (url final_url : str) (current_time : Z) : M (bool * str) :=
  catch
    (let! get_response := get final_url in
     let '(get_status, final_redirect_url) := get_response in
     if Z.eqb get_status 200 && negb (_is_error_page_url final_redirect_url) then
       run! set_status_cache url (true, final_redirect_url, current_time) in
       ret (true, final_redirect_url)
     else
       run! set_status_cache url (false, final_redirect_url, current_time) in
       ret (false, final_redirect_url))
    (fun e =>
       match e with
       | TimeoutError =>
           run! set_status_cache url (false, final_url, current_time) in
           ret (false, final_url)
       | _ => raise e
       end).

(** The classification of the answer to [head] *)
Definition classify (url : str) (current_time : Z) (response : Z * str) : M (bool * str) :=
  let '(status_code, final_url) := response in
  if Z.eqb status_code 200 then
    if _is_error_page_url final_url then
      run! set_status_cache url (false, final_url, current_time) in
      ret (false, final_url)
    else
      run! set_status_cache url (true, final_url, current_time) in
      ret (true, final_url)
  else if Z.eqb status_code 404 then
    run! set_status_cache url (false, final_url, current_time) in
    ret (false, final_url)
  else if is_redirect status_code then follow_redirect url final_url current_time
  else
    run! set_status_cache url (false, final_url, current_time) in
    ret (false, final_url).

(** The [try] block of [_check_url_status] with its four handlers, each of
    which is [return False, url] *)
Definition probe (url : str) (current_time : Z) : M (bool * str) :=
  catch
    (let! response := head url in
     classify url current_time response)
    (fun _ => ret (false, url)).

(** [_check_url_status] *)
Definition _check_url_status (url : str) : M (bool * str) :=
  let! current_time := now in
  let! cached := get_status_cache url in
  match cached with
  | Some (is_valid, final_url, timestamp) =>
      let cache_ttl := if is_valid then _CACHE_TTL else _FAILED_URL_TTL in
      if (current_time - timestamp <? cache_ttl)%Z then ret (is_valid, final_url)
      else probe url current_time
  | None => probe url current_time
  end.

(** [_find_specific_page_url]; the whole body is under
    [except Exception: return None]. *)
Definition _find_specific_page_url (title : json) (domain_url : str) : M (option str) :=
  catch
    (match urlparse domain_url with
     | None => raise ValueError
     | Some parsed =>
         let domain :=
           match netloc parsed with
           | [] => match split_char 47%N
                           (replace (py "http://") []
                              (replace (py "https://") [] domain_url)) with
                   | d :: _ => d
                   | [] => []
                   end
           | nl => nl
           end in
         let! response_text := ask_gemini (AskSpecificPage domain title) in
         match re_search VPatterns.json_object response_text with
         | Some (_, matched, _) =>
             match json_loads matched with
             | None => raise JSONDecodeError
             | Some result =>
                 match dict_get (py "verified") result, dict_get (py "url") result with
                 | Some verified, Some found =>
                     if truthy verified && truthy found then
                       match found with
                       | JStr found_url =>
                           if _is_specific_page_url found_url
                           then ret (Some found_url) else ret None
                       | _ => ret None
                       end
                     else ret None
                 | _, _ => ret None
                 end
             end
         | None => ret None
         end
     end)
    (fun _ => ret None).

(** [_extract_urls_from_response]: the tokens found by the pattern, and in
    front of them the value under ["url"] of the first JSON object, of
    whatever type it is. *)
Definition _extract_urls_from_response (response_text : str) : list json :=
  let matches := re_findall VPatterns.url_token response_text in
  let urls :=
    List.map JStr
      (List.filter (fun u => negb (str_eqb u []))
         (List.map (rstrip_chars (py ".,;:!?)")) matches)) in
  match re_search VPatterns.json_url response_text with
  | Some (_, matched, _) =>
      match json_loads matched with
      | Some data =>
          match dict_get (py "url") data with
          | Some v => v :: urls
          | None => urls
          end
      | None => urls
      end
  | None => urls
  end.

(** [_extract_title_from_response]; [None] is Python's [None]. *)
Definition _extract_title_from_response (response_text url : str) : option json :=
  let from_json :=
    match re_search VPatterns.json_meta_title response_text with
    | Some (_, matched, _) =>
        match json_loads matched with
        | Some data => dict_get (py "url_meta_title") data
        | None => None
        end
    | None => None
    end in
  match from_json with
  | Some v => Some v
  | None =>
      match find_sub url response_text with
      | Some (S i) =>
          let url_index := S i in
          let before_url := drop (url_index - 200) (take url_index response_text) in
          match re_search VPatterns.title_near before_url with
          | Some (_, _, cs) => Some (JStr (strip (group 1 cs)))
          | None => None
          end
      | _ => None
      end
  end.

Section PerBatch.

Variable company_url : str.
Variable competitors : list str.

(** The two nested loops of [_try_authority_fallback] visit, in order, the
    urls of every pattern one of whose keywords occurs in the query. *)
Definition authority_candidates (query_lower : str) : list (str * str) :=
  List.concat
    (List.map (fun pattern : list str * list (str * str) =>
                 if existsb (fun keyword => contains keyword query_lower) (fst pattern)
                 then snd pattern else [])
       authority_patterns).

Fixpoint try_authority_urls (search_query : str) (candidates : list (str * str))
  : M (option (str * str)) :=
  match candidates with
  | [] => ret None
  | (base_url, source_name) :: rest =>
      if _should_filter_url base_url company_url competitors
      then try_authority_urls search_query rest
      else
        let! checked := _check_url_status base_url in
        let '(is_valid, final_url) := checked in
        if is_valid then
          let fallback_title := take 60 search_query ++ py " - " ++ source_name in
          ret (Some (final_url, fallback_title))
        else try_authority_urls search_query rest
  end.

(** [_try_authority_fallback] *)
Definition _try_authority_fallback (search_query : str) : M (option (str * str)) :=
  let! current_time := now in
  let cache_key := take 100 search_query in
  let! cached := get_authority_cache cache_key in
  let lookup :=
    let! found := try_authority_urls search_query
                    (authority_candidates (lower search_query)) in
    match found with
    | Some result =>
        run! set_authority_cache cache_key (Some result, current_time) in
        ret (Some result)
    | None =>
        run! set_authority_cache cache_key (None, current_time) in
        ret None
    end in
  match cached with
  | Some (cached_result, timestamp) =>
      if (current_time - timestamp <? _CACHE_TTL)%Z then ret cached_result
      else lookup
  | None => lookup
  end.

Definition get_or_none (key : str) (data : list (str * json)) : json :=
  match dict_get key data with Some v => v | None => JNull end.

(** The [try] block of [_find_alternative_url] that reads the structured
    answer, without its handlers *)
Definition read_structured (title : json) (response_text : str)
  : M (flow (option (str * json))) :=
  match re_search VPatterns.json_url_verified response_text with
  | None => ret FallThrough
  | Some (_, matched, _) =>
      match json_loads matched with
      | None => raise JSONDecodeError
      | Some data =>
          let verified := get_or_none (py "verified") data in
          let url_value := get_or_none (py "url") data in
          if truthy verified && truthy url_value then
            match url_value with
            | JStr u =>
                let candidate_url := strip u in
                let candidate_title :=
                  match dict_get (py "title") data with
                  | Some t => t
                  | None => title
                  end in
                match _normalize_url candidate_url with
                | None => raise ValueError
                | Some candidate_url =>
                    if _should_filter_url candidate_url company_url competitors
                    then ret FallThrough
                    else
                      let! checked := _check_url_status candidate_url in
                      let '(is_valid, final_url) := checked in
                      if is_valid then ret (Return (Some (final_url, candidate_title)))
                      else ret FallThrough
                end
            | _ => raise AttributeError
            end
          else
            match url_value, verified with
            | JStr [], JBool false => ret (Return None)
            | _, _ => ret FallThrough
            end
      end
  end.

(** The loop [for candidate_url in urls] *)
Fixpoint scan_candidates (title : json) (response_text : str) (urls : list json)
  : M (option (str * json)) :=
  match urls with
  | [] => ret None
  | v :: rest =>
      if negb (truthy v) then scan_candidates title response_text rest
      else
        match v with
        | JStr u =>
            match _normalize_url u with
            | None => raise ValueError
            | Some candidate_url =>
                if _should_filter_url candidate_url company_url competitors
                then scan_candidates title response_text rest
                else
                  let! checked := _check_url_status candidate_url in
                  let '(is_valid, final_url) := checked in
                  if is_valid then
                    let meta_title :=
                      match _extract_title_from_response response_text candidate_url with
                      | Some t => if truthy t then t else title
                      | None => title
                      end in
                    ret (Some (final_url, meta_title))
                  else scan_candidates title response_text rest
            end
        | _ => raise AttributeError
        end
  end.

Definition lift_title (r : option (str * str)) : option (str * json) :=
  match r with Some (u, t) => Some (u, JStr t) | None => None end.

(** The request that [_find_alternative_url] sends for a title *)
Definition alternative_request (title_text : str) : gemini_request :=
  AskAlternative (_build_search_query title_text) company_url (take 2 competitors).

(** An alternative [out_url] handed out in [w'], the call having started in
    [w0]: some candidate passed the filter and a status check. *)
Definition passed_checks (w0 : World) (out_url : str) (w' : World) : Prop :=
  exists candidate w1,
    _should_filter_url
      candidate company_url competitors = false /\
    grows w0 w1 /\
    _check_url_status candidate w1 = (Ok (true, out_url), w').

(** What follows the Gemini call in [_find_alternative_url] when the call
    returned [response_text] *)
Definition after_response (title : json) (response_text : str)
  : M (option (str * json)) :=
  let! structured :=
    catch (read_structured title response_text) (fun _ => ret FallThrough) in
  match structured with
  | Return r => ret r
  | FallThrough =>
      scan_candidates title response_text (_extract_urls_from_response response_text)
  end.

(** [_find_alternative_url]: [_build_search_query] is called before the
    [try]; everything after it is under [except Exception: return None]. *)
Definition _find_alternative_url (title : json) : M (option (str * json)) :=
  match title with
  | JStr title_text =>
      let search_query := _build_search_query title_text in
      catch
        (let! answer :=
           catch
             (let! response_text :=
                ask_gemini (AskAlternative search_query company_url (take 2 competitors)) in
              ret (Some response_text))
             (fun _ => ret None) in
         match answer with
         | None =>
             let! fallback := _try_authority_fallback search_query in
             ret (lift_title fallback)
         | Some response_text => after_response title response_text
         end)
        (fun _ => ret None)
  | _ => raise AttributeError
  end.

(** [v[:60]] is defined on strings and lists *)
Definition sliceable (v : json) : bool :=
  match v with JStr _ | JArr _ => true | _ => false end.

(** [validate_citation_url] *)
Definition validate_citation_url (url : str) (title : json) : M (bool * str * json) :=
  if negb (sliceable title) then raise TypeError
  else
    let! checked := _check_url_status url in
    let '(is_valid, final_url) := checked in
    let! final_url :=
      (if negb (_is_specific_page_url final_url) then
         let! specific_url := _find_specific_page_url title final_url in
         match specific_url with
         | Some specific => ret specific
         | None => ret final_url
         end
       else ret final_url) in
    if is_valid then
      if _should_filter_url final_url company_url competitors then
        let! alternative := _find_alternative_url title in
        match alternative with
        | Some (alt_url, alt_title) => ret (true, alt_url, alt_title)
        | None => ret (false, url, title)
        end
      else ret (true, final_url, title)
    else
      let! alternative := _find_alternative_url title in
      match alternative with
      | Some (alt_url, alt_title) =>
          if sliceable alt_title then ret (true, alt_url, alt_title)
          else raise TypeError
      | None => ret (false, url, title)
      end.

(** [validate_single_citation], the unit of work of [validate_all_citations] *)
Definition validate_single_citation (citation : nat) : M nat :=
  catch
    (let! c := deref citation in
     let! validated := validate_citation_url (url c) (title c) in
     let '(is_valid, final_url, final_title) := validated in
     run! assign_url citation final_url in
     run! assign_title citation final_title in
     ret citation)
    (fun _ => ret citation).

End PerBatch.

(** [asyncio.gather( *tasks, return_exceptions=True)].  The units run to
    completion one after the other in the order [schedule] (the order in
    which they finish); the outcome of task [i] is stored at position [i],
    an exception as a value.  [gather] returns once every position is
    filled. *)
Fixpoint gather_run {A} (tasks : list (M A)) (schedule : list nat)
    (slots : list (option (result A))) (w : World)
  : list (option (result A)) * World :=
  match schedule with
  | [] => (slots, w)
  | i :: rest =>
      match tasks !! i with
      | Some task =>
          let '(r, w') := task w in
          gather_run tasks rest (<[i := Some r]> slots) w'
      | None => gather_run tasks rest slots w
      end
  end.

Fixpoint all_filled {A} (slots : list (option A)) : option (list A) :=
  match slots with
  | [] => Some []
  | Some a :: rest => cons a <$> all_filled rest
  | None :: _ => None
  end.

Definition asyncio_gather {A} (tasks : list (M A)) (schedule : list nat) (w : World)
  : option (list (result A) * World) :=
  let '(slots, w') := gather_run tasks schedule (replicate (length tasks) None) w in
  match all_filled slots with
  | Some results => Some (results, w')
  | None => None
  end.

(** The loop [for i, citation_or_error in enumerate(validated)];
    [citations[i]] raises [IndexError] out of range. *)
Inductive batch_error := IndexError.

Fixpoint collect (citations : list nat) (i : nat) (validated : list (result nat))
  : batch_error + list nat :=
  match validated with
  | [] => inr []
  | citation_or_error :: rest =>
      match collect citations (S i) rest with
      | inl e => inl e
      | inr tail =>
          match citation_or_error with
          | Raise _ =>
              match citations !! i with
              | Some original => inr (original :: tail)
              | None => inl IndexError
              end
          | Ok citation => inr (citation :: tail)
          end
      end
  end.

(** [validate_all_citations]: [None] when [gather] never returns, [inl] when
    the function raises. *)
Definition validate_all_citations (citations : list nat) (company_url : str)
    (competitors : list str) (schedule : list nat) (w : World)
  : option ((batch_error + list nat) * World) :=
  match citations with
  | [] => Some (inr [], w)
  | _ =>
      let tasks := List.map (validate_single_citation company_url competitors) citations in
      match asyncio_gather tasks schedule w with
      | Some (validated, w') => Some (collect citations 0 validated, w')
      | None => None
      end
  end.

End Validator.

(** ** Scenarios: concrete answers of the outside *)

Module Scenario.

Definition q : str := [34%N].

(** [{"url": "https://good.org/page", "title": null, "verified": true}] *)
Definition answer_null_title : str :=
  py "{" ++ q ++ py "url" ++ q ++ py ": " ++ q ++ py "https://good.org/page" ++ q ++
  py ", " ++ q ++ py "title" ++ q ++ py ": null, " ++ q ++ py "verified" ++ q ++
  py ": true}".

(** [{"url": "https://good.org/page", "title": "Good page", "verified": true}] *)
Definition answer_good : str :=
  py "{" ++ q ++ py "url" ++ q ++ py ": " ++ q ++ py "https://good.org/page" ++ q ++
  py ", " ++ q ++ py "title" ++ q ++ py ": " ++ q ++ py "Good page" ++ q ++ py ", " ++
  q ++ py "verified" ++ q ++ py ": true}".

(** [{"url": "https://other.org/page", "verified": true}] *)
Definition answer_other_domain : str :=
  py "{" ++ q ++ py "url" ++ q ++ py ": " ++ q ++ py "https://other.org/page" ++ q ++
  py ", " ++ q ++ py "verified" ++ q ++ py ": true}".

(** [json.loads] on the three texts above *)
Definition json_loads (text : str) : option (list (str * json)) :=
  if str_eqb text answer_null_title then
    Some [(py "url", JStr (py "https://good.org/page")); (py "title", JNull);
          (py "verified", JBool true)]
  else if str_eqb text answer_good then
    Some [(py "url", JStr (py "https://good.org/page"));
          (py "title", JStr (py "Good page")); (py "verified", JBool true)]
  else if str_eqb text answer_other_domain then
    Some [(py "url", JStr (py "https://other.org/page")); (py "verified", JBool true)]
  else None.

Definition clock (t : Z) (n : nat) : Z := t.

(** Every request fails / is answered 200 at the URL asked / is answered
    only for [https://good.org/page]. *)
Definition http_fails (n : nat) (u : str) : result (Z * str) := Raise HttpxRequestError.
Definition http_ok (n : nat) (u : str) : result (Z * str) := Ok (200%Z, u).
Definition http_only_good (n : nat) (u : str) : result (Z * str) :=
  if str_eqb u (py "https://good.org/page") then Ok (200%Z, u)
  else Raise HttpxRequestError.
Definition http_times_out (n : nat) (u : str) : result (Z * str) := Raise TimeoutError.

Definition gemini_says (text : str) (n : nat) (req : gemini_request) : result str :=
  Ok text.
Definition gemini_times_out (n : nat) (req : gemini_request) : result str :=
  Raise TimeoutError.

Definition the_citation : Citation :=
  mkCitation 1 (py "https://example.org/report") (JStr (py "AI report")).

Definition start : World := mkWorld ∅ ∅ [] (fun _ => the_citation).

Definition company : str := py "https://acme.com".

(** A world whose authority cache holds, stored at time 0, an answer for the
    query [AI report] *)
Definition nist : str * str := (py "https://www.nist.gov/", py "AI report - NIST").
Definition with_cached_authority : World :=
  mkWorld ∅ {[ py "AI report" := (Some nist, 0%Z) ]} [] (fun _ => the_citation).

End Scenario.

(** ** [url_validator.py]: [_cleanup_expired_cache] *)

(** [del cache[key]] raises [KeyError] for a key that is not there. *)
Inductive cache_error := KeyError.

(** [for key in keys: del cache[key]]; when a [del] raises, the dictionary
    is returned as it is at that point. *)
Fixpoint del_all {V} (keys : list str) (cache : gmap str V)
  : option cache_error * gmap str V :=
  match keys with
  | [] => (None, cache)
  | key :: rest =>
      match cache !! key with
      | Some _ => del_all rest (delete key cache)
      | None => (Some KeyError, cache)
      end
  end.

(** [current_time - timestamp > _CACHE_TTL] *)
Definition is_expired (current_time timestamp : Z) : bool :=
  (_CACHE_TTL <? current_time - timestamp)%Z.

(** The two list comprehensions over [items()]: the keys of the expired
    entries.  (The order in which a dictionary is gone through is the order
    of insertion in Python and the order of [map_to_list] here; the
    dictionary that is left is the same for every order, see
    [del_all_spec].) *)
Definition expired_urls (current_time : Z) (cache : gmap str (bool * str * Z)) : list str :=
  List.map fst
    (List.filter (fun '(_, (_, _, timestamp)) => is_expired current_time timestamp)
       (map_to_list cache)).

Definition expired_queries (current_time : Z)
    (cache : gmap str (option (str * str) * Z)) : list str :=
  List.map fst
    (List.filter (fun '(_, (_, timestamp)) => is_expired current_time timestamp)
       (map_to_list cache)).

Section Maintenance.

Variable time_time : nat -> Z.

(** [_cleanup_expired_cache]: [time.time()] is read once; the expired URLs
    are listed and deleted, then the expired queries. *)
Definition _cleanup_expired_cache (w : World) : option cache_error * World :=
  let current_time := time_time (length (history w)) in
  let w := log_event EvTime w in
  let '(e1, status) :=
    del_all (expired_urls current_time (status_cache w)) (status_cache w) in
  match e1 with
  | Some e => (Some e, mkWorld status (authority_cache w) (history w) (heap w))
  | None =>
      let '(e2, authority) :=
        del_all (expired_queries current_time (authority_cache w)) (authority_cache w) in
      (e2, mkWorld status authority (history w) (heap w))
  end.

End Maintenance.

(** ** Notions used to state the further properties *)

(** Every run of [m] takes a world to one related to it by [R]. *)
Definition steps (R : World -> World -> Prop) {A} (m : M A) : Prop :=
  forall w r w', m w = (r, w') -> R w w'.

(** No entry of [_URL_STATUS_CACHE] marked valid has a final URL that looks
    like an error page. *)
Definition cache_sound (w : World) : Prop :=
  forall url final_url timestamp,
    status_cache w !! url = Some (true, final_url, timestamp) ->
    _is_error_page_url final_url = false.

(** No entry of either cache has been removed. *)
Definition keeps_keys (w w' : World) : Prop :=
  (forall url, is_Some (status_cache w !! url) -> is_Some (status_cache w' !! url)) /\
  (forall query, is_Some (authority_cache w !! query) ->
                 is_Some (authority_cache w' !! query)).

(** The relations between the world before and the world after a call *)
Definition caches_kept (w w' : World) : Prop :=
  (cache_sound w -> cache_sound w') /\ keeps_keys w w'.

Definition no_gemini_call (w w' : World) : Prop :=
  number_of_gemini_calls w' = number_of_gemini_calls w.

Definition same_authority_cache (w w' : World) : Prop :=
  authority_cache w' = authority_cache w.

(** The [Citation] objects that are not in the list are as they were. *)
Definition untouched_outside (citations : list nat) (w w' : World) : Prop :=
  forall r, r ∉ citations -> heap w' r = heap w r.

(** [m] calls [gemini_client.generate_content] at most [n] times. *)
Definition calls_at_most (n : nat) {A} (m : M A) : Prop :=
  forall w r w', m w = (r, w') ->
    number_of_gemini_calls w' <= number_of_gemini_calls w + n.

(** The names that [_is_specific_page_url] takes for a home page *)
Definition index_names : list str :=
  [] :: List.map py ["index.html"; "index"; "home"; "homepage"; "default"]%string.

(** The characters that are taken off the end of a URL found in a text *)
Definition trailing_punctuation : str := py ".,;:!?)".

(** The texts that a pattern matches *)
Fixpoint lang (r : re) (m : str) : Prop :=
  match r with
  | Eps => m = []
  | Chr c => m = [c]
  | Cls p => exists x, m = [x] /\ p x = true
  | Rep p lo hi _ =>
      forallb p m = true /\ lo <= length m /\
      match hi with Some h => length m <= h | None => True end
  | Seq r1 r2 => exists m1 m2, m = m1 ++ m2 /\ lang r1 m1 /\ lang r2 m2
  | Alt r1 r2 => lang r1 m \/ lang r2 m
  | Grp _ r => lang r m
  end.

(** The pattern has no capturing group. *)
Fixpoint nogrp (r : re) : bool :=
  match r with
  | Grp _ _ => false
  | Seq r1 r2 | Alt r1 r2 => nogrp r1 && nogrp r2
  | _ => true
  end.

(** The beginning [\[(\d+)\]:\s*] that the three line patterns share *)
Definition after_marker (tail : re) : re :=
  Seq (Chr 91) (Seq (Grp 1 (plus isdigit)) (Seq (Chr 93) (Seq (Chr 58)
    (Seq (star isspace) tail)))).

(** The two line patterns with a separator between URL and title *)
Definition with_separator (greedy : bool) (separator : re) : re :=
  after_marker (Seq (Grp 2 (Seq http_prefix (Rep not_space 1 None greedy)))
                    (Seq separator (Grp 3 (plus dot)))).

(** ** More scenarios *)

Module Cases.

(** The answer asked of the assistant when it finds nothing: a JSON object
    with the empty string under [url] and [false] under [verified] *)
Definition answer_none : str :=
  py "{" ++ Scenario.q ++ py "url" ++ Scenario.q ++ py ": " ++ Scenario.q ++ Scenario.q ++
  py ", " ++ Scenario.q ++ py "verified" ++ Scenario.q ++ py ": false}".

(** [json.loads] on that text and on the texts of [Scenario] *)
Definition json_loads (text : str) : option (list (str * json)) :=
  if str_eqb text answer_none
  then Some [(py "url", JStr []); (py "verified", JBool false)]
  else Scenario.json_loads text.

Definition report : str := py "https://example.org/report".

(** A world whose status cache holds a verdict for [report] that was stored
    at time -200 *)
Definition with_old_status : World :=
  mkWorld {[ report := (true, report, (-200)%Z) ]} ∅ [] (fun _ => Scenario.the_citation).

(** A text that names a title in front of a URL *)
Definition titled_answer : str :=
  py "title: A good page about things https://good.org/page".

(** The clock reads 0 at the first three calls made to the outside and 100
    from then on; [head] is answered 404 at the first three calls and 200
    from then on. *)
Definition clock_jumps (n : nat) : Z := if Nat.ltb n 3 then 0%Z else 100%Z.
Definition http_404_then_200 (n : nat) (u : str) : result (Z * str) :=
  if Nat.ltb n 3 then Ok (404%Z, u) else Ok (200%Z, u).

End Cases.

(** * Theorems *)

(** The functions of the validator are taken apart by hand in the proofs. *)
#[global] Arguments _check_url_status : simpl never.
#[global] Arguments probe : simpl never.
#[global] Arguments classify : simpl never.
#[global] Arguments follow_redirect : simpl never.
#[global] Arguments read_structured : simpl never.
#[global] Arguments after_response : simpl never.
#[global] Arguments _try_authority_fallback : simpl never.
#[global] Arguments _find_alternative_url : simpl never.
#[global] Arguments _find_specific_page_url : simpl never.
#[global] Arguments validate_citation_url : simpl never.
#[global] Arguments validate_single_citation : simpl never.
#[global] Arguments _should_filter_url : simpl never.
#[global] Arguments _normalize_url : simpl never.
#[global] Arguments _is_specific_page_url : simpl never.
#[global] Arguments _is_error_page_url : simpl never.
#[global] Arguments _build_search_query : simpl never.
#[global] Arguments _extract_urls_from_response : simpl never.
#[global] Arguments _extract_title_from_response : simpl never.


(** ** The citation parser *)

Section ParserFacts.

Variable Citation_init : Z -> str -> str -> option Citation.

Lemma renumber_length (i : Z) (l : list Citation) :
  length (renumber i l) = length l.
Proof. revert i. induction l as [|c l IH]; intros i; simpl; [done|]. by rewrite IH. Qed.

Lemma renumber_lookup (l : list Citation) :
  forall (i : Z) (k : nat) (c : Citation),
    renumber i l !! k = Some c ->
    number c = (i + Z.of_nat k)%Z /\
    exists c0, l !! k = Some c0 /\ url c = url c0 /\ title c = title c0.
Proof.
  induction l as [|c0 l IH]; intros i k c H; simpl in H; [done|].
  destruct k as [|k]; simpl in H.
  - inversion H; subst; simpl. split; [lia|]. exists c0. done.
  - apply IH in H as [Hn Hc]. split; [lia|]. exact Hc.
Qed.

End ParserFacts.

Lemma renumber_numbers (l : list Citation) (i : nat) :
  List.map number (renumber (Z.of_nat i) l) = List.map Z.of_nat (seq i (length l)).
Proof.
  revert i. induction l as [|c l IH]; intros i; simpl; [done|].
  f_equal. replace (Z.of_nat i + 1)%Z with (Z.of_nat (S i)) by lia. apply IH.
Qed.

(** C6.  Whatever the sources text and whatever lines the constructor
    accepts, the numbers of the parser's output, read in list order, are
    1, 2, ..., n: the numeral written in a line plays no part.  On the
    example, the lines numbered 5 and 9 give the records numbered 1 and 2,
    in that order. *)
Theorem parse_sources_renumbered :
  (forall (Citation_init : Z -> str -> str -> option Citation) (sources_text : str),
      List.map number (_parse_sources Citation_init sources_text)
      = List.map Z.of_nat (seq 1 (length (_parse_sources Citation_init sources_text)))) /\
  _parse_sources plain_init example_sources =
    [ mkCitation 1 (py "http://a.com") (JStr (py "A"));
      mkCitation 2 (py "http://b.com") (JStr (py "B")) ].
Proof.
  split.
  - intros init text. unfold _parse_sources.
    rewrite renumber_length. apply (renumber_numbers _ 1).
  - vm_compute. reflexivity.
Qed.

(** ** Strings *)

Lemma str_eqb_eq (a b : str) : str_eqb a b = true <-> a = b.
Proof.
  revert b. induction a as [|x a IH]; intros [|y b]; simpl; try (split; congruence).
  rewrite andb_true_iff, N.eqb_eq, IH. split; [intros [-> ->]; done | intros [= -> ->]; done].
Qed.

Lemma str_eqb_refl (a : str) : str_eqb a a = true.
Proof. by apply str_eqb_eq. Qed.

Lemma str_eqb_neq (a b : str) : str_eqb a b = false <-> a <> b.
Proof.
  rewrite <- not_true_iff_false, str_eqb_eq. done.
Qed.

Lemma startswith_app_l (s p q : str) :
  startswith s (p ++ q) = true -> startswith s p = true.
Proof.
  revert s. induction p as [|x p IH]; intros s; simpl; [done|].
  destruct s as [|y s]; [done|].
  rewrite !andb_true_iff. intros [? ?]. split; [done|]. by apply IH.
Qed.

Lemma in_list_In (s : str) (l : list str) : in_list s l = true <-> In s l.
Proof.
  unfold in_list. rewrite existsb_exists. split.
  - intros [x [Hin Heq]]. apply str_eqb_eq in Heq. by subst.
  - intros Hin. exists s. split; [done | apply str_eqb_refl].
Qed.

(** ** The domain filter *)

Section FilterFacts.

Variable bracketed_netloc_ok : str -> bool.
Variable nfkc_netloc_ok : str -> bool.

Local Abbreviation urlparse := (UrlLib.urlparse bracketed_netloc_ok nfkc_netloc_ok).
Local Abbreviation host_of := (host_of bracketed_netloc_ok nfkc_netloc_ok).
Local Abbreviation _should_filter_url :=
  (_should_filter_url bracketed_netloc_ok nfkc_netloc_ok).
Local Abbreviation filter_competitors :=
  (filter_competitors bracketed_netloc_ok nfkc_netloc_ok).

Lemma is_subdomain_spec (host root : str) :
  _is_subdomain host root = true <->
  host <> [] /\ root <> [] /\ endswith host (py "." ++ root) = true.
Proof.
  unfold _is_subdomain. destruct host as [|h host], root as [|r root].
  - split; [discriminate | intros (? & _); congruence].
  - split; [discriminate | intros (? & _); congruence].
  - split; [discriminate | intros (_ & ? & _); congruence].
  - split; [intros H; repeat split; [discriminate | discriminate | exact H]
           | intros (_ & _ & H); exact H].
Qed.

Lemma host_matches_spec (host root : str) :
  str_eqb host root || _is_subdomain host root = true <-> host_matches host root.
Proof.
  unfold host_matches. rewrite orb_true_iff, str_eqb_eq, is_subdomain_spec. done.
Qed.

Lemma host_of_Some (u h : str) :
  host_of u = Some h <->
  exists p, urlparse u = Some p /\ h = _normalize_hostname (netloc p).
Proof.
  unfold host_of. destruct (urlparse u) as [p|]; simpl.
  - split; [intros [= <-]; eauto | intros (p' & [= <-] & ->); done].
  - split; [discriminate | intros (p' & ? & _); discriminate].
Qed.

(** The loop over the competitors, when every entry parses *)
Lemma filter_competitors_spec (host : str) (competitors : list str) :
  Forall (fun c => is_Some (host_of (comp_url c))) competitors ->
  exists b, filter_competitors host competitors = Some b /\
    (b = true <->
     exists c root, In c competitors /\ host_of (comp_url c) = Some root /\
                    host_matches host root).
Proof.
  induction 1 as [|c cs [root Hroot] _ IH]; simpl.
  - exists false. split; [done|]. split; [discriminate|]. intros (c & r & [] & _).
  - apply host_of_Some in Hroot as Hp. destruct Hp as (p & Hp & ->). rewrite Hp.
    destruct (str_eqb host _ || _is_subdomain host _) eqn:E.
    + exists true. split; [done|]. split; [|done]. intros _.
      exists c, (_normalize_hostname (netloc p)). split; [by left|].
      split; [done|]. by apply host_matches_spec.
    + destruct IH as (b & Hb & Hiff). exists b. split; [done|].
      rewrite Hiff. split.
      * intros (c' & r & Hin & Hr & Hm). exists c', r. split; [by right|done].
      * intros (c' & r & [<-|Hin] & Hr & Hm).
        -- rewrite Hroot in Hr. injection Hr as <-.
           apply host_matches_spec in Hm. congruence.
        -- exists c', r. done.
Qed.

(** A competitor entry that carries [http://] or [https://], or does not
    begin with [http] at all, is parsed as the claim has it. *)
Lemma comp_url_with_https (c : str) :
  (startswith c (py "http") = true ->
   startswith_any c [py "http://"; py "https://"] = true) ->
  comp_url c = with_https c.
Proof.
  unfold comp_url, with_https. intros H.
  destruct (startswith c (py "http")) eqn:E.
  - by rewrite H.
  - destruct (startswith_any c _) eqn:E2; [|done].
    exfalso. unfold startswith_any in E2. cbn [existsb] in E2.
    rewrite orb_false_r in E2. apply orb_true_iff in E2.
    destruct E2 as [E2|E2];
      [ change (py "http://") with (py "http" ++ py "://") in E2
      | change (py "https://") with (py "http" ++ py "s://") in E2 ];
      apply startswith_app_l in E2; congruence.
Qed.

(** The filter, for an exclusion set whose entries parse *)
Lemma should_filter_url_iff (url company_url : str) (competitors : list str) :
  (company_url = [] \/ is_Some (host_of company_url)) ->
  Forall (fun c => is_Some (host_of (with_https c)) /\
                   (startswith c (py "http") = true ->
                    startswith_any c [py "http://"; py "https://"] = true))
         competitors ->
  _should_filter_url url company_url competitors = true <->
  exists host, host_of url = Some host /\
    (In host FORBIDDEN_HOSTS
     \/ (company_url <> [] /\
         exists root, host_of company_url = Some root /\ host_matches host root)
     \/ (exists c root, In c competitors /\ host_of (with_https c) = Some root /\
                        host_matches host root)).
Proof.
  intros Hcompany Hcomp.
  assert (Hcomp1 : Forall (fun c => is_Some (host_of (comp_url c))) competitors).
  { eapply Forall_impl; [exact Hcomp|]. intros c [Hs Hp].
    by rewrite (comp_url_with_https c Hp). }
  assert (Hcomp2 : forall c, In c competitors -> comp_url c = with_https c).
  { intros c Hin. rewrite Forall_forall in Hcomp.
    apply list_elem_of_In in Hin. destruct (Hcomp c Hin) as [_ Hp].
    by apply comp_url_with_https. }
  unfold _should_filter_url, should_filter_body.
  destruct (urlparse url) as [parsed|] eqn:Hurl.
  2:{ split; [discriminate|]. intros (host & Hh & _).
      apply host_of_Some in Hh as (p & Hp & _). congruence. }
  set (host := _normalize_hostname (netloc parsed)).
  assert (Hhost : host_of url = Some host).
  { apply host_of_Some. eauto. }
  destruct (filter_competitors_spec host competitors Hcomp1) as (b & Hb & Hbiff).
  assert (Hcompetitor :
    b = true <-> exists c root, In c competitors /\
                   host_of (with_https c) = Some root /\ host_matches host root).
  { rewrite Hbiff. split; intros (c & root & Hin & Hr & Hm); exists c, root;
      (split; [done|]); [rewrite <- (Hcomp2 c Hin) | rewrite (Hcomp2 c Hin)]; done. }
  destruct (in_list host FORBIDDEN_HOSTS) eqn:Hforb.
  { split; [|done]. intros _. exists host. split; [done|]. left.
    by apply in_list_In. }
  assert (Hnf : ~ In host FORBIDDEN_HOSTS).
  { intros Hin. apply in_list_In in Hin. congruence. }
  destruct company_url as [|c0 company] eqn:Hc.
  - rewrite Hb. rewrite Hcompetitor. split.
    + intros H. exists host. split; [done|]. right. right. done.
    + intros (h & Hh & [Hf | [[Hne _] | H]]); [|done|];
        rewrite Hhost in Hh; injection Hh as <-; done.
  - destruct Hcompany as [|[root Hroot]]; [done|].
    apply host_of_Some in Hroot as Hp. destruct Hp as (cp & Hcp & ->).
    rewrite Hcp.
    destruct (str_eqb host _ || _is_subdomain host _) eqn:E.
    + split; [|done]. intros _. exists host. split; [done|]. right. left.
      split; [done|]. eexists. split; [exact Hroot|]. by apply host_matches_spec.
    + rewrite Hb. rewrite Hcompetitor. split.
      * intros H. exists host. split; [done|]. right. right. done.
      * intros (h & Hh & [Hf | [[_ (r & Hr & Hm)] | H]]);
          rewrite Hhost in Hh; injection Hh as <-; [done| |done].
        rewrite Hroot in Hr. injection Hr as <-.
        apply host_matches_spec in Hm. congruence.
Qed.

Lemma names_host_host_of (u root : str) :
  names_host bracketed_netloc_ok nfkc_netloc_ok u root -> host_of u = Some root.
Proof. intros (p & Hp & _ & -> & _). apply host_of_Some. eauto. Qed.

Lemma names_host_not_empty (u root : str) :
  names_host bracketed_netloc_ok nfkc_netloc_ok u root -> u <> [].
Proof.
  intros (p & Hp & _ & -> & Hne) ->. apply Hne.
  assert (H0 : urlparse [] = Some (mkParse [] [] [] [] [] [])) by (vm_compute; reflexivity).
  rewrite H0 in Hp. by injection Hp as <-.
Qed.

(** C7 (amended).  The URL, the company URL and the competitor entries are
    written without port and user information; the company URL is empty or
    names a host that is not empty, and so does every competitor entry
    (given [https://] when it has no protocol; an entry that begins with
    [http] carries [http://] or [https://]).  Then [_should_filter_url]
    answers [True] exactly when the URL parses and its normalised host is
    one of the forbidden hosts (equality only), or equals or is a
    dot-boundary subdomain of the host of the company or of a competitor.
    In particular [blog.acme.com] is filtered against the own-domain host
    [acme.com], and [notacme.com] is not. *)
Theorem should_filter_url_spec (url company_url : str) (competitors : list str) :
  (forall parsed, urlparse url = Some parsed -> host_only (netloc parsed) = true) ->
  (company_url = [] \/
   exists own, names_host bracketed_netloc_ok nfkc_netloc_ok company_url own) ->
  Forall (fun c =>
            (exists root,
                names_host bracketed_netloc_ok nfkc_netloc_ok (with_https c) root) /\
            (startswith c (py "http") = true ->
             startswith_any c [py "http://"; py "https://"] = true))
         competitors ->
  (_should_filter_url url company_url competitors = true <->
   exists host, host_of url = Some host /\
     (In host FORBIDDEN_HOSTS
      \/ (exists own,
             names_host bracketed_netloc_ok nfkc_netloc_ok company_url own /\
             host_matches host own)
      \/ (exists c root,
             In c competitors /\
             names_host bracketed_netloc_ok nfkc_netloc_ok (with_https c) root /\
             host_matches host root))) /\
  (names_host bracketed_netloc_ok nfkc_netloc_ok company_url (py "acme.com") ->
   _should_filter_url (py "https://blog.acme.com/x") company_url competitors = true /\
   _should_filter_url (py "https://notacme.com") company_url [] = false).
Proof.
  intros _ Hcompany Hcomp.
  assert (Hc1 : company_url = [] \/ is_Some (host_of company_url)).
  { destruct Hcompany as [->|[own Hown]]; [by left|right].
    rewrite (names_host_host_of _ _ Hown). eauto. }
  assert (Hc2 : Forall (fun c => is_Some (host_of (with_https c)) /\
                          (startswith c (py "http") = true ->
                           startswith_any c [py "http://"; py "https://"] = true))
                  competitors).
  { eapply Forall_impl; [exact Hcomp|]. intros c [[root Hr] Hp]. split; [|exact Hp].
    rewrite (names_host_host_of _ _ Hr). eauto. }
  split.
  - rewrite (should_filter_url_iff url company_url competitors Hc1 Hc2).
    split; intros (host & Hh & Hcases); exists host; (split; [exact Hh|]).
    + destruct Hcases as [Hf | [(Hne & root & Hr & Hm) | (c & root & Hin & Hr & Hm)]].
      * by left.
      * right. left. destruct Hcompany as [->|[own Hown]]; [done|].
        exists own. split; [exact Hown|].
        rewrite (names_host_host_of _ _ Hown) in Hr. by injection Hr as <-.
      * right. right. rewrite Forall_forall in Hcomp.
        apply list_elem_of_In in Hin as Hin'.
        destruct (Hcomp c Hin') as [[root' Hr'] _].
        exists c, root'. split; [exact Hin|]. split; [exact Hr'|].
        rewrite (names_host_host_of _ _ Hr') in Hr. by injection Hr as <-.
    + destruct Hcases as [Hf | [(own & Hown & Hm) | (c & root & Hin & Hr & Hm)]].
      * by left.
      * right. left. split; [exact (names_host_not_empty _ _ Hown)|].
        exists own. split; [exact (names_host_host_of _ _ Hown) | exact Hm].
      * right. right. exists c, root. split; [exact Hin|].
        split; [exact (names_host_host_of _ _ Hr) | exact Hm].
  - intros Hacme. split.
    + apply (should_filter_url_iff _ company_url competitors Hc1 Hc2).
      exists (py "blog.acme.com"). split; [vm_compute; reflexivity|].
      right. left. split; [exact (names_host_not_empty _ _ Hacme)|].
      exists (py "acme.com"). split; [exact (names_host_host_of _ _ Hacme)|].
      apply host_matches_spec. vm_compute. reflexivity.
    + apply not_true_iff_false. intros H.
      apply (should_filter_url_iff _ company_url [] Hc1 ltac:(constructor)) in H.
      destruct H as (host & Hh & Hcases).
      assert (Hn : host_of (py "https://notacme.com") = Some (py "notacme.com"))
        by (vm_compute; reflexivity).
      rewrite Hn in Hh. injection Hh as <-.
      destruct Hcases as [Hf | [(_ & root & Hr & Hm) | (c & _ & [] & _)]].
      * simpl in Hf. destruct Hf as [Hf | [Hf | []]]; discriminate Hf.
      * rewrite (names_host_host_of _ _ Hacme) in Hr. injection Hr as <-.
        apply host_matches_spec in Hm. vm_compute in Hm. discriminate Hm.
Qed.

(** A URL without a host is let through by an exclusion set all of whose
    hosts are not empty. *)
Lemma should_filter_url_no_host (url company_url : str) (competitors : list str) :
  host_of url = Some [] ->
  (company_url = [] \/ exists root, host_of company_url = Some root /\ root <> []) ->
  Forall (fun c => (exists root, host_of (with_https c) = Some root /\ root <> []) /\
                   (startswith c (py "http") = true ->
                    startswith_any c [py "http://"; py "https://"] = true))
         competitors ->
  _should_filter_url url company_url competitors = false.
Proof.
  intros Hurl Hcompany Hcomp.
  apply not_true_is_false. intros Hf.
  apply should_filter_url_iff in Hf.
  - destruct Hf as (host & Hh & Hcases). rewrite Hurl in Hh. injection Hh as <-.
    assert (Hroot : forall root, host_matches [] root -> root = []).
    { intros root [<- | (Hne & _)]; [done | by destruct Hne]. }
    destruct Hcases as [Hforb | [(Hne0 & root & Hr & Hm) | (c & root & Hin & Hr & Hm)]].
    + simpl in Hforb. destruct Hforb as [? | [? | []]]; discriminate.
    + apply Hroot in Hm. subst root.
      destruct Hcompany as [-> | (root & Hr' & Hne)].
      * done.
      * rewrite Hr in Hr'. injection Hr' as <-. done.
    + apply Hroot in Hm. subst root. rewrite Forall_forall in Hcomp.
      apply list_elem_of_In in Hin.
      destruct (Hcomp c Hin) as [(root & Hr' & Hne) _].
      rewrite Hr in Hr'. injection Hr' as <-. done.
  - destruct Hcompany as [-> | (root & Hr & _)]; [by left | right; eauto].
  - eapply Forall_impl; [exact Hcomp|]. intros c [(root & Hr & _) Hp]. split; eauto.
Qed.

(** When [urlparse] rejects the URL, the filter lets it through. *)
Lemma should_filter_url_unparsable (url company_url : str) (competitors : list str) :
  urlparse url = None -> _should_filter_url url company_url competitors = false.
Proof.
  intros H. unfold _should_filter_url, should_filter_body. by rewrite H.
Qed.

(** C9.  The string ['not a url'] parses, with an empty netloc; against the
    company URL ['acme.com'], whose netloc is empty too, the filter answers
    [True]. *)
Theorem should_filter_not_a_url_true :
  urlparse (py "not a url") = Some (mkParse [] [] (py "not a url") [] [] []) /\
  host_of (py "not a url") = Some [] /\
  host_of (py "acme.com") = Some [] /\
  _should_filter_url (py "not a url") (py "acme.com") [] = true.
Proof. repeat split; vm_compute; reflexivity. Qed.

End FilterFacts.

(** The filter on the two URLs of the specification's example.  With the
    company URL [https://acme.com] the host of the company is [acme.com].
    Written [acme.com], without protocol, the company URL has an empty
    netloc: no host is found for it, and [blog.acme.com] is let through
    (the competitor entries are given [https://] in that case, the company
    URL is not). *)
Lemma should_filter_url_examples :
  _should_filter_url accept_all accept_all
    (py "https://blog.acme.com/x") (py "https://acme.com") [] = true /\
  _should_filter_url accept_all accept_all
    (py "https://notacme.com") (py "https://acme.com") [] = false /\
  host_of accept_all accept_all (py "acme.com") = Some [] /\
  _should_filter_url accept_all accept_all
    (py "https://blog.acme.com/x") (py "acme.com") [] = false /\
  _should_filter_url accept_all accept_all
    (py "https://blog.acme.com/x") [] [py "acme.com"] = true.
Proof. repeat split; vm_compute; reflexivity. Qed.

(** C7 as stated fails: the host [docs.cloud.google.com] is a dot-boundary
    subdomain of the forbidden host [cloud.google.com], and the URL is not
    filtered. *)
Lemma should_filter_forbidden_subdomain_counterexample :
  let url := py "https://docs.cloud.google.com/x" in
  (exists host, host_of accept_all accept_all url = Some host /\
                In (py "cloud.google.com") FORBIDDEN_HOSTS /\
                endswith host (py "." ++ py "cloud.google.com") = true) /\
  _should_filter_url accept_all accept_all url [] [] = false.
Proof.
  split.
  - eexists. split; [vm_compute; reflexivity|].
    split; [right; left; reflexivity | vm_compute; reflexivity].
  - vm_compute. reflexivity.
Qed.

Lemma names_host_example (u : str) (parsed : ParseResult) :
  UrlLib.urlparse accept_all accept_all u = Some parsed ->
  host_only (netloc parsed) = true ->
  _normalize_hostname (netloc parsed) <> [] ->
  names_host accept_all accept_all u (_normalize_hostname (netloc parsed)).
Proof. intros Hp Ho Hne. exists parsed. done. Qed.

Lemma should_filter_url_spec_witness :
  let url := py "https://blog.acme.com/x" in
  let company_url := py "https://acme.com" in
  let competitors := [py "rival.io"; py "https://www.other.com"] in
  (forall parsed,
      UrlLib.urlparse accept_all accept_all url = Some parsed ->
      host_only (netloc parsed) = true) /\
  names_host accept_all accept_all company_url (py "acme.com") /\
  Forall (fun c =>
            (exists root, names_host accept_all accept_all (with_https c) root) /\
            (startswith c (py "http") = true ->
             startswith_any c [py "http://"; py "https://"] = true))
         competitors /\
  (_should_filter_url accept_all accept_all url company_url competitors = true <->
   exists host, host_of accept_all accept_all url = Some host /\
     (In host FORBIDDEN_HOSTS
      \/ (exists own, names_host accept_all accept_all company_url own /\
                      host_matches host own)
      \/ (exists c root, In c competitors /\
                         names_host accept_all accept_all (with_https c) root /\
                         host_matches host root))) /\
  _should_filter_url accept_all accept_all (py "https://blog.acme.com/x")
    company_url competitors = true /\
  _should_filter_url accept_all accept_all (py "https://notacme.com")
    company_url [] = false.
Proof.
  intros url company_url competitors.
  assert (H0 : forall parsed,
             UrlLib.urlparse accept_all accept_all url = Some parsed ->
             host_only (netloc parsed) = true).
  { intros parsed Hp.
    assert (Hu : UrlLib.urlparse accept_all accept_all url
                 = Some (mkParse (py "https") (py "blog.acme.com") (py "/x") [] [] []))
      by (vm_compute; reflexivity).
    rewrite Hu in Hp. injection Hp as <-. reflexivity. }
  assert (H1 : names_host accept_all accept_all company_url (py "acme.com")).
  { apply (names_host_example company_url
             (mkParse (py "https") (py "acme.com") [] [] [] []));
      [vm_compute; reflexivity | reflexivity | discriminate]. }
  assert (H2 : Forall (fun c =>
            (exists root, names_host accept_all accept_all (with_https c) root) /\
            (startswith c (py "http") = true ->
             startswith_any c [py "http://"; py "https://"] = true))
         competitors).
  { constructor; [split | constructor; [split | constructor]].
    - eexists. apply (names_host_example _
                        (mkParse (py "https") (py "rival.io") [] [] [] []));
        [vm_compute; reflexivity | reflexivity | discriminate].
    - vm_compute. congruence.
    - eexists. apply (names_host_example _
                        (mkParse (py "https") (py "www.other.com") [] [] [] []));
        [vm_compute; reflexivity | reflexivity | vm_compute; discriminate].
    - vm_compute. congruence. }
  destruct (should_filter_url_spec accept_all accept_all url company_url competitors
              H0 (or_intror (ex_intro _ _ H1)) H2) as [Hiff Hexample].
  split; [exact H0|]. split; [exact H1|]. split; [exact H2|].
  split; [exact Hiff | exact (Hexample H1)].
Defined.

(** ** [_normalize_url] *)

Lemma startswith_spec (s p : str) :
  startswith s p = true <-> exists r, s = p ++ r.
Proof.
  revert s. induction p as [|x p IH]; intros s; simpl.
  - split; [intros _; by exists s | done].
  - destruct s as [|y s].
    + split; [discriminate | intros [r Hr]; discriminate].
    + rewrite andb_true_iff, N.eqb_eq, IH. split.
      * intros [-> [r ->]]. by exists r.
      * intros [r [= -> ->]]. split; [done | by exists r].
Qed.

(** ** Finding and splitting *)

Lemma mem_char_app (c : N) (a b : list N) :
  mem_char c (a ++ b) = mem_char c a || mem_char c b.
Proof. unfold mem_char. apply existsb_app. Qed.

Lemma mem_char_cons (c x : N) (a : list N) :
  mem_char c (x :: a) = N.eqb c x || mem_char c a.
Proof. reflexivity. Qed.

Lemma find_char_None (c : N) (s : list N) :
  find_char c s = None <-> mem_char c s = false.
Proof.
  induction s as [|x s IH]; simpl; [done|].
  rewrite (N.eqb_sym c x). destruct (N.eqb x c); simpl; [split; discriminate|].
  rewrite <- IH. destruct (find_char c s); simpl; split; congruence.
Qed.

Lemma find_char_Some (c : N) (s : list N) (k : nat) :
  find_char c s = Some k ->
  exists a b, s = a ++ c :: b /\ length a = k /\ mem_char c a = false.
Proof.
  revert k. induction s as [|x s IH]; intros k; simpl; [discriminate|].
  destruct (N.eqb x c) eqn:E.
  - intros [= <-]. apply N.eqb_eq in E as ->. by exists [], s.
  - destruct (find_char c s) as [k'|]; simpl; [|discriminate].
    intros [= <-]. destruct (IH k' eq_refl) as (a & b & -> & Hl & Hm).
    exists (x :: a), b. split; [done|]. split; [simpl; by rewrite Hl|].
    simpl. by rewrite N.eqb_sym, E.
Qed.

Lemma find_char_app (c : N) (a b : list N) :
  mem_char c a = false -> find_char c (a ++ c :: b) = Some (length a).
Proof.
  induction a as [|x a IH]; simpl; intros H.
  - by rewrite N.eqb_refl.
  - apply orb_false_iff in H as [Hx Ha]. rewrite N.eqb_sym, Hx, (IH Ha). done.
Qed.

Lemma rfind_char_None (c : N) (s : list N) :
  rfind_char c s = None <-> mem_char c s = false.
Proof.
  induction s as [|x s IH]; simpl; [done|].
  rewrite (N.eqb_sym c x).
  destruct (rfind_char c s); simpl.
  - split; [discriminate|]. intros H. apply orb_false_iff in H as [_ H].
    apply IH in H. discriminate.
  - destruct (N.eqb x c); simpl; [split; discriminate|]. by rewrite <- IH.
Qed.

Lemma rfind_char_Some (c : N) (s : list N) (j : nat) :
  rfind_char c s = Some j ->
  exists a b, s = a ++ c :: b /\ length a = j /\ mem_char c b = false.
Proof.
  revert j. induction s as [|x s IH]; intros j; simpl; [discriminate|].
  destruct (rfind_char c s) as [j'|] eqn:E.
  - intros [= <-]. destruct (IH j' eq_refl) as (a & b & -> & Hl & Hm).
    exists (x :: a), b. split; [done|]. split; [simpl; by rewrite Hl | done].
  - destruct (N.eqb x c) eqn:Ex; [|discriminate].
    intros [= <-]. apply N.eqb_eq in Ex as ->. exists [], s.
    split; [done|]. split; [done|]. by apply rfind_char_None.
Qed.

Lemma rfind_char_app (c : N) (a b : list N) :
  mem_char c b = false -> rfind_char c (a ++ c :: b) = Some (length a).
Proof.
  intros Hb. induction a as [|x a IH]; simpl.
  - apply rfind_char_None in Hb. rewrite Hb. by rewrite N.eqb_refl.
  - by rewrite IH.
Qed.

Lemma split_first_app (c : N) (u f : list N) :
  mem_char c u = false -> split_first c (u ++ c :: f) = (u, Some f).
Proof.
  intros H. unfold split_first. rewrite (find_char_app c u f H).
  rewrite take_app_length.
  replace (S (length u)) with (length (u ++ [c])) by (rewrite length_app; simpl; lia).
  replace (u ++ c :: f) with ((u ++ [c]) ++ f) by (by rewrite <- app_assoc).
  by rewrite drop_app_length.
Qed.

Lemma split_first_none (c : N) (s : list N) :
  mem_char c s = false -> split_first c s = (s, None).
Proof.
  intros H. unfold split_first. apply find_char_None in H. by rewrite H.
Qed.

Lemma split_first_Some (c : N) (s u f : list N) :
  split_first c s = (u, Some f) -> s = u ++ c :: f /\ mem_char c u = false.
Proof.
  unfold split_first. destruct (find_char c s) as [k|] eqn:E; [|discriminate].
  intros [= <- <-]. destruct (find_char_Some c s k E) as (a & b & -> & Hl & Hm).
  subst k. rewrite take_app_length.
  replace (S (length a)) with (length (a ++ [c])) by (rewrite length_app; simpl; lia).
  replace (a ++ c :: b) with ((a ++ [c]) ++ b) at 2 by (by rewrite <- app_assoc).
  rewrite drop_app_length. done.
Qed.

Lemma split_first_None (c : N) (s u : list N) :
  split_first c s = (u, None) -> u = s /\ mem_char c s = false.
Proof.
  unfold split_first. destruct (find_char c s) as [k|] eqn:E; [discriminate|].
  intros [= <-]. split; [done|]. by apply find_char_None.
Qed.

Lemma span_until_spec (P : N -> bool) (s a b : list N) :
  span_until P s = (a, b) ->
  s = a ++ b /\ forallb (fun c => negb (P c)) a = true /\
  match b with [] => True | c :: _ => P c = true end.
Proof.
  revert a b. induction s as [|x s IH]; intros a b; simpl.
  - intros [= <- <-]. done.
  - destruct (P x) eqn:E.
    + intros [= <- <-]. done.
    + destruct (span_until P s) as [a' b'] eqn:Es. intros [= <- <-].
      destruct (IH a' b' eq_refl) as (-> & Ha & Hb). simpl. rewrite E. done.
Qed.

Lemma span_until_app (P : N -> bool) (a b : list N) :
  forallb (fun c => negb (P c)) a = true ->
  match b with [] => True | c :: _ => P c = true end ->
  span_until P (a ++ b) = (a, b).
Proof.
  intros Ha Hb. induction a as [|x a IH]; simpl.
  - destruct b as [|c b]; simpl; [done|]. by rewrite Hb.
  - simpl in Ha. apply andb_true_iff in Ha as [Hx Ha].
    apply negb_true_iff in Hx. rewrite Hx, (IH Ha). done.
Qed.

(** ** [_splitparams] and its inverse in [urlunparse] *)

Lemma splitparams_last_segment (a b : list N) :
  mem_char 47%N b = false -> mem_char 59%N b = false ->
  _splitparams (a ++ 47%N :: b) = (a ++ 47%N :: b, []).
Proof.
  intros H47 H59. unfold _splitparams. rewrite (rfind_char_app _ a b H47).
  unfold find_char_from. rewrite drop_app_length. simpl.
  apply find_char_None in H59. by rewrite H59.
Qed.

Lemma splitparams_at (a b1 b2 : list N) :
  mem_char 47%N b1 = false -> mem_char 47%N b2 = false -> mem_char 59%N b1 = false ->
  _splitparams (a ++ 47%N :: b1 ++ 59%N :: b2) = (a ++ 47%N :: b1, b2).
Proof.
  intros H1 H2 H59. unfold _splitparams.
  assert (Hb : mem_char 47%N (b1 ++ 59%N :: b2) = false).
  { rewrite mem_char_app, mem_char_cons, H1, H2. reflexivity. }
  rewrite (rfind_char_app _ a _ Hb).
  unfold find_char_from. rewrite drop_app_length. simpl.
  rewrite (find_char_app _ b1 b2 H59). simpl.
  replace (length a + S (length b1)) with (length (a ++ 47%N :: b1))
    by (rewrite length_app; simpl; lia).
  replace (a ++ 47%N :: b1 ++ 59%N :: b2) with ((a ++ 47%N :: b1) ++ 59%N :: b2)
    by (rewrite <- app_assoc; reflexivity).
  rewrite take_app_length.
  replace (S (length (a ++ 47%N :: b1))) with (length ((a ++ 47%N :: b1) ++ [59%N]))
    by (rewrite !length_app; simpl; lia).
  replace ((a ++ 47%N :: b1) ++ 59%N :: b2) with (((a ++ 47%N :: b1) ++ [59%N]) ++ b2)
    by (rewrite <- !app_assoc; reflexivity).
  by rewrite drop_app_length.
Qed.

Lemma slash_path_cases (u : list N) :
  mem_char 47%N u = true ->
  (exists a b, u = a ++ 47%N :: b /\ mem_char 47%N b = false /\ mem_char 59%N b = false)
  \/ (exists a b1 b2, u = a ++ 47%N :: b1 ++ 59%N :: b2 /\ mem_char 47%N b1 = false /\
                      mem_char 47%N b2 = false /\ mem_char 59%N b1 = false).
Proof.
  intros H. destruct (rfind_char 47%N u) as [j|] eqn:E.
  2:{ apply rfind_char_None in E. congruence. }
  destruct (rfind_char_Some _ _ _ E) as (a & b & -> & _ & Hb).
  destruct (find_char 59%N b) as [k|] eqn:Ek.
  - right. destruct (find_char_Some _ _ _ Ek) as (b1 & b2 & -> & _ & H59).
    rewrite mem_char_app, mem_char_cons in Hb.
    apply orb_false_iff in Hb as [Hb1 Hb2]. apply orb_false_iff in Hb2 as [_ Hb2].
    exists a, b1, b2. done.
  - left. apply find_char_None in Ek. exists a, b. done.
Qed.

(** Splitting what was joined gives the path and params back. *)
Lemma param_split_join (u : list N) :
  match u with [] => True | c :: _ => c = 47%N end ->
  param_split (param_join (param_split u).1 (param_split u).2) = param_split u /\
  (exists rest, u = param_join (param_split u).1 (param_split u).2 ++ rest) /\
  match param_join (param_split u).1 (param_split u).2 with
  | [] => True
  | c :: _ => c = 47%N
  end.
Proof.
  intros Hhead. destruct u as [|c u']; [by repeat split; try exists []|]. subst c.
  assert (Hslash : mem_char 47%N (47%N :: u') = true) by reflexivity.
  assert (Hprefix : forall v rest, 47%N :: u' = v ++ rest ->
            match v with [] => True | c :: _ => c = 47%N end).
  { intros [|c v] rest Hv; [done|]. by injection Hv as <- _. }
  remember (47%N :: u') as u eqn:Hu0. clear Hu0 u'.
  destruct (slash_path_cases u Hslash)
    as [(a & b & Hu & H47 & H59) | (a & b1 & b2 & Hu & H1 & H2 & H59)].
  - assert (Hsplit : param_split u = (u, [])).
    { unfold param_split. destruct (mem_char 59%N u); [|done].
      rewrite Hu. by apply splitparams_last_segment. }
    rewrite Hsplit. cbn [fst snd]. unfold param_join. cbn [str_eqb negb]. rewrite Hsplit.
    split; [done|]. split; [exists []; by rewrite app_nil_r|].
    apply (Hprefix u []). by rewrite app_nil_r.
  - assert (Hmem : mem_char 59%N u = true).
    { rewrite Hu, mem_char_app, !mem_char_cons, mem_char_app, mem_char_cons.
      rewrite N.eqb_refl. by rewrite !orb_true_r. }
    assert (Hsplit : param_split u = (a ++ 47%N :: b1, b2)).
    { unfold param_split. rewrite Hmem, Hu. by apply splitparams_at. }
    rewrite Hsplit. cbn [fst snd]. unfold param_join.
    destruct b2 as [|x b2]; cbn [str_eqb negb].
    + split; [|split].
      * unfold param_split. destruct (mem_char 59%N (a ++ 47%N :: b1)); [|done].
        by apply splitparams_last_segment.
      * exists [59%N]. rewrite Hu. by rewrite <- app_assoc.
      * apply (Hprefix _ [59%N]). rewrite Hu. by rewrite <- app_assoc.
    + replace ((a ++ 47%N :: b1) ++ py ";" ++ x :: b2) with u
        by (rewrite Hu, <- app_assoc; reflexivity).
      rewrite Hsplit. split; [done|]. split; [exists []; by rewrite app_nil_r|].
      apply (Hprefix u []). by rewrite app_nil_r.
Qed.

Section NormalizeFacts.

Variable bracketed_netloc_ok : str -> bool.
Variable nfkc_netloc_ok : str -> bool.

Local Abbreviation urlsplit := (UrlLib.urlsplit bracketed_netloc_ok nfkc_netloc_ok).
Local Abbreviation split_authority :=
  (UrlLib.split_authority bracketed_netloc_ok nfkc_netloc_ok).
Local Abbreviation urlparse := (UrlLib.urlparse bracketed_netloc_ok nfkc_netloc_ok).
Local Abbreviation _normalize_url := (_normalize_url bracketed_netloc_ok nfkc_netloc_ok).

Lemma urlsplit_http (r : str) :
  urlsplit (py "http://" ++ r) = split_authority (py "http") (clean r).
Proof. reflexivity. Qed.

Lemma urlsplit_https (r : str) :
  urlsplit (py "https://" ++ r) = split_authority (py "https") (clean r).
Proof. reflexivity. Qed.

Lemma split_authority_scheme (sch rest s n u q f : str) :
  split_authority sch rest = Some (s, n, u, q, f) -> s = sch.
Proof.
  unfold split_authority. destruct (span_until _ rest) as [nl url].
  repeat match goal with
         | |- context [if ?b then _ else _] => destruct b
         | |- context [split_first ?c ?x] => destruct (split_first c x) as [? [?|]]
         end; congruence.
Qed.

Lemma with_protocol_cases (url : str) :
  exists r, with_protocol url = py "http://" ++ r \/
            with_protocol url = py "https://" ++ r.
Proof.
  unfold with_protocol.
  destruct (startswith_any (strip url) _) eqn:E; simpl.
  - unfold startswith_any in E. cbn [existsb] in E.
    rewrite orb_false_r in E. apply orb_true_iff in E as [E|E];
      apply startswith_spec in E as [r Hr]; exists r; [left|right]; exact Hr.
  - exists (strip url). by right.
Qed.

(** The scheme found by [urlparse] in the string [_normalize_url] hands it *)
Lemma urlparse_with_protocol_scheme (url : str) (parsed : ParseResult) :
  urlparse (with_protocol url) = Some parsed ->
  scheme parsed = py "http" \/ scheme parsed = py "https".
Proof.
  unfold UrlLib.urlparse. intros H.
  destruct (with_protocol_cases url) as [r [Hr|Hr]]; rewrite Hr in H;
    [rewrite urlsplit_http in H | rewrite urlsplit_https in H];
    destruct (split_authority _ _) as [[[[[s n] u] q] f]|] eqn:Hs; try discriminate;
    apply split_authority_scheme in Hs; subst s;
    destruct (in_list _ uses_params && _);
    [destruct (_splitparams u)| |destruct (_splitparams u)|];
    injection H as <-; simpl; auto.
Qed.

Lemma startswith_app_r (s p r : str) :
  startswith s p = true -> startswith (s ++ r) p = true.
Proof.
  rewrite !startswith_spec. intros [x ->]. exists (x ++ r). by rewrite <- app_assoc.
Qed.

Lemma urlunsplit_begins (sch netloc url query fragment : str) :
  sch = py "http" \/ sch = py "https" ->
  startswith (urlunsplit sch netloc url query fragment) (sch ++ py "://") = true.
Proof.
  intros Hs. unfold urlunsplit.
  assert (Hin : negb (str_eqb sch []) && in_list sch uses_netloc = true)
    by (destruct Hs as [-> | ->]; reflexivity).
  assert (Hne : negb (str_eqb sch []) = true)
    by (destruct Hs as [-> | ->]; reflexivity).
  rewrite Hin, Hne. clear Hin Hne.
  match goal with
  | |- context [if ?c then ?a else url] => set (body := if c then a else url)
  end.
  assert (Hbody : startswith body (py "//") = true).
  { subst body. destruct (negb (str_eqb netloc [])); simpl orb.
    - apply startswith_spec. eexists. reflexivity.
    - destruct (str_eqb (take 2 url) (py "//")) eqn:E; simpl.
      + apply str_eqb_eq in E.
        destruct url as [|a [|b url]]; try discriminate.
        simpl in E. injection E as -> ->. reflexivity.
      + reflexivity. }
  apply startswith_spec in Hbody as [rest Hrest]. rewrite Hrest.
  assert (H0 : startswith (sch ++ py ":" ++ py "//" ++ rest) (sch ++ py "://") = true).
  { apply startswith_spec. exists rest. rewrite <- !app_assoc. reflexivity. }
  destruct (negb (str_eqb query [])), (negb (str_eqb fragment []));
    [do 2 apply startswith_app_r | apply startswith_app_r
    | apply startswith_app_r | ]; exact H0.
Qed.

Lemma urlunparse_begins (p : ParseResult) :
  scheme p = py "http" \/ scheme p = py "https" ->
  startswith (urlunparse p) (py "http://") = true \/
  startswith (urlunparse p) (py "https://") = true.
Proof.
  intros Hs. unfold urlunparse.
  pose proof (urlunsplit_begins (scheme p) (netloc p)
                (if negb (str_eqb (params p) [])
                 then path p ++ py ";" ++ params p else path p)
                (query p) (fragment p) Hs) as H.
  destruct Hs as [E|E]; rewrite E in H |- *; [left|right]; exact H.
Qed.

(** The parts of a split string do not hold the separator. *)
Lemma split_char_parts (c : char) (s : str) :
  Forall (fun part => mem_char c part = false) (split_char c s).
Proof.
  induction s as [|x s IH]; simpl.
  - constructor; [reflexivity | constructor].
  - destruct (N.eqb x c) eqn:E.
    + constructor; [reflexivity | exact IH].
    + destruct (split_char c s) as [|w ws]; [repeat constructor; simpl|].
      * rewrite N.eqb_sym, E. reflexivity.
      * inversion IH; subst. constructor; [|done].
        simpl. rewrite N.eqb_sym, E. simpl. done.
Qed.

Lemma split_char_app_sep (c : char) (a b : str) :
  mem_char c a = false ->
  split_char c (a ++ c :: b) = a :: split_char c b.
Proof.
  induction a as [|x a IH]; simpl; intros H.
  - by rewrite N.eqb_refl.
  - apply orb_false_iff in H as [Hx Ha]. rewrite N.eqb_sym, Hx.
    by rewrite (IH Ha).
Qed.

Lemma split_char_none (c : char) (a : str) :
  mem_char c a = false -> split_char c a = [a].
Proof.
  induction a as [|x a IH]; simpl; intros H; [done|].
  apply orb_false_iff in H as [Hx Ha]. rewrite N.eqb_sym, Hx.
  by rewrite (IH Ha).
Qed.

(** Joining parts that do not hold the separator, then splitting, gives the
    parts back. *)
Lemma split_char_join (c : char) (parts : list str) :
  parts <> [] ->
  Forall (fun part => mem_char c part = false) parts ->
  split_char c (join [c] parts) = parts.
Proof.
  intros Hne H. induction H as [|p ps Hp Hps IH]; [done|].
  destruct ps as [|q ps]; simpl.
  - by apply split_char_none.
  - change (p ++ c :: join [c] (q :: ps)) with (p ++ c :: join [c] (q :: ps)).
    rewrite split_char_app_sep by done. f_equal. apply IH. done.
Qed.

Local Abbreviation netloc_accepted :=
  (UrlLib.netloc_accepted bracketed_netloc_ok nfkc_netloc_ok).

Lemma clean_safe (s : list N) : forallb safe (clean s) = true.
Proof.
  unfold clean. induction s as [|x s IH]; simpl; [done|].
  destruct (negb (unsafe_url_byte x)) eqn:E; simpl; [|done].
  unfold safe at 1. by rewrite E.
Qed.

Lemma clean_id (s : list N) : forallb safe s = true -> clean s = s.
Proof.
  unfold clean. induction s as [|x s IH]; simpl; [done|].
  intros H. apply andb_true_iff in H as [Hx Hs]. unfold safe in Hx.
  rewrite Hx. by rewrite (IH Hs).
Qed.

(** What an accepted split tells about its parts *)
Lemma split_authority_parts (sch r s n u q f : list N) :
  split_authority sch r = Some (s, n, u, q, f) ->
  s = sch /\
  forallb (fun c => negb (is_netloc_delim c)) n = true /\
  netloc_accepted n = true /\
  starts_with_slash u /\
  mem_char 35%N u = false /\ mem_char 63%N u = false /\ mem_char 35%N q = false /\
  (forall P : N -> bool, forallb P r = true ->
     forallb P n = true /\ forallb P u = true /\ forallb P q = true /\
     forallb P f = true).
Proof.
  unfold UrlLib.split_authority, netloc_accepted.
  destruct (span_until is_netloc_delim r) as [n0 rest] eqn:Hspan.
  destruct (span_until_spec _ _ _ _ Hspan) as (Hr & Hn & Hrest).
  destruct (_ || _) eqn:Hb1; [discriminate|].
  destruct (_ && _ && negb _) eqn:Hb2; [discriminate|].
  destruct (split_first 35%N rest) as [u1 ofr] eqn:H35.
  assert (Hu1 : exists f0 x, (ofr = Some f0 \/ (ofr = None /\ f0 = [])) /\
                rest = u1 ++ x /\ mem_char 35%N u1 = false /\
                (forall P : N -> bool, forallb P rest = true ->
                   forallb P u1 = true /\ forallb P f0 = true)).
  { destruct ofr as [f0|].
    - apply split_first_Some in H35 as [-> Hm]. exists f0, (35%N :: f0).
      split; [by left|]. split; [done|]. split; [done|].
      intros P HP. rewrite forallb_app in HP. simpl in HP.
      apply andb_true_iff in HP as [? HP]. apply andb_true_iff in HP as [_ ?]. done.
    - apply split_first_None in H35 as [-> Hm]. exists [], [].
      split; [by right|]. split; [by rewrite app_nil_r|]. split; [done|].
      intros P HP. done. }
  destruct Hu1 as (f0 & x & Hof & Hrest_eq & Hm35 & HPu1).
  assert (Hlet1 : match ofr with Some f1 => (u1, f1) | None => (u1, []) end = (u1, f0)).
  { destruct Hof as [-> | [-> ->]]; reflexivity. }
  rewrite Hlet1. clear Hlet1.
  destruct (split_first 63%N u1) as [u2 oq] eqn:H63.
  assert (Hu2 : exists q0 y, (oq = Some q0 \/ (oq = None /\ q0 = [])) /\
                u1 = u2 ++ y /\ mem_char 63%N u2 = false /\
                (forall P : N -> bool, forallb P u1 = true ->
                   forallb P u2 = true /\ forallb P q0 = true)).
  { destruct oq as [q0|].
    - apply split_first_Some in H63 as [-> Hm]. exists q0, (63%N :: q0).
      split; [by left|]. split; [done|]. split; [done|].
      intros P HP. rewrite forallb_app in HP. simpl in HP.
      apply andb_true_iff in HP as [? HP]. apply andb_true_iff in HP as [_ ?]. done.
    - apply split_first_None in H63 as [-> Hm]. exists [], [].
      split; [by right|]. split; [by rewrite app_nil_r|]. split; [done|].
      intros P HP. done. }
  destruct Hu2 as (q0 & y & Hoq & Hu1_eq & Hm63 & HPu2).
  assert (Hlet2 : match oq with Some q1 => (u2, q1) | None => (u2, []) end = (u2, q0)).
  { destruct Hoq as [-> | [-> ->]]; reflexivity. }
  rewrite Hlet2. clear Hlet2.
  destruct (_checknetloc nfkc_netloc_ok n0) eqn:Hck; [|discriminate].
  intros [= <- <- <- <- <-].
  split; [done|]. split; [exact Hn|]. split; [by rewrite Hb1, Hb2, Hck|].
  assert (Hm35u : mem_char 35%N u2 = false).
  { rewrite Hu1_eq, mem_char_app in Hm35. by apply orb_false_iff in Hm35 as [? _]. }
  assert (Hm35q : mem_char 35%N q0 = false).
  { destruct Hoq as [-> | [-> ->]]; [|done].
    apply split_first_Some in H63 as [Hu1' _]. rewrite Hu1' in Hm35.
    rewrite mem_char_app, mem_char_cons in Hm35.
    apply orb_false_iff in Hm35 as [_ Hm35]. by apply orb_false_iff in Hm35 as [_ ?]. }
  split.
  { unfold starts_with_slash. destruct u2 as [|c u2]; [done|].
    rewrite Hrest_eq, Hu1_eq in Hrest. simpl in Hrest.
    rewrite mem_char_cons in Hm35u, Hm63.
    apply orb_false_iff in Hm35u as [H35c _]. apply orb_false_iff in Hm63 as [H63c _].
    unfold is_netloc_delim in Hrest. rewrite (N.eqb_sym c 63), (N.eqb_sym c 35) in Hrest.
    rewrite H35c, H63c in Hrest. rewrite !orb_false_r in Hrest.
    by apply N.eqb_eq in Hrest. }
  split; [exact Hm35u|]. split; [exact Hm63|]. split; [exact Hm35q|].
  intros P HP. rewrite Hr, forallb_app in HP. apply andb_true_iff in HP as [HPn HPrest].
  destruct (HPu1 P HPrest) as [HP1 HPf]. destruct (HPu2 P HP1) as [HP2 HPq]. done.
Qed.
Lemma netloc_accepted_conditions (n : list N) :
  netloc_accepted n = true ->
  (mem_char 91%N n && negb (mem_char 93%N n))
    || (mem_char 93%N n && negb (mem_char 91%N n)) = false /\
  mem_char 91%N n && mem_char 93%N n && negb (bracketed_netloc_ok n) = false /\
  _checknetloc nfkc_netloc_ok n = true.
Proof.
  unfold netloc_accepted. rewrite !andb_true_iff, !negb_true_iff. tauto.
Qed.

(** Splitting the parts put together again gives the parts back. *)
Lemma split_authority_rebuild (sch n url0 nq f : list N) :
  forallb (fun c => negb (is_netloc_delim c)) n = true ->
  netloc_accepted n = true ->
  starts_with_slash url0 ->
  mem_char 35%N url0 = false -> mem_char 63%N url0 = false ->
  mem_char 35%N nq = false ->
  split_authority sch (n ++ url0 ++ query_part nq ++ fragment_part f)
    = Some (sch, n, url0, nq, f).
Proof.
  intros Hn Hacc Hslash H35u H63u H35q.
  destruct (netloc_accepted_conditions n Hacc) as (Hb1 & Hb2 & Hck).
  unfold UrlLib.split_authority.
  rewrite (span_until_app is_netloc_delim n _ Hn).
  2:{ destruct url0 as [|c url0]; [|by simpl in *; subst c].
      simpl. unfold query_part, fragment_part.
      destruct nq as [|c nq]; [|reflexivity]. simpl. destruct f; [done|reflexivity]. }
  rewrite Hb1, Hb2, Hck.
  assert (H1 : split_first 35%N (url0 ++ query_part nq ++ fragment_part f)
               = (url0 ++ query_part nq, match f with [] => None | _ => Some f end)).
  { assert (Hm : mem_char 35%N (url0 ++ query_part nq) = false).
    { rewrite mem_char_app, H35u. unfold query_part.
      destruct nq as [|c nq]; [reflexivity|]. simpl negb. cbn [app py].
      change (mem_char 35%N (63%N :: c :: nq) = false).
      rewrite mem_char_cons. by rewrite H35q. }
    unfold fragment_part. destruct f as [|c f]; simpl negb; cbn [app].
    - rewrite !app_nil_r. by apply split_first_none.
    - rewrite app_assoc. change (py "#" ++ c :: f) with (35%N :: c :: f).
      by apply split_first_app. }
  rewrite H1.
  assert (H2 : split_first 63%N (url0 ++ query_part nq)
               = (url0, match nq with [] => None | _ => Some nq end)).
  { unfold query_part. destruct nq as [|c nq]; simpl negb; cbn [app].
    - rewrite app_nil_r. by apply split_first_none.
    - change (py "?" ++ c :: nq) with (63%N :: c :: nq). by apply split_first_app. }
  destruct f as [|cf f]; rewrite H2; destruct nq as [|cq nq]; reflexivity.
Qed.

Lemma urlparse_of_split (y sch n u q f : list N) :
  urlsplit y = Some (sch, n, u, q, f) ->
  in_list sch uses_params = true ->
  urlparse y = Some (mkParse sch n (param_split u).1 (param_split u).2 q f).
Proof.
  intros Hs Hin. unfold UrlLib.urlparse. rewrite Hs, Hin. unfold param_split.
  cbn [andb]. destruct (mem_char 59%N u); [|reflexivity].
  destruct (_splitparams u); reflexivity.
Qed.

Lemma forallb_prefix (P : N -> bool) (a b : list N) :
  forallb P (a ++ b) = true -> forallb P a = true.
Proof. rewrite forallb_app, andb_true_iff. tauto. Qed.

Lemma mem_char_prefix (c : N) (a b : list N) :
  mem_char c (a ++ b) = false -> mem_char c a = false.
Proof. rewrite mem_char_app, orb_false_iff. tauto. Qed.

(** What [urlunparse] builds when the netloc is not empty *)
Lemma urlunparse_with_netloc (sch n p par nq f : list N) :
  sch <> [] -> n <> [] -> starts_with_slash (param_join p par) ->
  urlunparse (mkParse sch n p par nq f)
    = sch ++ py "://" ++ n ++ param_join p par ++ query_part nq ++ fragment_part f.
Proof.
  intros Hsch Hn Hslash. unfold urlunparse, urlunsplit. cbn [scheme netloc path params query fragment].
  fold (param_join p par).
  assert (E1 : negb (str_eqb n []) = true) by (by destruct n).
  assert (E2 : negb (str_eqb sch []) = true) by (by destruct sch).
  rewrite E1, E2. cbn [orb].
  assert (E3 : match param_join p par with
               | [] => param_join p par
               | c :: _ => if N.eqb c 47 then param_join p par else 47%N :: param_join p par
               end = param_join p par).
  { destruct (param_join p par) as [|c l]; [done|]. simpl in Hslash. by subst c. }
  rewrite E3. unfold query_part, fragment_part.
  destruct (negb (str_eqb nq [])), (negb (str_eqb f []));
    rewrite <- ?app_assoc; cbn [app py]; rewrite ?app_nil_r; reflexivity.
Qed.

(** Parsing what [urlunparse] makes of a parsed URL with a host and another
    query gives the same parts with that query. *)
Lemma urlparse_urlunparse (x : list N) (parsed : ParseResult) (nq : list N) :
  (exists r, x = py "http://" ++ r \/ x = py "https://" ++ r) ->
  urlparse x = Some parsed ->
  netloc parsed <> [] ->
  mem_char 35%N nq = false -> forallb safe nq = true ->
  urlparse (urlunparse (mkParse (scheme parsed) (netloc parsed) (path parsed)
                                (params parsed) nq (fragment parsed)))
    = Some (mkParse (scheme parsed) (netloc parsed) (path parsed)
                    (params parsed) nq (fragment parsed)).
Proof.
  intros [r Hx] Hp Hnl H35q Hsafeq.
  assert (Hsplit : exists sch, (sch = py "http" \/ sch = py "https") /\
            urlsplit x = split_authority sch (clean r) /\
            forall t, urlsplit (sch ++ py "://" ++ t) = split_authority sch (clean t)).
  { destruct Hx as [-> | ->]; [exists (py "http") | exists (py "https")];
      (split; [auto|]); split; try reflexivity; intros t; reflexivity. }
  destruct Hsplit as (sch & Hsch & Hsx & Hst).
  assert (Hin : in_list sch uses_params = true) by (destruct Hsch as [-> | ->]; reflexivity).
  assert (Hne : sch <> []) by (destruct Hsch as [-> | ->]; discriminate).
  destruct (split_authority sch (clean r)) as [[[[[s n] u] q] f]|] eqn:Hsa.
  2:{ unfold UrlLib.urlparse in Hp. rewrite Hsx in Hp. discriminate. }
  destruct (split_authority_parts _ _ _ _ _ _ _ Hsa)
    as (-> & Hn & Hacc & Hslash & H35u & H63u & _ & HP).
  destruct (HP safe (clean_safe r)) as (Hsn & Hsu & _ & Hsf).
  rewrite (urlparse_of_split x sch n u q f Hsx Hin) in Hp. injection Hp as <-.
  cbn [scheme netloc path params query fragment] in *.
  destruct (param_split_join u Hslash) as (Hps & [rest Hrest] & Hjslash).
  set (url0 := param_join (param_split u).1 (param_split u).2) in *.
  rewrite (urlunparse_with_netloc sch n _ _ nq f Hne Hnl Hjslash). fold url0.
  assert (Hclean : clean (n ++ url0 ++ query_part nq ++ fragment_part f)
                   = n ++ url0 ++ query_part nq ++ fragment_part f).
  { apply clean_id. rewrite !forallb_app. rewrite Hsn.
    rewrite Hrest in Hsu. rewrite (forallb_prefix _ _ _ Hsu).
    unfold query_part, fragment_part.
    destruct (negb (str_eqb nq [])), (negb (str_eqb f [])); simpl;
      rewrite ?Hsafeq, ?Hsf; reflexivity. }
  assert (Hsplit2 : urlsplit (sch ++ py "://" ++ n ++ url0 ++ query_part nq ++ fragment_part f)
                    = Some (sch, n, url0, nq, f)).
  { rewrite Hst, Hclean. apply split_authority_rebuild; try done.
    - rewrite Hrest in H35u. by apply mem_char_prefix in H35u.
    - rewrite Hrest in H63u. by apply mem_char_prefix in H63u. }
  rewrite (urlparse_of_split _ sch n url0 nq f Hsplit2 Hin).
  subst url0. rewrite Hps. reflexivity.
Qed.

Lemma mem_char_forallb (c : N) (s : list N) :
  mem_char c s = false <-> forallb (fun x => negb (N.eqb c x)) s = true.
Proof.
  induction s as [|x s IH]; simpl; [done|].
  rewrite orb_false_iff, andb_true_iff, negb_true_iff, IH. done.
Qed.

Lemma split_char_forallb (P : N -> bool) (c : N) (s : list N) :
  forallb P s = true -> Forall (fun w => forallb P w = true) (split_char c s).
Proof.
  induction s as [|x s IH]; simpl; intros H.
  - by repeat constructor.
  - apply andb_true_iff in H as [Hx Hs]. specialize (IH Hs).
    destruct (N.eqb x c).
    + by constructor.
    + destruct (split_char c s) as [|w ws]; [by repeat constructor; simpl; rewrite Hx|].
      inversion IH; subst. constructor; [|done]. simpl. by rewrite Hx.
Qed.

Lemma join_forallb (P : N -> bool) (sep : list N) (parts : list (list N)) :
  forallb P sep = true ->
  Forall (fun w => forallb P w = true) parts ->
  forallb P (join sep parts) = true.
Proof.
  intros Hsep H. induction H as [|p ps Hp Hps IH]; [done|].
  destruct ps as [|p' ps]; [done|].
  change (join sep (p :: p' :: ps)) with (p ++ sep ++ join sep (p' :: ps)).
  rewrite !forallb_app, Hp, Hsep, IH. done.
Qed.

(** The new query of [_normalize_url] is made of characters of the old. *)
Lemma new_query_forallb (P : N -> bool) (q : list N) :
  P 38%N = true -> forallb P q = true ->
  forallb P (join (py "&") (List.filter keep_param (split_char 38%N q))) = true.
Proof.
  intros H38 Hq. apply join_forallb; [change (py "&") with [38%N]; cbn [forallb]; by rewrite H38|].
  apply Forall_forall. intros w Hw. apply list_elem_of_In, filter_In in Hw as [Hw _].
  pose proof (split_char_forallb P 38%N q Hq) as H. rewrite Forall_forall in H.
  apply H. by apply list_elem_of_In.
Qed.

Lemma urlparse_query_facts (x : list N) (parsed : ParseResult) :
  (exists r, x = py "http://" ++ r \/ x = py "https://" ++ r) ->
  urlparse x = Some parsed ->
  mem_char 35%N (query parsed) = false /\ forallb safe (query parsed) = true.
Proof.
  intros [r Hx] Hp.
  assert (Hsplit : exists sch, in_list sch uses_params = true /\
            urlsplit x = split_authority sch (clean r)).
  { destruct Hx as [-> | ->]; [exists (py "http") | exists (py "https")];
      split; reflexivity. }
  destruct Hsplit as (sch & Hin & Hsx).
  destruct (split_authority sch (clean r)) as [[[[[s n] u] q] f]|] eqn:Hsa.
  2:{ unfold UrlLib.urlparse in Hp. rewrite Hsx in Hp. discriminate. }
  destruct (split_authority_parts _ _ _ _ _ _ _ Hsa)
    as (-> & _ & _ & _ & _ & _ & H35q & HP).
  destruct (HP safe (clean_safe r)) as (_ & _ & Hsq & _).
  rewrite (urlparse_of_split x sch n u q f Hsx Hin) in Hp. injection Hp as <-.
  done.
Qed.

Lemma keep_param_not_tracking (param : str) :
  keep_param param = true ->
  startswith_any (lower param) tracking_prefixes = false.
Proof.
  unfold keep_param. rewrite andb_true_iff, !negb_true_iff. tauto.
Qed.

(** The query that [_normalize_url] hands to [urlunparse] *)
Lemma kept_query_params (q : str) :
  let new_query := join (py "&") (List.filter keep_param (split_char 38%N q)) in
  Forall (fun param => startswith_any (lower param) tracking_prefixes = false
                       /\ (new_query <> [] -> In param (split_char 38%N q)))
         (split_char 38%N new_query).
Proof.
  intros new_query. subst new_query.
  assert (Hparts : Forall (fun part => mem_char 38%N part = false)
                     (List.filter keep_param (split_char 38%N q))).
  { apply Forall_forall. intros x Hx. apply list_elem_of_In, filter_In in Hx as [Hx _].
    pose proof (split_char_parts 38%N q) as H. rewrite Forall_forall in H.
    apply H. by apply list_elem_of_In. }
  destruct (List.filter keep_param (split_char 38%N q)) as [|p ps] eqn:E.
  - simpl. constructor; [|constructor]. split; [reflexivity | congruence].
  - change (py "&") with [38%N]. rewrite split_char_join; [|done|done].
    apply Forall_forall. intros x Hx. apply list_elem_of_In in Hx.
    rewrite <- E in Hx. apply filter_In in Hx as [Hin Hk].
    split; [by apply keep_param_not_tracking | done].
Qed.

(** C10 (amended).  Whenever [urlparse] accepts the string that
    [_normalize_url] hands it (the stripped input, with [https://] in front
    unless it begins with [http://] or [https://]), the function returns the
    URL assembled by [urlunparse] from the scheme, netloc, path, params and
    fragment that [urlparse] found and a new query; the result begins with
    [http://] or [https://]; and no [&]-separated parameter of the new query
    begins, in lower case, with [utm_], [gclid] or [fbclid]: the parameters
    kept are parameters of the input.  When the netloc is not empty, parsing
    the result gives back that scheme, netloc, path, params and fragment,
    and the new query. *)
Theorem normalize_url_spec (url : str) (parsed : ParseResult) :
  urlparse (with_protocol url) = Some parsed ->
  exists new_query out,
    _normalize_url url = Some out /\
    out = urlunparse (mkParse (scheme parsed) (netloc parsed) (path parsed)
                              (params parsed) new_query (fragment parsed)) /\
    (scheme parsed = py "http" \/ scheme parsed = py "https") /\
    (startswith out (py "http://") = true \/ startswith out (py "https://") = true) /\
    Forall (fun param => startswith_any (lower param) tracking_prefixes = false
                         /\ (new_query <> [] -> In param (split_char 38%N (query parsed))))
           (split_char 38%N new_query) /\
    (netloc parsed <> [] ->
     urlparse out = Some (mkParse (scheme parsed) (netloc parsed) (path parsed)
                                  (params parsed) new_query (fragment parsed))).
Proof.
  intros Hp.
  pose proof (urlparse_with_protocol_scheme url parsed Hp) as Hs.
  exists (join (py "&") (List.filter keep_param (split_char 38%N (query parsed)))).
  eexists. split; [|split; [reflexivity|]].
  - unfold _normalize_url. rewrite Hp.
    destruct (List.filter keep_param _) as [|p ps]; reflexivity.
  - split; [exact Hs|]. split; [|split].
    + apply urlunparse_begins. exact Hs.
    + apply kept_query_params.
    + intros Hnl.
      destruct (urlparse_query_facts _ _ (with_protocol_cases url) Hp) as [H35 Hsafe].
      apply (urlparse_urlunparse _ _ _ (with_protocol_cases url) Hp Hnl).
      * apply mem_char_forallb. apply new_query_forallb; [reflexivity|].
        by apply mem_char_forallb.
      * apply new_query_forallb; [reflexivity | exact Hsafe].
Qed.

End NormalizeFacts.

(** C10 as stated fails: on the non-empty input ['http://['] the function
    returns nothing, [urlparse] raising [ValueError] (a netloc with an
    opening bracket and no closing one). *)
Lemma normalize_url_raises_counterexample :
  py "http://[" <> [] /\
  ~ exists out, _normalize_url accept_all accept_all (py "http://[") = Some out.
Proof.
  split; [discriminate|]. intros [out H]. vm_compute in H. discriminate.
Qed.

(** The parts are not always kept when the netloc is empty: [urlunsplit]
    drops the empty netloc in front of a path that begins with two
    slashes, and the first segment of the path becomes the host. *)
Lemma normalize_url_empty_netloc_example :
  _normalize_url accept_all accept_all (py "https:////x") = Some (py "https://x") /\
  host_of accept_all accept_all (py "https:////x") = Some [] /\
  host_of accept_all accept_all (py "https://x") = Some (py "x").
Proof. repeat split; vm_compute; reflexivity. Qed.

Lemma normalize_url_spec_witness :
  let url := py "example.com/a?utm_source=x&b=1&GCLID=3#frag" in
  let parsed := mkParse (py "https") (py "example.com") (py "/a") []
                        (py "utm_source=x&b=1&GCLID=3") (py "frag") in
  urlparse accept_all accept_all (with_protocol url) = Some parsed /\
  _normalize_url accept_all accept_all url = Some (py "https://example.com/a?b=1#frag") /\
  exists new_query out,
    _normalize_url accept_all accept_all url = Some out /\
    out = urlunparse (mkParse (scheme parsed) (netloc parsed) (path parsed)
                              (params parsed) new_query (fragment parsed)) /\
    (scheme parsed = py "http" \/ scheme parsed = py "https") /\
    (startswith out (py "http://") = true \/ startswith out (py "https://") = true) /\
    Forall (fun param => startswith_any (lower param) tracking_prefixes = false
                         /\ (new_query <> [] -> In param (split_char 38%N (query parsed))))
           (split_char 38%N new_query) /\
    (netloc parsed <> [] ->
     urlparse accept_all accept_all out
       = Some (mkParse (scheme parsed) (netloc parsed) (path parsed)
                       (params parsed) new_query (fragment parsed))).
Proof.
  intros url parsed.
  assert (H : urlparse accept_all accept_all (with_protocol url) = Some parsed)
    by (vm_compute; reflexivity).
  split; [exact H|]. split; [vm_compute; reflexivity|].
  exact (normalize_url_spec accept_all accept_all url parsed H).
Defined.

(** ** The validator: what every step leaves unchanged *)

Lemma grows_refl (w : World) : grows w w.
Proof. split; [done | by exists []]. Qed.

Lemma grows_trans (w1 w2 w3 : World) : grows w1 w2 -> grows w2 w3 -> grows w1 w3.
Proof.
  intros [Hh1 [e1 He1]] [Hh2 [e2 He2]]. split; [congruence|].
  exists (e2 ++ e1). rewrite He2, He1. by rewrite app_assoc.
Qed.

Lemma grows_log (e : event) (w : World) : grows w (log_event e w).
Proof. split; [done | by exists [e]]. Qed.

Lemma framed_ret {A} (a : A) : framed (ret a).
Proof. intros w r w' [= <- <-]. apply grows_refl. Qed.

Lemma framed_raise {A} (e : exn) : framed (@raise A e).
Proof. intros w r w' [= <- <-]. apply grows_refl. Qed.

Lemma framed_bind {A B} (m : M A) (k : A -> M B) :
  framed m -> (forall a, framed (k a)) -> framed (bind m k).
Proof.
  intros Hm Hk w r w' H. unfold bind in H.
  destruct (m w) as [[a|e] w1] eqn:E.
  - eapply grows_trans; [eapply Hm, E | eapply Hk, H].
  - injection H as <- <-. eapply Hm, E.
Qed.

Lemma framed_catch {A} (m : M A) (h : exn -> M A) :
  framed m -> (forall e, framed (h e)) -> framed (catch m h).
Proof.
  intros Hm Hh w r w' H. unfold catch in H.
  destruct (m w) as [[a|e] w1] eqn:E.
  - injection H as <- <-. eapply Hm, E.
  - eapply grows_trans; [eapply Hm, E | eapply Hh, H].
Qed.

Lemma framed_set_status_cache (u : str) (entry : bool * str * Z) :
  framed (set_status_cache u entry).
Proof. intros w r w' [= <- <-]. split; [done | by exists []]. Qed.

Lemma framed_set_authority_cache (k : str) (entry : option (str * str) * Z) :
  framed (set_authority_cache k entry).
Proof. intros w r w' [= <- <-]. split; [done | by exists []]. Qed.

Lemma framed_get_status_cache (u : str) : framed (get_status_cache u).
Proof. intros w r w' [= <- <-]. apply grows_refl. Qed.

Lemma framed_get_authority_cache (k : str) : framed (get_authority_cache k).
Proof. intros w r w' [= <- <-]. apply grows_refl. Qed.

Lemma framed_deref (r : nat) : framed (deref r).
Proof. intros w x w' [= <- <-]. apply grows_refl. Qed.

Create HintDb framed discriminated.
#[export] Hint Resolve framed_ret framed_raise framed_set_status_cache
  framed_set_authority_cache framed_get_status_cache framed_get_authority_cache
  framed_deref : framed.

(** One step of a proof that a function is framed: split at a bind or a
    handler, or take the scrutinee of a match apart. *)
Ltac framed_step :=
  match goal with
  | |- framed (bind _ _) => apply framed_bind; [|intros ?]
  | |- framed (catch _ _) => apply framed_catch; [|intros ?]
  | |- framed (match ?x with _ => _ end) => destruct x
  | |- framed (let '(_, _) := ?x in _) => destruct x
  | |- framed _ => solve [auto with framed]
  end.
Ltac framed_auto := repeat framed_step.

Section FrameFacts.

Variable bracketed_netloc_ok : str -> bool.
Variable nfkc_netloc_ok : str -> bool.
Variable time_time : nat -> Z.
Variable http_head : nat -> str -> result (Z * str).
Variable http_get : nat -> str -> result (Z * str).
Variable generate_content : nat -> gemini_request -> result str.
Variable json_loads : str -> option (list (str * json)).
Variable company_url : str.
Variable competitors : list str.

Local Abbreviation _normalize_url := (_normalize_url bracketed_netloc_ok nfkc_netloc_ok).
Local Abbreviation _should_filter_url :=
  (_should_filter_url bracketed_netloc_ok nfkc_netloc_ok).
Local Abbreviation _check_url_status := (_check_url_status time_time http_head http_get).
Local Abbreviation _find_specific_page_url :=
  (_find_specific_page_url bracketed_netloc_ok nfkc_netloc_ok generate_content json_loads).
Local Abbreviation try_authority_urls :=
  (try_authority_urls bracketed_netloc_ok nfkc_netloc_ok time_time http_head http_get
     company_url competitors).
Local Abbreviation _try_authority_fallback :=
  (_try_authority_fallback bracketed_netloc_ok nfkc_netloc_ok time_time http_head http_get
     company_url competitors).
Local Abbreviation read_structured :=
  (read_structured bracketed_netloc_ok nfkc_netloc_ok time_time http_head http_get
     json_loads company_url competitors).
Local Abbreviation scan_candidates :=
  (scan_candidates bracketed_netloc_ok nfkc_netloc_ok time_time http_head http_get
     json_loads company_url competitors).
Local Abbreviation after_response :=
  (after_response bracketed_netloc_ok nfkc_netloc_ok time_time http_head http_get
     json_loads company_url competitors).
Local Abbreviation _find_alternative_url :=
  (_find_alternative_url bracketed_netloc_ok nfkc_netloc_ok time_time http_head http_get
     generate_content json_loads company_url competitors).
Local Abbreviation validate_citation_url :=
  (validate_citation_url bracketed_netloc_ok nfkc_netloc_ok time_time http_head http_get
     generate_content json_loads company_url competitors).
Local Abbreviation validate_single_citation :=
  (validate_single_citation bracketed_netloc_ok nfkc_netloc_ok time_time http_head
     http_get generate_content json_loads company_url competitors).
Local Abbreviation validate_all_citations :=
  (validate_all_citations bracketed_netloc_ok nfkc_netloc_ok time_time http_head
     http_get generate_content json_loads).
Local Abbreviation alternative_request := (alternative_request company_url competitors).
Local Abbreviation passed_checks :=
  (passed_checks bracketed_netloc_ok nfkc_netloc_ok time_time http_head http_get
     company_url competitors).

Lemma framed_now : framed (now time_time).
Proof. intros w r w' [= <- <-]. apply grows_log. Qed.

Lemma framed_head (u : str) : framed (head http_head u).
Proof. intros w r w' [= <- <-]. apply grows_log. Qed.

Lemma framed_get (u : str) : framed (get http_get u).
Proof. intros w r w' [= <- <-]. apply grows_log. Qed.

Lemma framed_ask_gemini (req : gemini_request) : framed (ask_gemini generate_content req).
Proof. intros w r w' [= <- <-]. apply grows_log. Qed.

Hint Resolve framed_now framed_head framed_get framed_ask_gemini : framed.

Lemma framed_follow_redirect (u f : str) (t : Z) : framed (follow_redirect http_get u f t).
Proof. unfold follow_redirect. framed_auto. Qed.

Lemma framed_classify (u : str) (t : Z) (response : Z * str) :
  framed (classify http_get u t response).
Proof. unfold classify. pose proof framed_follow_redirect. framed_auto. Qed.

Lemma framed_probe (u : str) (t : Z) : framed (probe http_head http_get u t).
Proof. unfold probe. pose proof framed_classify. framed_auto. Qed.

Lemma framed_check_url_status (u : str) : framed (_check_url_status u).
Proof.
  unfold _check_url_status. framed_auto; apply framed_probe.
Qed.

Hint Resolve framed_check_url_status : framed.

Lemma framed_find_specific_page_url (t : json) (u : str) :
  framed (_find_specific_page_url t u).
Proof. unfold _find_specific_page_url. framed_auto. Qed.

Lemma framed_try_authority_urls (q : str) (cands : list (str * str)) :
  framed (try_authority_urls q cands).
Proof.
  induction cands as [|[b s] cands IH]; simpl; [auto with framed|].
  framed_auto; exact IH.
Qed.

Lemma framed_try_authority_fallback (q : str) : framed (_try_authority_fallback q).
Proof.
  unfold _try_authority_fallback. pose proof framed_try_authority_urls.
  framed_auto.
Qed.

Lemma framed_read_structured (t : json) (text : str) : framed (read_structured t text).
Proof. unfold read_structured, get_or_none. framed_auto. Qed.

Lemma framed_scan_candidates (t : json) (text : str) (urls : list json) :
  framed (scan_candidates t text urls).
Proof.
  induction urls as [|v urls IH]; simpl; [auto with framed|].
  framed_auto; exact IH.
Qed.

Lemma framed_after_response (t : json) (text : str) : framed (after_response t text).
Proof.
  unfold after_response. pose proof framed_read_structured.
  pose proof framed_scan_candidates. framed_auto.
Qed.

Lemma framed_find_alternative_url (t : json) : framed (_find_alternative_url t).
Proof.
  unfold _find_alternative_url. pose proof framed_try_authority_fallback.
  pose proof framed_after_response. framed_auto.
Qed.

Lemma framed_validate_citation_url (u : str) (t : json) :
  framed (validate_citation_url u t).
Proof.
  unfold validate_citation_url. pose proof framed_find_specific_page_url.
  pose proof framed_find_alternative_url. framed_auto.
Qed.

(** *** The unit of work *)

(** What [validate_single_citation] does, by the outcome of
    [validate_citation_url]: the object is returned in both cases; it is
    written only when the validation returned. *)
Lemma validate_single_citation_spec (citation : nat) (w : World) :
  match validate_citation_url (url (heap w citation)) (title (heap w citation)) w with
  | (Ok (is_valid, final_url, final_title), w1) =>
      exists w',
        validate_single_citation citation w = (Ok citation, w') /\
        status_cache w' = status_cache w1 /\
        authority_cache w' = authority_cache w1 /\
        history w' = history w1 /\
        forall r, heap w' r =
                  if Nat.eqb r citation
                  then mkCitation (number (heap w citation)) final_url final_title
                  else heap w r
  | (Raise e, w1) =>
      validate_single_citation citation w = (Ok citation, w1) /\ heap w1 = heap w
  end.
Proof.
  destruct (validate_citation_url _ _ w) as [[[[v u] t]|e] w1] eqn:E.
  - pose proof (framed_validate_citation_url _ _ _ _ _ E) as [Hh _].
    unfold validate_single_citation, catch, bind, deref. rewrite E.
    unfold assign_url, assign_title, ret, heap_set. cbn.
    eexists. split; [reflexivity|]. cbn. split_and!; try reflexivity.
    intros r. rewrite Nat.eqb_refl, Hh.
    destruct (Nat.eqb r citation); reflexivity.
  - pose proof (framed_validate_citation_url _ _ _ _ _ E) as [Hh _].
    split; [|exact Hh].
    unfold validate_single_citation, catch, bind, deref. rewrite E. reflexivity.
Qed.

Lemma validate_single_citation_returns (citation : nat) (w : World) :
  exists w', validate_single_citation citation w = (Ok citation, w') /\
             forall r, number (heap w' r) = number (heap w r).
Proof.
  pose proof (validate_single_citation_spec citation w) as H.
  destruct (validate_citation_url _ _ w) as [[[[v u] t]|e] w1].
  - destruct H as (w' & H & _ & _ & _ & Hh). exists w'. split; [exact H|].
    intros r. rewrite Hh. destruct (Nat.eqb r citation) eqn:E; [|done].
    apply Nat.eqb_eq in E. by subst.
  - destruct H as [H Hh]. exists w1. split; [exact H|]. intros r. by rewrite Hh.
Qed.

(** *** [gather] and the batch *)

Lemma gather_run_spec (citations : list nat) (schedule : list nat) :
  forall (slots : list (option (result nat))) (w : World),
  exists slots' w',
    gather_run (List.map validate_single_citation citations) schedule slots w
      = (slots', w') /\
    length slots' = length slots /\
    (forall r, number (heap w' r) = number (heap w r)) /\
    (forall i, slots' !! i =
       if bool_decide (i ∈ schedule /\ i < length citations /\ i < length slots)
       then (fun c => Some (Ok c)) <$> citations !! i
       else slots !! i).
Proof.
  induction schedule as [|j schedule IH]; intros slots w; simpl.
  - exists slots, w. repeat split; try done.
  - rewrite list_lookup_fmap.
    destruct (citations !! j) as [c|] eqn:Hj; simpl.
    + destruct (validate_single_citation_returns c w) as (w1 & Hrun & Hnum).
      rewrite Hrun.
      destruct (IH (<[j := Some (Ok c)]> slots) w1) as (slots' & w' & Hg & Hlen & Hn & Hs).
      exists slots', w'. split; [exact Hg|]. split; [by rewrite Hlen, length_insert|].
      split; [intros r; by rewrite Hn, Hnum|].
      intros i. rewrite Hs. rewrite length_insert.
      apply lookup_lt_Some in Hj as Hjlt.
      destruct (decide (i ∈ schedule /\ i < length citations /\ i < length slots))
        as [Hin|Hnin].
      * rewrite bool_decide_eq_true_2 by done.
        rewrite bool_decide_eq_true_2; [done|].
        destruct Hin as (? & ? & ?). split; [by apply elem_of_cons; right|done].
      * rewrite (bool_decide_eq_false_2 _ Hnin).
        destruct (decide (i = j)) as [->|Hij].
        -- destruct (decide (j < length slots)) as [Hlt|Hge].
           ++ rewrite list_lookup_insert_eq by done.
              rewrite bool_decide_eq_true_2; [by rewrite Hj|].
              split; [by apply elem_of_cons; left|done].
           ++ rewrite list_insert_ge by lia.
              rewrite bool_decide_eq_false_2; [done|]. intros (_ & _ & ?). lia.
        -- rewrite list_lookup_insert_ne by done.
           rewrite bool_decide_eq_false_2; [done|].
           intros (Hin & ? & ?). apply Hnin. split; [|done].
           apply elem_of_cons in Hin as [?|?]; [congruence|done].
    + destruct (IH slots w) as (slots' & w' & Hg & Hlen & Hn & Hs).
      exists slots', w'. split; [exact Hg|]. split; [exact Hlen|]. split; [exact Hn|].
      intros i. rewrite Hs. apply lookup_ge_None in Hj.
      destruct (decide (i ∈ schedule /\ i < length citations /\ i < length slots))
        as [Hin|Hnin].
      * rewrite !bool_decide_eq_true_2; try done.
        destruct Hin as (? & ? & ?). split; [by apply elem_of_cons; right|done].
      * rewrite (bool_decide_eq_false_2 _ Hnin).
        rewrite bool_decide_eq_false_2; [done|].
        intros (Hin & ? & ?). apply Hnin. split; [|done].
        apply elem_of_cons in Hin as [->|?]; [lia|done].
Qed.

Lemma all_filled_fmap {A} (l : list A) :
  all_filled (Some <$> l) = Some l.
Proof. induction l as [|a l IH]; csimpl; [done|]. by rewrite IH. Qed.

Lemma collect_all_ok (citations l : list nat) (i : nat) :
  collect citations i (Ok <$> l) = inr l.
Proof.
  revert i. induction l as [|c l IH]; intros i; csimpl; [done|]. by rewrite IH.
Qed.

(** The batch, for a schedule in which every unit finishes once *)
Lemma validate_all_citations_spec (citations schedule : list nat) (w : World) :
  Permutation schedule (seq 0 (length citations)) ->
  exists w',
    validate_all_citations citations company_url competitors schedule w
      = Some (inr citations, w') /\
    forall r, number (heap w' r) = number (heap w r).
Proof.
  intros Hperm. unfold validate_all_citations.
  destruct citations as [|c0 cs] eqn:Hc; [by exists w|]. rewrite <- Hc in *.
  unfold asyncio_gather. rewrite length_map.
  destruct (gather_run_spec citations schedule (replicate (length citations) None) w)
    as (slots' & w' & Hg & Hlen & Hn & Hs).
  rewrite Hg. rewrite length_replicate in Hlen.
  assert (Hslots : slots' = Some <$> (Ok <$> citations)).
  { apply list_eq. intros i. rewrite Hs, !list_lookup_fmap.
    rewrite length_replicate.
    destruct (decide (i < length citations)) as [Hlt|Hge].
    - rewrite bool_decide_eq_true_2.
      + destruct (citations !! i); done.
      + split; [|done]. rewrite Hperm. apply elem_of_seq. lia.
    - rewrite bool_decide_eq_false_2 by (intros (_ & ? & _); lia).
      assert (H1 : replicate (length citations) (@None (result nat)) !! i = None)
        by (apply lookup_replicate_None; lia).
      assert (H2 : citations !! i = None) by (apply lookup_ge_None; lia).
      rewrite H1, H2. done. }
  rewrite Hslots, all_filled_fmap, collect_all_ok. exists w'. done.
Qed.

(** *** The URL status resolver *)

Lemma follow_redirect_returns (u f : str) (t : Z) (w : World) :
  (exists r w', follow_redirect http_get u f t w = (Ok r, w')) \/
  (exists e w', follow_redirect http_get u f t w = (Raise e, w') /\ e <> TimeoutError).
Proof.
  unfold follow_redirect, catch, bind, get.
  destruct (http_get (length (history w)) f) as [[st fr]|e]; cbn.
  - left. destruct (_ && _); cbn; eauto.
  - destruct e; cbn; eauto; right; eexists _, _; (split; [reflexivity|discriminate]).
Qed.

(** [_check_url_status] never raises. *)
Lemma check_url_status_returns (url : str) (w : World) :
  exists r w', _check_url_status url w = (Ok r, w').
Proof.
  assert (Hprobe : forall t w0, exists r w', probe http_head http_get url t w0 = (Ok r, w')).
  { intros t w0. unfold probe, catch, bind.
    destruct (head http_head url w0) as [[resp|e] w1]; [|cbn; eauto].
    destruct (classify http_get url t resp w1) as [[r|e] w2]; cbn; eauto. }
  unfold _check_url_status, bind, now, get_status_cache. cbn.
  destruct (status_cache w !! url) as [[[v f] ts]|]; [|apply Hprobe].
  destruct (_ <? _)%Z; [cbn; eauto | apply Hprobe].
Qed.

(** A fresh entry answers the call: only the clock is read. *)
Lemma check_url_status_hit (url : str) (w : World) (is_valid : bool) (final_url : str)
    (timestamp : Z) :
  status_cache w !! url = Some (is_valid, final_url, timestamp) ->
  (time_time (length (history w)) - timestamp
   < if is_valid then _CACHE_TTL else _FAILED_URL_TTL)%Z ->
  _check_url_status url w = (Ok (is_valid, final_url), log_event EvTime w).
Proof.
  intros Hc Ht. unfold _check_url_status, bind, now, get_status_cache. cbn.
  rewrite Hc. apply Z.ltb_lt in Ht. rewrite Ht. reflexivity.
Qed.

(** Without an entry the call goes to the network: the clock is read, then
    a [head] request is made. *)
Lemma check_url_status_miss (url : str) (w : World) :
  status_cache w !! url = None ->
  exists r w' evs,
    _check_url_status url w = (r, w') /\
    history w' = evs ++ EvHead url :: EvTime :: history w.
Proof.
  intros Hc. unfold _check_url_status, bind, now, get_status_cache. cbn.
  rewrite Hc. unfold probe, catch, bind, head. cbn.
  destruct (http_head _ url) as [resp|e]; cbn.
  - destruct (classify http_get url _ resp _) as [[r|e] w2] eqn:E;
      apply framed_classify in E as [_ [evs Hevs]]; cbn in Hevs;
      eexists _, _, evs; (split; [reflexivity|]); exact Hevs.
  - eexists _, _, []. split; reflexivity.
Qed.

(** An answer to [head] that is not a redirect is written to the cache,
    whatever its status. *)
Lemma check_url_status_response_cached (url : str) (w : World) (status_code : Z)
    (final_url : str) :
  status_cache w !! url = None ->
  http_head (S (length (history w))) url = Ok (status_code, final_url) ->
  is_redirect status_code = false ->
  exists is_valid w',
    _check_url_status url w = (Ok (is_valid, final_url), w') /\
    status_cache w' !! url
      = Some (is_valid, final_url, time_time (length (history w))).
Proof.
  intros Hc Hh Hr. unfold _check_url_status, bind, now, get_status_cache.
  cbn -[classify is_redirect].
  rewrite Hc. unfold probe, catch, bind, head. cbn -[classify is_redirect].
  rewrite Hh. unfold classify. rewrite Hr.
  destruct (Z.eqb status_code 200); [destruct (_is_error_page_url final_url)|
    destruct (Z.eqb status_code 404)]; cbn;
    eexists _, _; (split; [reflexivity|]); cbn; apply lookup_insert_eq.
Qed.

(** C3.  When the [head] request raises (a timeout, a refused connection,
    any transport failure), [_check_url_status] answers [(False, url)] and
    leaves [_URL_STATUS_CACHE] as it was; a second call for the same URL
    finds no entry and makes a [head] request again. *)
Theorem transport_failure_not_cached (url : str) (w : World) (e : exn) :
  status_cache w !! url = None ->
  http_head (S (length (history w))) url = Raise e ->
  exists w1,
    _check_url_status url w = (Ok (false, url), w1) /\
    status_cache w1 = status_cache w /\
    history w1 = EvHead url :: EvTime :: history w /\
    exists r2 w2 evs,
      _check_url_status url w1 = (r2, w2) /\
      history w2 = evs ++ EvHead url :: EvTime :: history w1.
Proof.
  intros Hc Hh.
  assert (H1 : _check_url_status url w
               = (Ok (false, url), log_event (EvHead url) (log_event EvTime w))).
  { unfold _check_url_status, bind, now, get_status_cache. cbn.
    rewrite Hc. unfold probe, catch, bind, head. cbn. rewrite Hh. reflexivity. }
  eexists. split; [exact H1|]. split; [reflexivity|]. split; [reflexivity|].
  apply check_url_status_miss. exact Hc.
Qed.

(** *** The alternative discovery engine *)

(** The assistant is asked first, whatever the caches hold. *)
Lemma find_alternative_asks_gemini (title_text : str) (w : World) :
  exists r w' evs,
    _find_alternative_url (JStr title_text) w = (r, w') /\
    history w' = evs ++ EvGemini (alternative_request title_text) :: history w.
Proof.
  unfold _find_alternative_url, catch, bind, ask_gemini. cbn.
  fold (alternative_request title_text).
  destruct (generate_content _ _) as [text|e]; cbn.
  - destruct (after_response (JStr title_text) text _) as [[r|e] w2] eqn:E;
      apply framed_after_response in E as [_ [evs Hevs]]; cbn in Hevs;
      eexists _, _, evs; (split; [reflexivity|]); exact Hevs.
  - destruct (_try_authority_fallback _ _) as [[r|e'] w2] eqn:E;
      apply framed_try_authority_fallback in E as [_ [evs Hevs]]; cbn in Hevs;
      eexists _, _, evs; (split; [reflexivity|]); exact Hevs.
Qed.


(** What the block that reads the structured answer does with a result
    marked verified whose URL normalises to [candidate_url]. *)
Lemma read_structured_verified (title : json) (response_text matched : str)
    (i : nat) (cs : caps) (data : list (str * json)) (u candidate_url : str)
    (w : World) :
  re_search VPatterns.json_url_verified response_text = Some (i, matched, cs) ->
  json_loads matched = Some data ->
  truthy (get_or_none (py "verified") data) = true ->
  get_or_none (py "url") data = JStr u ->
  u <> [] ->
  _normalize_url (strip u) = Some candidate_url ->
  read_structured title response_text w =
    if _should_filter_url
         candidate_url company_url competitors
    then (Ok FallThrough, w)
    else
      match _check_url_status candidate_url w with
      | (Ok (true, final_url), w') =>
          (Ok (Return (Some (final_url,
                             match dict_get (py "title") data with
                             | Some t => t
                             | None => title
                             end))), w')
      | (Ok (false, _), w') => (Ok FallThrough, w')
      | (Raise e, w') => (Raise e, w')
      end.
Proof.
  intros Hre Hj Hv Hu Hne Hn. unfold read_structured. rewrite Hre, Hj, Hv, Hu.
  assert (Ht : truthy (JStr u) = true).
  { cbn. apply negb_true_iff. by apply str_eqb_neq. }
  rewrite Ht. cbn [andb]. rewrite Hn.
  destruct (_should_filter_url candidate_url _ _); [reflexivity|].
  unfold bind. destruct (_check_url_status candidate_url w) as [[[[|] f]|e] w']; reflexivity.
Qed.

Lemma read_structured_passed (title : json) (text : str) (w w' : World)
    (out_url : str) (out_title : json) :
  read_structured title text w = (Ok (Return (Some (out_url, out_title))), w') ->
  passed_checks w out_url w'.
Proof.
  unfold read_structured. intros H.
  destruct (re_search _ text) as [[[i matched] cs]|]; [|discriminate].
  destruct (json_loads matched) as [data|]; [|discriminate].
  destruct (truthy _ && truthy _).
  - destruct (get_or_none (py "url") data); try discriminate.
    destruct (_normalize_url _) as [c|]; [|discriminate].
    destruct (_should_filter_url c _ _) eqn:Hf; [discriminate|].
    unfold bind in H.
    destruct (_check_url_status c w) as [[[[|] f]|e] w1] eqn:Hc; try discriminate.
    injection H as <- <- <-. exists c, w. split; [exact Hf|].
    split; [apply grows_refl | exact Hc].
  - destruct (get_or_none (py "url") data) as [| | | |[|]| |]; try discriminate;
      destruct (get_or_none (py "verified") data) as [|[|]| | | | |]; discriminate.
Qed.

Lemma scan_candidates_passed (title : json) (text : str) (urls : list json) :
  forall (w w' : World) (out_url : str) (out_title : json),
    scan_candidates title text urls w = (Ok (Some (out_url, out_title)), w') ->
    passed_checks w out_url w'.
Proof.
  induction urls as [|v urls IH]; intros w w' out_url out_title H; simpl in H.
  - discriminate.
  - destruct (negb (truthy v)); [by eapply IH|].
    destruct v; try discriminate.
    destruct (_normalize_url _) as [c|]; [|discriminate].
    destruct (_should_filter_url c _ _) eqn:Hf; [by eapply IH|].
    unfold bind in H.
    destruct (_check_url_status c w) as [[[[|] f]|e] w1] eqn:Hc; try discriminate.
    + injection H as <- _ <-. exists c, w. split; [exact Hf|].
      split; [apply grows_refl | exact Hc].
    + apply IH in H as (c' & w2 & Hf' & Hg & Hc').
      exists c', w2. split; [exact Hf'|]. split; [|exact Hc'].
      eapply grows_trans; [|exact Hg]. eapply framed_check_url_status, Hc.
Qed.

Lemma after_response_passed (title : json) (text : str) (w w' : World)
    (out_url : str) (out_title : json) :
  after_response title text w = (Ok (Some (out_url, out_title)), w') ->
  passed_checks w out_url w'.
Proof.
  unfold after_response, bind, catch. intros H.
  destruct (read_structured title text w) as [[[r|]|e] w1] eqn:E.
  - injection H as -> <-. by eapply read_structured_passed.
  - apply scan_candidates_passed in H as (c & w2 & Hf & Hg & Hc).
    exists c, w2. split; [exact Hf|]. split; [|exact Hc].
    eapply grows_trans; [|exact Hg]. eapply framed_read_structured, E.
  - cbn in H. apply scan_candidates_passed in H as (c & w2 & Hf & Hg & Hc).
    exists c, w2. split; [exact Hf|]. split; [|exact Hc].
    eapply grows_trans; [|exact Hg]. eapply framed_read_structured, E.
Qed.


(** *** The specific-page resolver *)

Lemma find_specific_page_url_returns (title : json) (domain_url : str) (w : World) :
  exists r w', _find_specific_page_url title domain_url w = (Ok r, w').
Proof.
  unfold _find_specific_page_url, catch.
  match goal with |- context [match ?m w with _ => _ end] =>
    destruct (m w) as [[r|e] w1] end; cbn; eauto.
Qed.

(** [_find_specific_page_url] never raises.  The URL it returns is the
    string under [url] of the first JSON object of the assistant's answer,
    marked verified there, and passes [_is_specific_page_url]. *)
Lemma specific_page_found_is_specific (title : json) (domain_url : str) (w : World) :
  (exists r w', _find_specific_page_url title domain_url w = (Ok r, w')) /\
  (forall found_url w',
      _find_specific_page_url title domain_url w = (Ok (Some found_url), w') ->
      _is_specific_page_url found_url = true /\
      exists domain response_text i matched cs data,
        w' = log_event (EvGemini (AskSpecificPage domain title)) w /\
        generate_content (length (history w)) (AskSpecificPage domain title)
          = Ok response_text /\
        re_search VPatterns.json_object response_text = Some (i, matched, cs) /\
        json_loads matched = Some data /\
        dict_get (py "url") data = Some (JStr found_url) /\
        (exists verified, dict_get (py "verified") data = Some verified /\
                          truthy verified = true)).
Proof.
  split; [apply find_specific_page_url_returns|].
  intros found w' H. unfold _find_specific_page_url, catch, bind, ask_gemini in H.
  destruct (UrlLib.urlparse _ _ domain_url) as [parsed|]; [|discriminate].
  match type of H with context [generate_content _ (AskSpecificPage ?d _)] =>
    set (domain := d) in * end.
  destruct (generate_content _ _) as [text|e] eqn:Hg; [|discriminate].
  destruct (re_search _ text) as [[[i matched] cs]|] eqn:Hre; [|discriminate].
  destruct (json_loads matched) as [data|] eqn:Hj; [|discriminate].
  destruct (dict_get (py "verified") data) as [verified|] eqn:Hv; [|discriminate].
  destruct (dict_get (py "url") data) as [found_v|] eqn:Hu; [|discriminate].
  destruct (truthy verified && truthy found_v) eqn:Ht; [|discriminate].
  destruct found_v; try discriminate.
  destruct (_is_specific_page_url s) eqn:Hs; [|discriminate].
  injection H as <- <-. split; [exact Hs|].
  exists domain, text, i, matched, cs, data.
  apply andb_true_iff in Ht as [Ht _].
  repeat (split; [done|]). eauto.
Qed.

(** C8.  The URL that the assistant names is not compared with the domain
    asked for.  Whenever the first JSON object of the answer is marked
    verified and holds under [url] a string that passes
    [_is_specific_page_url], [_find_specific_page_url] returns that string,
    whatever its host: the one call made is the request to the assistant,
    which names the domain of the original URL, and nothing is done with the
    URL found but the specific-page check. *)
Theorem specific_page_domain_not_checked (title : json) (domain_url found_url : str)
    (w : World) (parsed : ParseResult) (response_text matched : str) (i : nat)
    (cs : caps) (data : list (str * json)) (verified : json) :
  UrlLib.urlparse bracketed_netloc_ok nfkc_netloc_ok domain_url = Some parsed ->
  netloc parsed <> [] ->
  generate_content (length (history w)) (AskSpecificPage (netloc parsed) title)
    = Ok response_text ->
  re_search VPatterns.json_object response_text = Some (i, matched, cs) ->
  json_loads matched = Some data ->
  dict_get (py "verified") data = Some verified ->
  truthy verified = true ->
  dict_get (py "url") data = Some (JStr found_url) ->
  _is_specific_page_url found_url = true ->
  _find_specific_page_url title domain_url w
  = (Ok (Some found_url),
     log_event (EvGemini (AskSpecificPage (netloc parsed) title)) w).
Proof.
  intros Hp Hnl Hg Hre Hj Hv Ht Hu Hs.
  assert (Hne : truthy (JStr found_url) = true).
  { destruct found_url; [discriminate Hs | reflexivity]. }
  unfold _find_specific_page_url, catch, bind, ask_gemini. rewrite Hp.
  destruct (netloc parsed) as [|c nl] eqn:En; [done|].
  rewrite Hg, Hre, Hj, Hv, Hu, Ht, Hne, Hs. reflexivity.
Qed.

(** *** The batch *)

(** C1.  For every schedule in which each unit of work finishes once,
    [validate_all_citations] returns the list of the very objects it was
    given, in the order given, hence as many records as citations; the
    number of every object is the one it had.  This holds whatever the
    clock, the HTTP client, the assistant and [json.loads] answer. *)
Theorem validate_all_citations_same_length_and_order (citations schedule : list nat)
    (w : World) :
  Permutation schedule (seq 0 (length citations)) ->
  exists result w',
    validate_all_citations citations company_url competitors schedule w
      = Some (inr result, w') /\
    result = citations /\
    length result = length citations /\
    forall r, number (heap w' r) = number (heap w r).
Proof.
  intros Hperm.
  destruct (validate_all_citations_spec citations schedule w Hperm) as (w' & H & Hn).
  exists citations, w'. done.
Qed.

(** C2 (amended).  [validate_all_citations] does not raise.  When
    [validate_citation_url] raises for a citation, the unit of work returns
    that citation's object, which has not been written to: its URL and
    title are the original ones.  The record carries no mark of validity. *)
Theorem validate_all_citations_never_raises (citations schedule : list nat) (w : World) :
  Permutation schedule (seq 0 (length citations)) ->
  (exists result w',
      validate_all_citations citations company_url competitors schedule w
        = Some (inr result, w')) /\
  (forall citation w0 e w1,
      validate_citation_url (url (heap w0 citation)) (title (heap w0 citation)) w0
        = (Raise e, w1) ->
      validate_single_citation citation w0 = (Ok citation, w1) /\
      heap w1 = heap w0).
Proof.
  intros Hperm. split.
  - destruct (validate_all_citations_spec citations schedule w Hperm) as (w' & H & _).
    eauto.
  - intros citation w0 e w1 H.
    pose proof (validate_single_citation_spec citation w0) as Hs.
    rewrite H in Hs. exact Hs.
Qed.

End FrameFacts.

(** C2 as stated fails in its mark of validity.  In the first run the unit
    of work raises ([TypeError], from the slice of the [null] title of an
    accepted alternative); in the second the same citation validates at
    once.  Both runs return the same record. *)
Lemma no_mark_of_validity_counterexample :
  let run_raises :=
    validate_all_citations accept_all accept_all (Scenario.clock 0)
      Scenario.http_only_good Scenario.http_fails
      (Scenario.gemini_says Scenario.answer_null_title) Scenario.json_loads
      [0] Scenario.company [] [0] Scenario.start in
  let run_valid :=
    validate_all_citations accept_all accept_all (Scenario.clock 0)
      Scenario.http_ok Scenario.http_fails
      (Scenario.gemini_says Scenario.answer_null_title) Scenario.json_loads
      [0] Scenario.company [] [0] Scenario.start in
  fst (validate_citation_url accept_all accept_all (Scenario.clock 0)
         Scenario.http_only_good Scenario.http_fails
         (Scenario.gemini_says Scenario.answer_null_title) Scenario.json_loads
         Scenario.company [] (url Scenario.the_citation) (title Scenario.the_citation)
         Scenario.start) = Raise TypeError /\
  fst (validate_citation_url accept_all accept_all (Scenario.clock 0)
         Scenario.http_ok Scenario.http_fails
         (Scenario.gemini_says Scenario.answer_null_title) Scenario.json_loads
         Scenario.company [] (url Scenario.the_citation) (title Scenario.the_citation)
         Scenario.start)
    = Ok (true, py "https://example.org/report", JStr (py "AI report")) /\
  match run_raises, run_valid with
  | Some (inr [a], wa), Some (inr [b], wb) =>
      a = 0 /\ b = 0 /\ heap wa a = Scenario.the_citation /\ heap wb b = heap wa a
  | _, _ => False
  end.
Proof. vm_compute. repeat split; reflexivity. Qed.



(** *** The theorems at concrete inputs *)

Lemma validate_all_citations_same_length_and_order_witness :
  Permutation [1; 0] (seq 0 (length [0; 1])) /\
  exists result w',
    validate_all_citations accept_all accept_all (Scenario.clock 0)
      Scenario.http_only_good Scenario.http_fails
      (Scenario.gemini_says Scenario.answer_null_title) Scenario.json_loads
      [0; 1] Scenario.company [] [1; 0] Scenario.start
      = Some (inr result, w') /\
    result = [0; 1] /\
    length result = length [0; 1] /\
    forall r, number (heap w' r) = number (heap Scenario.start r).
Proof.
  assert (H : Permutation [1; 0] (seq 0 (length [0; 1]))) by (simpl; apply perm_swap).
  split; [exact H|].
  exact (validate_all_citations_same_length_and_order accept_all accept_all
           (Scenario.clock 0) Scenario.http_only_good Scenario.http_fails
           (Scenario.gemini_says Scenario.answer_null_title) Scenario.json_loads
           Scenario.company [] [0; 1] [1; 0] Scenario.start H).
Defined.

Lemma validate_all_citations_never_raises_witness :
  Permutation [0] (seq 0 (length [0])) /\
  (exists result w',
      validate_all_citations accept_all accept_all (Scenario.clock 0)
        Scenario.http_only_good Scenario.http_fails
        (Scenario.gemini_says Scenario.answer_null_title) Scenario.json_loads
        [0] Scenario.company [] [0] Scenario.start
        = Some (inr result, w')) /\
  exists w1,
    validate_single_citation accept_all accept_all (Scenario.clock 0)
      Scenario.http_only_good Scenario.http_fails
      (Scenario.gemini_says Scenario.answer_null_title) Scenario.json_loads
      Scenario.company [] 0 Scenario.start = (Ok 0, w1) /\
    heap w1 = heap Scenario.start.
Proof.
  assert (H : Permutation [0] (seq 0 (length [0]))) by (simpl; reflexivity).
  pose proof (validate_all_citations_never_raises accept_all accept_all
                (Scenario.clock 0) Scenario.http_only_good Scenario.http_fails
                (Scenario.gemini_says Scenario.answer_null_title) Scenario.json_loads
                Scenario.company [] [0] [0] Scenario.start H) as [Hall Hunit].
  split; [exact H|]. split; [exact Hall|].
  eexists. eapply (Hunit 0 Scenario.start TypeError). vm_compute. reflexivity.
Defined.

Lemma transport_failure_not_cached_witness :
  let url := py "https://example.org/report" in
  status_cache Scenario.start !! url = None /\
  Scenario.http_times_out (S (length (history Scenario.start))) url = Raise TimeoutError /\
  exists w1,
    _check_url_status (Scenario.clock 0) Scenario.http_times_out Scenario.http_fails
      url Scenario.start = (Ok (false, url), w1) /\
    status_cache w1 = status_cache Scenario.start /\
    history w1 = EvHead url :: EvTime :: history Scenario.start /\
    exists r2 w2 evs,
      _check_url_status (Scenario.clock 0) Scenario.http_times_out Scenario.http_fails
        url w1 = (r2, w2) /\
      history w2 = evs ++ EvHead url :: EvTime :: history w1.
Proof.
  intros url.
  assert (H1 : status_cache Scenario.start !! url = None) by reflexivity.
  assert (H2 : Scenario.http_times_out (S (length (history Scenario.start))) url
               = Raise TimeoutError) by reflexivity.
  split; [exact H1|]. split; [exact H2|].
  exact (transport_failure_not_cached (Scenario.clock 0) Scenario.http_times_out
           Scenario.http_fails url Scenario.start TimeoutError H1 H2).
Defined.



Lemma specific_page_domain_not_checked_witness :
  let domain_url := py "https://example.com" in
  let found_url := py "https://other.org/page" in
  let title := JStr (py "AI report") in
  let parsed := mkParse (py "https") (py "example.com") [] [] [] [] in
  let data := [(py "url", JStr found_url); (py "verified", JBool true)] in
  UrlLib.urlparse accept_all accept_all domain_url = Some parsed /\
  netloc parsed <> [] /\
  Scenario.gemini_says Scenario.answer_other_domain (length (history Scenario.start))
    (AskSpecificPage (netloc parsed) title) = Ok Scenario.answer_other_domain /\
  re_search VPatterns.json_object Scenario.answer_other_domain
    = Some (0, Scenario.answer_other_domain, []) /\
  Scenario.json_loads Scenario.answer_other_domain = Some data /\
  _is_specific_page_url found_url = true /\
  host_of accept_all accept_all domain_url = Some (py "example.com") /\
  host_of accept_all accept_all found_url = Some (py "other.org") /\
  _find_specific_page_url accept_all accept_all
    (Scenario.gemini_says Scenario.answer_other_domain) Scenario.json_loads
    title domain_url Scenario.start
  = (Ok (Some found_url),
     log_event (EvGemini (AskSpecificPage (py "example.com") title)) Scenario.start).
Proof.
  intros domain_url found_url title parsed data.
  assert (H1 : UrlLib.urlparse accept_all accept_all domain_url = Some parsed)
    by (vm_compute; reflexivity).
  assert (H2 : netloc parsed <> []) by discriminate.
  assert (H3 : Scenario.gemini_says Scenario.answer_other_domain
                 (length (history Scenario.start))
                 (AskSpecificPage (netloc parsed) title)
               = Ok Scenario.answer_other_domain) by reflexivity.
  assert (H4 : re_search VPatterns.json_object Scenario.answer_other_domain
               = Some (0, Scenario.answer_other_domain, []))
    by (vm_compute; reflexivity).
  assert (H5 : Scenario.json_loads Scenario.answer_other_domain = Some data)
    by (vm_compute; reflexivity).
  assert (H6 : _is_specific_page_url found_url = true) by (vm_compute; reflexivity).
  split; [exact H1|]. split; [exact H2|]. split; [exact H3|]. split; [exact H4|].
  split; [exact H5|]. split; [exact H6|].
  split; [vm_compute; reflexivity|]. split; [vm_compute; reflexivity|].
  exact (specific_page_domain_not_checked accept_all accept_all
           (Scenario.gemini_says Scenario.answer_other_domain) Scenario.json_loads
           title domain_url found_url Scenario.start parsed
           Scenario.answer_other_domain Scenario.answer_other_domain 0 [] data
           (JBool true) H1 H2 H3 H4 H5 eq_refl eq_refl eq_refl H6).
Defined.

(** * Further properties of the code *)

(** ** Relations between the worlds before and after a call *)

Lemma calls_ret {A} (a : A) : calls_at_most 0 (ret a).
Proof. intros w r w' [= <- <-]. lia. Qed.

Lemma calls_raise {A} (e : exn) : calls_at_most 0 (@raise A e).
Proof. intros w r w' [= <- <-]. lia. Qed.

Lemma calls_weaken {A} (a b : nat) (m : M A) :
  a <= b -> calls_at_most a m -> calls_at_most b m.
Proof. intros Hab Hm w r w' H. apply Hm in H. lia. Qed.

Lemma calls_bind {A B} (a b : nat) (m : M A) (k : A -> M B) :
  calls_at_most a m -> (forall x, calls_at_most b (k x)) ->
  calls_at_most (a + b) (bind m k).
Proof.
  intros Hm Hk w r w' H. unfold bind in H.
  destruct (m w) as [[x|e] w1] eqn:E; apply Hm in E.
  - apply Hk in H. lia.
  - injection H as _ <-. lia.
Qed.

Lemma calls_of_steps {A} (m : M A) : steps no_gemini_call m -> calls_at_most 0 m.
Proof. intros Hm w r w' H. apply Hm in H. unfold no_gemini_call in H. lia. Qed.

#[export] Instance untouched_outside_preorder (citations : list nat) :
  PreOrder (untouched_outside citations).
Proof.
  split; [done|]. intros w1 w2 w3 H1 H2 r Hr. rewrite H2, H1; done.
Qed.


#[export] Instance caches_kept_preorder : PreOrder caches_kept.
Proof.
  split.
  - intros w. repeat split; auto.
  - intros w1 w2 w3 [Hs1 [Hk1 Hq1]] [Hs2 [Hk2 Hq2]]. repeat split; auto.
Qed.

#[export] Instance no_gemini_call_preorder : PreOrder no_gemini_call.
Proof. split; [done|]. intros w1 w2 w3 H1 H2. unfold no_gemini_call in *. congruence. Qed.

#[export] Instance same_authority_cache_preorder : PreOrder same_authority_cache.
Proof.
  split; [done|]. intros w1 w2 w3 H1 H2. unfold same_authority_cache in *. congruence.
Qed.

Section Steps.
Context (R : World -> World -> Prop) {HR : PreOrder R}.

Lemma steps_ret {A} (a : A) : steps R (ret a).
Proof. intros w r w' [= <- <-]. reflexivity. Qed.

Lemma steps_raise {A} (e : exn) : steps R (@raise A e).
Proof. intros w r w' [= <- <-]. reflexivity. Qed.

Lemma steps_bind {A B} (m : M A) (k : A -> M B) :
  steps R m -> (forall a, steps R (k a)) -> steps R (bind m k).
Proof.
  intros Hm Hk w r w' H. unfold bind in H.
  destruct (m w) as [[a|e] w1] eqn:E.
  - etransitivity; [eapply Hm, E | eapply Hk, H].
  - injection H as <- <-. eapply Hm, E.
Qed.

Lemma steps_catch {A} (m : M A) (h : exn -> M A) :
  steps R m -> (forall e, steps R (h e)) -> steps R (catch m h).
Proof.
  intros Hm Hh w r w' H. unfold catch in H.
  destruct (m w) as [[a|e] w1] eqn:E.
  - injection H as <- <-. eapply Hm, E.
  - etransitivity; [eapply Hm, E | eapply Hh, H].
Qed.

Lemma steps_get_status_cache (u : str) : steps R (get_status_cache u).
Proof. intros w r w' [= <- <-]. reflexivity. Qed.

Lemma steps_get_authority_cache (k : str) : steps R (get_authority_cache k).
Proof. intros w r w' [= <- <-]. reflexivity. Qed.

Lemma steps_deref (r : nat) : steps R (deref r).
Proof. intros w x w' [= <- <-]. reflexivity. Qed.

End Steps.

Create HintDb steps discriminated.
#[export] Hint Resolve steps_ret steps_raise steps_get_status_cache
  steps_get_authority_cache steps_deref : steps.

Ltac steps_step :=
  match goal with
  | |- steps ?R (bind _ _) => apply (steps_bind R (HR := _)); [|intros ?]
  | |- steps ?R (catch _ _) => apply (steps_catch R (HR := _)); [|intros ?]
  | |- steps _ (match ?x with _ => _ end) => destruct x
  | |- steps _ (let '(_, _) := ?x in _) => destruct x
  | |- steps _ _ => solve [auto with steps typeclass_instances]
  end.
Ltac steps_auto := repeat steps_step.

Lemma gemini_calls_log (e : event) (w : World) :
  number_of_gemini_calls (log_event e w)
  = (match e with EvGemini _ => 1 | _ => 0 end) + number_of_gemini_calls w.
Proof. unfold number_of_gemini_calls. cbn. by destruct e. Qed.

(** The steps that need nothing from the outside *)
Lemma caches_kept_log (e : event) (w : World) : caches_kept w (log_event e w).
Proof. repeat split; auto. Qed.

Lemma set_authority_cache_caches_kept (k : str) (entry : option (str * str) * Z) :
  steps caches_kept (set_authority_cache k entry).
Proof.
  intros w r w' [= <- <-]. split; [auto|]. split; [auto|]. cbn. intros q Hq.
  destruct (decide (q = k)) as [->|Hne].
  - rewrite lookup_insert_eq. eauto.
  - by rewrite lookup_insert_ne.
Qed.
Lemma assign_url_caches_kept (r : nat) (v : str) : steps caches_kept (assign_url r v).
Proof. intros w x w' [= <- <-]. repeat split; auto. Qed.
Lemma assign_title_caches_kept (r : nat) (v : json) : steps caches_kept (assign_title r v).
Proof. intros w x w' [= <- <-]. repeat split; auto. Qed.

Lemma set_authority_cache_no_gemini_call (k : str) (entry : option (str * str) * Z) :
  steps no_gemini_call (set_authority_cache k entry).
Proof. intros w r w' [= <- <-]. reflexivity. Qed.

Lemma calls_catch {A} (a b : nat) (m : M A) (h : exn -> M A) :
  calls_at_most a m -> (forall e, calls_at_most b (h e)) ->
  calls_at_most (a + b) (catch m h).
Proof.
  intros Hm Hh w r w' H. unfold catch in H.
  destruct (m w) as [[x|e] w1] eqn:E; apply Hm in E.
  - injection H as _ <-. lia.
  - apply Hh in H. lia.
Qed.

#[export] Hint Resolve set_authority_cache_caches_kept assign_url_caches_kept
  assign_title_caches_kept set_authority_cache_no_gemini_call : steps.

(** ** The URL status resolver *)

Section StatusFacts.

Variable time_time : nat -> Z.
Variable http_head : nat -> str -> result (Z * str).
Variable http_get : nat -> str -> result (Z * str).

Local Abbreviation _check_url_status := (_check_url_status time_time http_head http_get).
Local Abbreviation probe := (probe http_head http_get).

(** What a probe does: it answers, after a [head] request and at most one
    [get]; it writes at most the entry of the URL, and then what it answers
    with the time it was given. *)
Lemma probe_effects (url : str) (t : Z) (w : World) :
  exists is_valid final_url w' evs,
    probe url t w = (Ok (is_valid, final_url), w') /\
    history w' = evs ++ history w /\
    (evs = [EvHead url] \/ exists redirected, evs = [EvGet redirected; EvHead url]) /\
    heap w' = heap w /\
    authority_cache w' = authority_cache w /\
    (status_cache w' = status_cache w /\ is_valid = false \/
     status_cache w' = <[url := (is_valid, final_url, t)]> (status_cache w) /\
     (is_valid = true -> _is_error_page_url final_url = false)).
Proof.
  unfold probe, catch, bind, head.
  destruct (http_head _ url) as [[code f]|e]; cbn.
  2:{ eexists _, _, _, [_]. split; [reflexivity|]. cbn. split_and!; eauto. }
  unfold classify.
  destruct (Z.eqb code 200).
  { destruct (_is_error_page_url f) eqn:He; cbn;
      eexists _, _, _, [_]; (split; [reflexivity|]); cbn; split_and!; eauto;
      right; (split; [reflexivity|done]). }
  destruct (Z.eqb code 404).
  { cbn. eexists _, _, _, [_]. split; [reflexivity|]. cbn. split_and!; eauto.
    right; (split; [reflexivity|done]). }
  destruct (is_redirect code).
  2:{ cbn. eexists _, _, _, [_]. split; [reflexivity|]. cbn. split_and!; eauto.
      right; (split; [reflexivity|done]). }
  unfold follow_redirect, catch, bind, get. cbn.
  destruct (http_get _ f) as [[c2 f2]|e]; cbn.
  - destruct (Z.eqb c2 200 && negb (_is_error_page_url f2)) eqn:Hc; cbn;
      eexists _, _, _, [_; _]; (split; [reflexivity|]); cbn; split_and!; eauto;
      right; (split; [reflexivity|]); [|done].
    intros _. apply andb_true_iff in Hc as [_ Hc]. by apply negb_true_iff in Hc.
  - destruct e; cbn; eexists _, _, _, [_; _]; (split; [reflexivity|]); cbn;
      split_and!; eauto; right; (split; [reflexivity|done]).
Qed.


(** What [_check_url_status] does, in every case *)
Lemma check_url_status_effects (url : str) (w : World) :
  exists is_valid final_url w' evs,
    _check_url_status url w = (Ok (is_valid, final_url), w') /\
    history w' = evs ++ EvTime :: history w /\
    (evs = [] \/ evs = [EvHead url] \/
     exists redirected, evs = [EvGet redirected; EvHead url]) /\
    heap w' = heap w /\
    authority_cache w' = authority_cache w /\
    (status_cache w' = status_cache w \/
     status_cache w'
     = <[url := (is_valid, final_url, time_time (length (history w)))]> (status_cache w)) /\
    (is_valid = true ->
     _is_error_page_url final_url = false \/
     exists timestamp, status_cache w !! url = Some (true, final_url, timestamp)).
Proof.
  assert (Hprobe : exists is_valid final_url w' evs,
    probe url (time_time (length (history w))) (log_event EvTime w)
      = (Ok (is_valid, final_url), w') /\
    history w' = evs ++ EvTime :: history w /\
    (evs = [] \/ evs = [EvHead url] \/
     exists redirected, evs = [EvGet redirected; EvHead url]) /\
    heap w' = heap w /\
    authority_cache w' = authority_cache w /\
    (status_cache w' = status_cache w \/
     status_cache w'
     = <[url := (is_valid, final_url, time_time (length (history w)))]> (status_cache w)) /\
    (is_valid = true ->
     _is_error_page_url final_url = false \/
     exists timestamp, status_cache w !! url = Some (true, final_url, timestamp))).
  { destruct (probe_effects url (time_time (length (history w))) (log_event EvTime w))
      as (v & f & w' & evs & Hrun & Hh & Hevs & Hheap & Hauth & Hst).
    exists v, f, w', evs. split; [exact Hrun|]. split; [exact Hh|].
    split; [tauto|]. split; [exact Hheap|]. split; [exact Hauth|].
    destruct Hst as [[Hst ->]|[Hst Herr]].
    - split; [by left|done].
    - split; [by right|]. intros Hv. left. by apply Herr. }
  unfold _check_url_status, bind, now, get_status_cache.
  cbn [status_cache log_event].
  destruct (status_cache w !! url) as [[[v f] ts]|] eqn:E; [|exact Hprobe].
  destruct (_ <? _)%Z; [|exact Hprobe].
  exists v, f, (log_event EvTime w), []. split; [reflexivity|].
  split_and!; eauto. intros ->. right. eauto.
Qed.

Lemma check_url_status_caches_kept (url : str) : steps caches_kept (_check_url_status url).
Proof.
  intros w r w' H.
  destruct (check_url_status_effects url w)
    as (v & f & w1 & evs & Hrun & _ & _ & _ & Hauth & Hst & Hv).
  rewrite Hrun in H. injection H as <- <-.
  split; [|split].
  - intros Hs u f' ts Hl. destruct Hst as [Hst|Hst]; rewrite Hst in Hl.
    + by eapply Hs.
    + destruct (decide (u = url)) as [->|Hne].
      * rewrite lookup_insert_eq in Hl. injection Hl as -> -> _.
        destruct (Hv eq_refl) as [He|[ts' Hc]]; [exact He|by eapply Hs].
      * rewrite lookup_insert_ne in Hl by done. by eapply Hs.
  - intros u Hu. destruct Hst as [Hst|Hst]; rewrite Hst; [done|].
    destruct (decide (u = url)) as [->|Hne].
    + rewrite lookup_insert_eq. eauto.
    + by rewrite lookup_insert_ne.
  - intros q Hq. by rewrite Hauth.
Qed.

Lemma check_url_status_no_gemini_call (url : str) :
  steps no_gemini_call (_check_url_status url).
Proof.
  intros w r w' H.
  destruct (check_url_status_effects url w)
    as (v & f & w1 & evs & Hrun & Hh & Hevs & _).
  rewrite Hrun in H. injection H as <- <-.
  unfold no_gemini_call, number_of_gemini_calls. rewrite Hh.
  destruct Hevs as [->|[->|[g ->]]]; reflexivity.
Qed.

Lemma check_url_status_same_authority_cache (url : str) :
  steps same_authority_cache (_check_url_status url).
Proof.
  intros w r w' H.
  destruct (check_url_status_effects url w)
    as (v & f & w1 & evs & Hrun & _ & _ & _ & Hauth & _).
  rewrite Hrun in H. injection H as <- <-. exact Hauth.
Qed.

(** The primitive steps *)
Lemma now_caches_kept : steps caches_kept (now time_time).
Proof. intros w r w' [= <- <-]. apply caches_kept_log. Qed.

Lemma now_no_gemini_call : steps no_gemini_call (now time_time).
Proof. intros w r w' [= <- <-]. reflexivity. Qed.


(** X2.  A verdict obtained from a response is remembered.  When the cache
    has no entry for the URL and [head] is answered with a status that is no
    redirect, the verdict is valid exactly when the status is 200 and the
    final URL does not look like an error page; and a later call for the
    same URL, made while the entry stored stands and less than [_CACHE_TTL]
    seconds (for a valid verdict) or [_FAILED_URL_TTL] seconds (for an invalid
    one) have passed on the clock, returns the same verdict and final URL
    and only reads the clock. *)
Theorem check_url_status_remembered (url : str) (w : World) (status_code : Z)
    (final_url : str) :
  status_cache w !! url = None ->
  http_head (S (length (history w))) url = Ok (status_code, final_url) ->
  is_redirect status_code = false ->
  exists is_valid w1,
    _check_url_status url w = (Ok (is_valid, final_url), w1) /\
    (is_valid = true <-> status_code = 200%Z /\ _is_error_page_url final_url = false) /\
    forall w2,
      status_cache w2 !! url = status_cache w1 !! url ->
      (time_time (length (history w2)) - time_time (length (history w))
       < if is_valid then _CACHE_TTL else _FAILED_URL_TTL)%Z ->
      _check_url_status url w2 = (Ok (is_valid, final_url), log_event EvTime w2).
Proof.
  intros Hc Hh Hr.
  assert (Hrun : exists is_valid w1,
    _check_url_status url w = (Ok (is_valid, final_url), w1) /\
    (is_valid = true <-> status_code = 200%Z /\ _is_error_page_url final_url = false) /\
    status_cache w1 !! url = Some (is_valid, final_url, time_time (length (history w)))).
  { unfold _check_url_status, bind, now, get_status_cache.
    cbn -[classify is_redirect].
    rewrite Hc. unfold probe, catch, bind, head. cbn -[classify is_redirect].
    rewrite Hh. unfold classify. rewrite Hr.
    destruct (Z.eqb status_code 200) eqn:E200.
    - apply Z.eqb_eq in E200.
      destruct (_is_error_page_url final_url) eqn:He; cbn;
        eexists _, _; (split; [reflexivity|]); cbn;
        (split; [|apply lookup_insert_eq]); split; try done.
      intros [_ ?]. done.
    - apply Z.eqb_neq in E200.
      destruct (Z.eqb status_code 404); cbn;
        eexists _, _; (split; [reflexivity|]); cbn;
        (split; [|apply lookup_insert_eq]); split; try done; intros [? _]; done. }
  destruct Hrun as (v & w1 & Hrun & Hv & Hl).
  exists v, w1. split; [exact Hrun|]. split; [exact Hv|].
  intros w2 Hsame Ht. rewrite Hl in Hsame.
  unfold _check_url_status, bind, now, get_status_cache. cbn.
  rewrite Hsame. apply Z.ltb_lt in Ht. rewrite Ht. reflexivity.
Qed.

(** X3.  No URL reported valid looks like an error page, as long as this
    holds of the valid entries that [_URL_STATUS_CACHE] has at the start; and
    the cache has that property again after the call. *)
Theorem check_url_status_valid_is_no_error_page (url : str) (w w' : World)
    (is_valid : bool) (final_url : str) :
  cache_sound w ->
  _check_url_status url w = (Ok (is_valid, final_url), w') ->
  cache_sound w' /\ (is_valid = true -> _is_error_page_url final_url = false).
Proof.
  intros Hs Hrun. split.
  - by apply (check_url_status_caches_kept url w _ w' Hrun).
  - intros Hv.
    destruct (check_url_status_effects url w) as (v & f & w1 & evs & Hrun' & _ & _ & _ & _ & _ & Hval).
    rewrite Hrun in Hrun'. injection Hrun' as -> -> _.
    destruct (Hval Hv) as [He|[ts Hl]]; [exact He|]. by eapply Hs.
Qed.

End StatusFacts.

#[export] Hint Resolve check_url_status_caches_kept check_url_status_no_gemini_call
  check_url_status_same_authority_cache now_caches_kept now_no_gemini_call : steps.

(** ** The validator *)

Section ValidatorFacts.

Variable bracketed_netloc_ok : str -> bool.
Variable nfkc_netloc_ok : str -> bool.
Variable time_time : nat -> Z.
Variable http_head : nat -> str -> result (Z * str).
Variable http_get : nat -> str -> result (Z * str).
Variable generate_content : nat -> gemini_request -> result str.
Variable json_loads : str -> option (list (str * json)).
Variable company_url : str.
Variable competitors : list str.

Local Abbreviation _normalize_url := (_normalize_url bracketed_netloc_ok nfkc_netloc_ok).
Local Abbreviation _should_filter_url :=
  (_should_filter_url bracketed_netloc_ok nfkc_netloc_ok).
Local Abbreviation _check_url_status := (_check_url_status time_time http_head http_get).
Local Abbreviation _find_specific_page_url :=
  (_find_specific_page_url bracketed_netloc_ok nfkc_netloc_ok generate_content json_loads).
Local Abbreviation try_authority_urls :=
  (try_authority_urls bracketed_netloc_ok nfkc_netloc_ok time_time http_head http_get
     company_url competitors).
Local Abbreviation _try_authority_fallback :=
  (_try_authority_fallback bracketed_netloc_ok nfkc_netloc_ok time_time http_head http_get
     company_url competitors).
Local Abbreviation read_structured :=
  (read_structured bracketed_netloc_ok nfkc_netloc_ok time_time http_head http_get
     json_loads company_url competitors).
Local Abbreviation scan_candidates :=
  (scan_candidates bracketed_netloc_ok nfkc_netloc_ok time_time http_head http_get
     json_loads company_url competitors).
Local Abbreviation after_response :=
  (after_response bracketed_netloc_ok nfkc_netloc_ok time_time http_head http_get
     json_loads company_url competitors).
Local Abbreviation _find_alternative_url :=
  (_find_alternative_url bracketed_netloc_ok nfkc_netloc_ok time_time http_head http_get
     generate_content json_loads company_url competitors).
Local Abbreviation validate_citation_url :=
  (validate_citation_url bracketed_netloc_ok nfkc_netloc_ok time_time http_head http_get
     generate_content json_loads company_url competitors).
Local Abbreviation validate_single_citation :=
  (validate_single_citation bracketed_netloc_ok nfkc_netloc_ok time_time http_head
     http_get generate_content json_loads company_url competitors).
Local Abbreviation validate_all_citations :=
  (validate_all_citations bracketed_netloc_ok nfkc_netloc_ok time_time http_head
     http_get generate_content json_loads).
Local Abbreviation alternative_request := (alternative_request company_url competitors).
Local Abbreviation check_url_status_effects :=
  (check_url_status_effects time_time http_head http_get).
Local Abbreviation check_url_status_caches_kept :=
  (check_url_status_caches_kept time_time http_head http_get).
Local Abbreviation check_url_status_no_gemini_call :=
  (check_url_status_no_gemini_call time_time http_head http_get).
Local Abbreviation check_url_status_same_authority_cache :=
  (check_url_status_same_authority_cache time_time http_head http_get).

Lemma ask_gemini_caches_kept (req : gemini_request) :
  steps caches_kept (ask_gemini generate_content req).
Proof. intros w r w' [= <- <-]. apply caches_kept_log. Qed.

Hint Resolve ask_gemini_caches_kept : steps.

Lemma try_authority_urls_steps (R : World -> World -> Prop) `{!PreOrder R}
    (q : str) (cands : list (str * str)) :
  (forall u, steps R (_check_url_status u)) ->
  steps R (try_authority_urls q cands).
Proof.
  intros Hc. induction cands as [|[b s] cands IH]; simpl; [auto with steps|].
  steps_auto; first [apply Hc | exact IH].
Qed.

Lemma try_authority_fallback_caches_kept (q : str) :
  steps caches_kept (_try_authority_fallback q).
Proof.
  unfold _try_authority_fallback.
  pose proof (try_authority_urls_steps caches_kept q) as H.
  steps_auto; apply H; auto with steps.
Qed.

Lemma try_authority_fallback_no_gemini_call (q : str) :
  steps no_gemini_call (_try_authority_fallback q).
Proof.
  unfold _try_authority_fallback.
  pose proof (try_authority_urls_steps no_gemini_call q) as H.
  steps_auto; apply H; auto with steps.
Qed.

Lemma read_structured_steps (R : World -> World -> Prop) `{!PreOrder R}
    (t : json) (text : str) :
  (forall u, steps R (_check_url_status u)) ->
  steps R (read_structured t text).
Proof. intros Hc. unfold read_structured, get_or_none. steps_auto; apply Hc. Qed.

Lemma scan_candidates_steps (R : World -> World -> Prop) `{!PreOrder R}
    (t : json) (text : str) (urls : list json) :
  (forall u, steps R (_check_url_status u)) ->
  steps R (scan_candidates t text urls).
Proof.
  intros Hc. induction urls as [|v urls IH]; simpl; [auto with steps|].
  steps_auto; first [apply Hc | exact IH].
Qed.

Lemma after_response_steps (R : World -> World -> Prop) `{!PreOrder R}
    (t : json) (text : str) :
  (forall u, steps R (_check_url_status u)) ->
  steps R (after_response t text).
Proof.
  intros Hc. unfold after_response.
  pose proof (read_structured_steps R t text Hc).
  pose proof (fun urls => scan_candidates_steps R t text urls Hc).
  steps_auto; auto.
Qed.

Lemma find_alternative_url_caches_kept (t : json) :
  steps caches_kept (_find_alternative_url t).
Proof.
  unfold _find_alternative_url.
  pose proof try_authority_fallback_caches_kept.
  pose proof (fun t text => after_response_steps caches_kept t text
                              check_url_status_caches_kept).
  steps_auto; auto.
Qed.

Lemma find_specific_page_url_caches_kept (t : json) (u : str) :
  steps caches_kept (_find_specific_page_url t u).
Proof. unfold _find_specific_page_url. steps_auto. Qed.

Lemma validate_citation_url_caches_kept (u : str) (t : json) :
  steps caches_kept (validate_citation_url u t).
Proof.
  unfold validate_citation_url.
  pose proof find_specific_page_url_caches_kept.
  pose proof find_alternative_url_caches_kept.
  steps_auto; auto.
Qed.

Lemma validate_single_citation_caches_kept (c : nat) :
  steps caches_kept (validate_single_citation c).
Proof.
  unfold validate_single_citation.
  pose proof validate_citation_url_caches_kept.
  steps_auto; auto.
Qed.


(** *** The URL status resolver *)
(** *** The authority fallback *)

Lemma try_authority_urls_returns (q : str) (cands : list (str * str)) (w : World) :
  exists r w', try_authority_urls q cands w = (Ok r, w').
Proof.
  revert w. induction cands as [|[b s] cands IH]; intros w; simpl; [by eexists _, _|].
  destruct (_should_filter_url b _ _); [apply IH|].
  unfold bind.
  destruct (check_url_status_effects b w) as (v & f & w1 & _ & -> & _).
  destruct v; [by eexists _, _ | apply IH].
Qed.

Lemma try_authority_urls_found (q : str) (cands : list (str * str)) :
  forall (w w' : World) (url title : str),
    try_authority_urls q cands w = (Ok (Some (url, title)), w') ->
    exists base_url source_name w1,
      In (base_url, source_name) cands /\
      _should_filter_url base_url company_url competitors = false /\
      grows w w1 /\
      _check_url_status base_url w1 = (Ok (true, url), w') /\
      title = take 60 q ++ py " - " ++ source_name.
Proof.
  induction cands as [|[b s] cands IH]; intros w w' url title H; simpl in H.
  - discriminate.
  - destruct (_should_filter_url b _ _) eqn:Hf.
    + apply IH in H as (b' & s' & w1 & Hin & ?). exists b', s', w1. split; [by right|done].
    + unfold bind in H.
      destruct (_check_url_status b w) as [[[[|] f]|e] w1] eqn:Hc; try discriminate.
      * injection H as <- <- <-. exists b, s, w. split; [by left|].
        split; [exact Hf|]. split; [apply grows_refl|]. split; [exact Hc|reflexivity].
      * apply IH in H as (b' & s' & w2 & Hin & Hf' & Hg & Hc' & Ht).
        exists b', s', w2. split; [by right|]. split; [exact Hf'|].
        split; [|done]. eapply grows_trans; [|exact Hg].
        eapply framed_check_url_status, Hc.
Qed.

(** X4.  When [_AUTHORITY_CACHE] has no fresh entry under the first 100
    characters of the query, [_try_authority_fallback] never raises and
    stores what it returns, a result or [None], under that key with the time
    it read.  A later call for any query with the same first 100 characters,
    made while that entry stands and less than [_CACHE_TTL] seconds have
    passed, returns what was stored and only reads the clock. *)
Theorem authority_fallback_remembered (search_query : str) (w : World) :
  (forall cached timestamp,
      authority_cache w !! take 100 search_query = Some (cached, timestamp) ->
      (_CACHE_TTL <= time_time (length (history w)) - timestamp)%Z) ->
  exists result w1,
    _try_authority_fallback search_query w = (Ok result, w1) /\
    authority_cache w1
    = <[take 100 search_query := (result, time_time (length (history w)))]>
        (authority_cache w) /\
    forall other_query w2,
      take 100 other_query = take 100 search_query ->
      authority_cache w2 !! take 100 search_query
      = Some (result, time_time (length (history w))) ->
      (time_time (length (history w2)) - time_time (length (history w)) < _CACHE_TTL)%Z ->
      _try_authority_fallback other_query w2 = (Ok result, log_event EvTime w2).
Proof.
  intros Hstale.
  assert (Hrun : exists result w1,
    _try_authority_fallback search_query w = (Ok result, w1) /\
    authority_cache w1
    = <[take 100 search_query := (result, time_time (length (history w)))]>
        (authority_cache w)).
  { unfold _try_authority_fallback, bind, now, get_authority_cache.
    cbn -[authority_candidates lookup take].
    set (w0 := log_event EvTime w).
    set (cands := authority_candidates (lower search_query)).
    assert (Hlookup : exists result w1,
      (let (r, w') := try_authority_urls search_query cands w0 in
       match r with
       | Ok a =>
           match a with
           | Some result0 =>
               let! _ := set_authority_cache (take 100 search_query)
                           (Some result0, time_time (length (history w))) in
               ret (Some result0)
           | None =>
               let! _ := set_authority_cache (take 100 search_query)
                           (None, time_time (length (history w))) in
               ret None
           end w'
       | Raise e => (Raise e, w')
       end) = (Ok result, w1) /\
      authority_cache w1
      = <[take 100 search_query := (result, time_time (length (history w)))]>
          (authority_cache w)).
    { destruct (try_authority_urls_returns search_query cands w0) as (r & w1 & Hr).
      pose proof (try_authority_urls_steps same_authority_cache search_query cands
                    check_url_status_same_authority_cache _ _ _ Hr) as Hauth.
      rewrite Hr. unfold same_authority_cache in Hauth. cbn in Hauth.
      destruct r as [result|]; cbn; eexists _, _; (split; [reflexivity|]); cbn;
        by rewrite Hauth. }
    destruct (authority_cache w !! take 100 search_query) as [[c ts]|] eqn:E;
      [|exact Hlookup].
    specialize (Hstale c ts eq_refl).
    assert (Hn : (time_time (length (history w)) - ts <? _CACHE_TTL)%Z = false)
      by (apply Z.ltb_ge; lia).
    cbn -[authority_candidates lookup take]. rewrite Hn. exact Hlookup. }
  destruct Hrun as (result & w1 & Hrun & Hc). exists result, w1.
  split; [exact Hrun|]. split; [exact Hc|].
  intros q2 w2 Hq Hl Ht.
  unfold _try_authority_fallback, bind, now, get_authority_cache.
  cbn -[authority_candidates lookup take].
  rewrite Hq, Hl. apply Z.ltb_lt in Ht. rewrite Ht. reflexivity.
Qed.

(** X5.  When [_AUTHORITY_CACHE] has no fresh entry for the query, a
    result of [_try_authority_fallback] is the final URL of a status check
    that answered valid during the call, made for a URL of the table whose
    keywords occur in the lower-cased query and which the domain filter lets
    through; its title is the first 60 characters of the query, then [ - ],
    then the name of the source in the table. *)
Theorem authority_fallback_result_checked (search_query : str) (w w' : World)
    (url title : str) :
  (forall cached timestamp,
      authority_cache w !! take 100 search_query = Some (cached, timestamp) ->
      (_CACHE_TTL <= time_time (length (history w)) - timestamp)%Z) ->
  _try_authority_fallback search_query w = (Ok (Some (url, title)), w') ->
  exists base_url source_name w1 w2,
    In (base_url, source_name) (authority_candidates (lower search_query)) /\
    _should_filter_url base_url company_url competitors = false /\
    grows w w1 /\
    _check_url_status base_url w1 = (Ok (true, url), w2) /\
    title = take 60 search_query ++ py " - " ++ source_name.
Proof.
  intros Hstale H.
  unfold _try_authority_fallback, bind, now, get_authority_cache in H.
  cbn -[authority_candidates lookup take] in H.
  set (w0 := log_event EvTime w) in *.
  set (cands := authority_candidates (lower search_query)) in *.
  assert (Hlookup :
    (let (r, w') := try_authority_urls search_query cands w0 in
     match r with
     | Ok a =>
         match a with
         | Some result0 =>
             let! _ := set_authority_cache (take 100 search_query)
                         (Some result0, time_time (length (history w))) in
             ret (Some result0)
         | None =>
             let! _ := set_authority_cache (take 100 search_query)
                         (None, time_time (length (history w))) in
             ret None
         end w'
     | Raise e => (Raise e, w')
     end) = (Ok (Some (url, title)), w') ->
    exists base_url source_name w1 w2,
      In (base_url, source_name) cands /\
      _should_filter_url base_url company_url competitors = false /\
      grows w w1 /\
      _check_url_status base_url w1 = (Ok (true, url), w2) /\
      title = take 60 search_query ++ py " - " ++ source_name).
  { clear H. intros H.
    destruct (try_authority_urls search_query cands w0) as [[[[u t]|]|e] w1] eqn:Hr;
      cbn in H; try discriminate.
    injection H as -> -> _.
    apply try_authority_urls_found in Hr as (b & s & w2 & Hin & Hf & Hg & Hc & Ht).
    exists b, s, w2, w1. split_and!; try done.
    eapply grows_trans; [apply grows_log | exact Hg]. }
  destruct (authority_cache w !! take 100 search_query) as [[c ts]|] eqn:E;
    [|by apply Hlookup].
  specialize (Hstale c ts eq_refl).
  assert (Hn : (time_time (length (history w)) - ts <? _CACHE_TTL)%Z = false)
    by (apply Z.ltb_ge; lia).
  cbn -[authority_candidates lookup take] in H. rewrite Hn in H. by apply Hlookup.
Qed.

(** *** The alternative discovery engine *)

Lemma find_alternative_url_returns (title_text : str) (w : World) :
  exists r w', _find_alternative_url (JStr title_text) w = (Ok r, w').
Proof.
  unfold _find_alternative_url.
  match goal with |- context [catch ?m ?h w] =>
    unfold catch at 1; destruct (m w) as [[r|e] w1] end; cbn; eauto.
Qed.

Lemma find_alternative_url_one_call (title_text : str) (w : World) :
  exists r w',
    _find_alternative_url (JStr title_text) w = (Ok r, w') /\
    number_of_gemini_calls w' = S (number_of_gemini_calls w) /\
    exists evs,
      history w' = evs ++ EvGemini (alternative_request title_text) :: history w.
Proof.
  destruct (find_alternative_url_returns title_text w) as (r & w' & Hrun).
  exists r, w'. split; [exact Hrun|].
  unfold _find_alternative_url, catch, bind, ask_gemini in Hrun. cbn in Hrun.
  fold (alternative_request title_text) in Hrun.
  remember (log_event (EvGemini (alternative_request title_text)) w) as w0 eqn:Hw0.
  assert (H0 : number_of_gemini_calls w0 = S (number_of_gemini_calls w))
    by (rewrite Hw0; by rewrite gemini_calls_log).
  assert (Hh0 : history w0 = EvGemini (alternative_request title_text) :: history w)
    by (by rewrite Hw0).
  clear Hw0.
  assert (Hquiet : no_gemini_call w0 w' /\ grows w0 w').
  { destruct (generate_content _ _) as [text|e]; cbn in Hrun.
    - destruct (after_response (JStr title_text) text w0) as [[a|e] w1] eqn:E;
        cbn in Hrun; injection Hrun as _ <-;
        (split; [eapply (after_response_steps no_gemini_call), E;
                 apply check_url_status_no_gemini_call
                |eapply framed_after_response, E]).
    - destruct (_try_authority_fallback _ w0) as [[a|e'] w1] eqn:E;
        cbn in Hrun; injection Hrun as _ <-;
        (split; [eapply try_authority_fallback_no_gemini_call, E
                |eapply framed_try_authority_fallback, E]). }
  destruct Hquiet as [Hq [_ [evs Hevs]]]. split; [by rewrite Hq|].
  exists evs. by rewrite Hevs, Hh0.
Qed.

(** X6.  For a title that is a string, [_find_alternative_url] never raises
    and calls [gemini_client.generate_content] exactly once, with the prompt
    built from the search query of the title.  (What the client does inside
    one call, its retries included, is not counted.) *)
Theorem find_alternative_url_asks_once (title_text : str) (w : World) :
  exists r w',
    _find_alternative_url (JStr title_text) w = (Ok r, w') /\
    number_of_gemini_calls w' = S (number_of_gemini_calls w) /\
    exists evs,
      history w' = evs ++ EvGemini (alternative_request title_text) :: history w.
Proof. apply find_alternative_url_one_call. Qed.

(** X7.  When the answer of the assistant holds a JSON object with an empty
    string under [url] and [false] under [verified],
    [_find_alternative_url] returns [None] at once: no HTTP request is made,
    and the URLs that the text of the answer may hold are not looked at. *)
Theorem find_alternative_url_none_reported (title_text response_text matched : str)
    (i : nat) (cs : caps) (data : list (str * json)) (w : World) :
  generate_content (length (history w)) (alternative_request title_text)
    = Ok response_text ->
  re_search VPatterns.json_url_verified response_text = Some (i, matched, cs) ->
  json_loads matched = Some data ->
  dict_get (py "url") data = Some (JStr []) ->
  dict_get (py "verified") data = Some (JBool false) ->
  _find_alternative_url (JStr title_text) w
  = (Ok None, log_event (EvGemini (alternative_request title_text)) w).
Proof.
  intros Hg Hre Hj Hu Hv.
  unfold _find_alternative_url, catch, bind, ask_gemini. cbn.
  fold (alternative_request title_text). rewrite Hg. cbn.
  unfold after_response, catch, bind, read_structured.
  rewrite Hre, Hj. unfold get_or_none. rewrite Hu, Hv. reflexivity.
Qed.

(** *** One citation *)

Lemma find_specific_page_url_gemini (title : json) (domain_url : str)
    (w w' : World) (r : result (option str)) :
  _find_specific_page_url title domain_url w = (r, w') ->
  number_of_gemini_calls w' <= S (number_of_gemini_calls w).
Proof.
  unfold _find_specific_page_url, catch, bind, ask_gemini. intros H.
  destruct (UrlLib.urlparse _ _ domain_url) as [parsed|].
  2:{ cbn in H. unfold ret in H. injection H as _ <-. lia. }
  match type of H with context [generate_content _ (AskSpecificPage ?d _)] =>
    remember d as domain eqn:Hd; clear Hd end.
  match type of H with context [log_event ?e w] =>
    assert (Hw : w' = log_event e w) end.
  { destruct (generate_content _ _) as [text|e];
      [|cbn in H; unfold ret in H; congruence].
    destruct (re_search _ text) as [[[i matched] cs]|];
      [|cbn in H; unfold ret in H; congruence].
    destruct (json_loads matched) as [data|];
      [|cbn in H; unfold ret in H; congruence].
    destruct (dict_get (py "verified") data) as [verified|];
      [|cbn in H; unfold ret in H; congruence].
    destruct (dict_get (py "url") data) as [found|];
      [|cbn in H; unfold ret in H; congruence].
    destruct (truthy verified && truthy found);
      [|cbn in H; unfold ret in H; congruence].
    destruct found; try (cbn in H; unfold ret in H; congruence).
    destruct (_is_specific_page_url s); cbn in H; unfold ret in H; congruence. }
  rewrite Hw, gemini_calls_log. lia.
Qed.

Lemma find_alternative_url_gemini (title : json) (w w' : World)
    (r : result (option (str * json))) :
  _find_alternative_url title w = (r, w') ->
  number_of_gemini_calls w' <= S (number_of_gemini_calls w).
Proof.
  intros H. destruct title as [| | | |t| |];
    try (unfold _find_alternative_url, raise in H; injection H as _ <-; lia).
  destruct (find_alternative_url_one_call t w) as (r' & w1 & Hrun & Hn & _).
  rewrite Hrun in H. injection H as _ <-. lia.
Qed.

(** X8.  Whenever [validate_citation_url] returns the verdict [False], the
    URL and the title it returns are the ones it was given. *)
Theorem validate_citation_url_invalid_keeps_original (url : str) (title : json)
    (w w' : World) (final_url : str) (final_title : json) :
  validate_citation_url url title w = (Ok (false, final_url, final_title), w') ->
  final_url = url /\ final_title = title.
Proof.
  unfold validate_citation_url, bind. intros H.
  repeat (case_match; cbv [ret raise] in *; try discriminate); by simplify_eq.
Qed.

Lemma validate_citation_url_gemini (url : str) (title : json) :
  calls_at_most 2 (validate_citation_url url title).
Proof.
  assert (Halt : calls_at_most 1 (_find_alternative_url title)).
  { intros w r w' H. apply find_alternative_url_gemini in H. lia. }
  assert (Hspec : forall f, calls_at_most 1 (_find_specific_page_url title f)).
  { intros f w r w' H. apply find_specific_page_url_gemini in H. lia. }
  unfold validate_citation_url.
  destruct (negb (sliceable title)); [apply (calls_weaken 0); [lia|apply calls_raise]|].
  apply (calls_bind 0 2); [apply calls_of_steps, check_url_status_no_gemini_call|].
  intros [v f]. apply (calls_bind 1 1).
  - destruct (negb (_is_specific_page_url f)).
    + apply (calls_bind 1 0); [apply Hspec|]. intros [s|]; apply calls_ret.
    + apply (calls_weaken 0); [lia|apply calls_ret].
  - intros f'. destruct v; [destruct (_should_filter_url f' _ _)|].
    + apply (calls_bind 1 0); [apply Halt|]. intros [[u t]|]; apply calls_ret.
    + apply (calls_weaken 0); [lia|apply calls_ret].
    + apply (calls_bind 1 0); [apply Halt|]. intros [[u t]|]; [|apply calls_ret].
      destruct (sliceable t); [apply calls_ret | apply calls_raise].
Qed.

(** X9.  [validate_citation_url] calls [gemini_client.generate_content] at
    most twice, whatever the outside answers and whether it returns or
    raises.  (What the client does inside one call, its retries included, is
    not counted.) *)
Theorem validate_citation_url_at_most_two_gemini_calls (url : str) (title : json)
    (w : World) :
  number_of_gemini_calls (snd (validate_citation_url url title w))
  <= number_of_gemini_calls w + 2.
Proof.
  destruct (validate_citation_url url title w) as [r w'] eqn:E.
  by eapply validate_citation_url_gemini.
Qed.

(** *** The batch *)

Lemma gather_run_steps {A} (R : World -> World -> Prop) `{!PreOrder R}
    (tasks : list (M A)) (schedule : list nat) :
  (forall i task, tasks !! i = Some task -> steps R task) ->
  forall slots w, R w (snd (gather_run tasks schedule slots w)).
Proof.
  intros Ht. induction schedule as [|i schedule IH]; intros slots w; simpl.
  - reflexivity.
  - destruct (tasks !! i) as [task|] eqn:E; [|apply IH].
    destruct (task w) as [r w1] eqn:Er.
    etransitivity; [eapply (Ht i task E), Er | apply IH].
Qed.

Lemma validate_single_citation_untouched_outside (citations : list nat) (c : nat) :
  c ∈ citations ->
  steps (untouched_outside citations) (validate_single_citation c).
Proof.
  intros Hin w r w' H r0 Hr0.
  pose proof (validate_single_citation_spec bracketed_netloc_ok nfkc_netloc_ok time_time
                http_head http_get generate_content json_loads company_url competitors
                c w) as Hs.
  destruct (validate_citation_url _ _ w) as [[[[v u] t]|e] w1].
  - destruct Hs as (w2 & Hrun & _ & _ & _ & Hh). rewrite Hrun in H.
    injection H as _ <-. rewrite Hh.
    destruct (Nat.eqb r0 c) eqn:E; [|done]. apply Nat.eqb_eq in E. by subst.
  - destruct Hs as [Hrun Hh]. rewrite Hrun in H. injection H as _ <-. by rewrite Hh.
Qed.

Lemma validate_all_citations_steps (R : World -> World -> Prop) `{!PreOrder R}
    (citations schedule : list nat) (w w' : World) (r : batch_error + list nat) :
  (forall c, c ∈ citations -> steps R (validate_single_citation c)) ->
  validate_all_citations citations company_url competitors schedule w = Some (r, w') ->
  R w w'.
Proof.
  intros Hc H. unfold validate_all_citations in H.
  destruct citations as [|c0 cs] eqn:Ecs; [injection H as _ <-; reflexivity|].
  rewrite <- Ecs in *. unfold asyncio_gather in H.
  assert (Ht : forall i task,
             List.map validate_single_citation citations !! i = Some task ->
             steps R task).
  { intros i task Hi. rewrite list_lookup_fmap in Hi.
    destruct (citations !! i) as [c|] eqn:E; [|discriminate].
    injection Hi as <-. apply Hc. eapply list_elem_of_lookup_2, E. }
  match type of H with context [gather_run ?t ?s ?sl w] =>
    pose proof (gather_run_steps R t s Ht sl w) as Hg;
    destruct (gather_run t s sl w) as [slots w1] end.
  destruct (all_filled slots); [|discriminate]. by injection H as _ <-.
Qed.

(** X10.  For every schedule in which each unit of work finishes once,
    [validate_all_citations] writes to no [Citation] object other than those
    of the list it was given, removes no entry from [_URL_STATUS_CACHE] or
    [_AUTHORITY_CACHE], and leaves [_URL_STATUS_CACHE] without a valid entry
    whose final URL looks like an error page if it had none. *)
Theorem validate_all_citations_footprint (citations schedule : list nat) (w : World) :
  Permutation schedule (seq 0 (length citations)) ->
  exists w',
    validate_all_citations citations company_url competitors schedule w
      = Some (inr citations, w') /\
    (forall r, r ∉ citations -> heap w' r = heap w r) /\
    keeps_keys w w' /\
    (cache_sound w -> cache_sound w').
Proof.
  intros Hperm.
  destruct (validate_all_citations_spec bracketed_netloc_ok nfkc_netloc_ok time_time
              http_head http_get generate_content json_loads company_url competitors
              citations schedule w Hperm) as (w' & Hrun & _).
  exists w'. split; [exact Hrun|]. split.
  - eapply (validate_all_citations_steps (untouched_outside citations)); [|exact Hrun].
    apply validate_single_citation_untouched_outside.
  - pose proof (validate_all_citations_steps caches_kept citations schedule w w' _
                  (fun c _ => validate_single_citation_caches_kept c) Hrun) as [Hs Hk].
    done.
Qed.

Lemma validate_single_citation_gemini (citation : nat) :
  calls_at_most 2 (validate_single_citation citation).
Proof.
  unfold validate_single_citation.
  apply (calls_catch 2 0); [|intros e; apply calls_ret].
  apply (calls_bind 0 2).
  { intros w r w' [= <- <-]. lia. }
  intros c. apply (calls_bind 2 0); [apply validate_citation_url_gemini|].
  intros [[v u] t]. apply (calls_bind 0 0).
  { intros w r w' [= <- <-]. unfold number_of_gemini_calls. cbn. lia. }
  intros _. apply (calls_bind 0 0); [|intros _; apply calls_ret].
  intros w r w' [= <- <-]. unfold number_of_gemini_calls. cbn. lia.
Qed.

Lemma gather_run_gemini {A} (tasks : list (M A)) (schedule : list nat) :
  (forall i task, tasks !! i = Some task -> calls_at_most 2 task) ->
  forall slots w,
    number_of_gemini_calls (snd (gather_run tasks schedule slots w))
    <= number_of_gemini_calls w + 2 * length schedule.
Proof.
  intros Ht. induction schedule as [|i schedule IH]; intros slots w; simpl; [lia|].
  destruct (tasks !! i) as [task|] eqn:E.
  - destruct (task w) as [r w1] eqn:Er. apply (Ht i task E) in Er.
    etransitivity; [apply IH|]. lia.
  - etransitivity; [apply IH|]. lia.
Qed.

(** X11.  For every schedule in which each unit of work finishes once,
    [validate_all_citations] calls [gemini_client.generate_content] at most
    twice for each citation of the list.  (What the client does inside one
    call, its retries included, is not counted.) *)
Theorem validate_all_citations_gemini_budget (citations schedule : list nat)
    (w : World) :
  Permutation schedule (seq 0 (length citations)) ->
  exists w',
    validate_all_citations citations company_url competitors schedule w
      = Some (inr citations, w') /\
    number_of_gemini_calls w' <= number_of_gemini_calls w + 2 * length citations.
Proof.
  intros Hperm.
  destruct (validate_all_citations_spec bracketed_netloc_ok nfkc_netloc_ok time_time
              http_head http_get generate_content json_loads company_url competitors
              citations schedule w Hperm) as (w' & Hrun & _).
  exists w'. split; [exact Hrun|].
  unfold validate_all_citations in Hrun.
  destruct citations as [|c0 cs] eqn:Ecs; [injection Hrun as <-; lia|].
  rewrite <- Ecs in *. unfold asyncio_gather in Hrun.
  assert (Ht : forall i task,
             List.map validate_single_citation citations !! i = Some task ->
             calls_at_most 2 task).
  { intros i task Hi. rewrite list_lookup_fmap in Hi.
    destruct (citations !! i) as [c|]; [|discriminate].
    injection Hi as <-. apply validate_single_citation_gemini. }
  match type of Hrun with context [gather_run ?t ?s ?sl w] =>
    pose proof (gather_run_gemini t s Ht sl w) as Hg;
    destruct (gather_run t s sl w) as [slots w1] end.
  destruct (all_filled slots); [|discriminate]. injection Hrun as _ <-.
  cbn [snd] in Hg. apply Permutation_length in Hperm. rewrite length_seq in Hperm.
  lia.
Qed.

End ValidatorFacts.

(** ** The clean-up of the caches *)

Lemma del_all_spec {V} (keys : list str) :
  forall cache : gmap str V,
  NoDup keys -> (forall k, k ∈ keys -> is_Some (cache !! k)) ->
  exists cache',
    del_all keys cache = (None, cache') /\
    forall k, cache' !! k = if bool_decide (k ∈ keys) then None else cache !! k.
Proof.
  induction keys as [|key keys IH]; intros cache Hnd Hin; cbn [del_all].
  - exists cache. split; [done|]. intros k. rewrite bool_decide_eq_false_2; [done|].
    apply not_elem_of_nil.
  - apply NoDup_cons in Hnd as [Hnotin Hnd].
    destruct (Hin key) as [v Hv]; [by apply elem_of_cons; left|]. rewrite Hv.
    destruct (IH (delete key cache) Hnd) as (cache' & Hd & Hl).
    { intros k Hk. rewrite lookup_delete_ne; [apply Hin; by apply elem_of_cons; right|].
      intros ->. done. }
    exists cache'. split; [exact Hd|]. intros k. rewrite Hl.
    destruct (decide (k = key)) as [->|Hne].
    + rewrite (bool_decide_eq_false_2 _ Hnotin).
      rewrite bool_decide_eq_true_2 by (apply elem_of_cons; by left).
      apply lookup_delete_eq.
    + rewrite lookup_delete_ne by done.
      destruct (decide (k ∈ keys)) as [Hk|Hk].
      * rewrite !bool_decide_eq_true_2; [done| |done]. apply elem_of_cons; by right.
      * rewrite !bool_decide_eq_false_2; [done| |done].
        intros [?|?]%elem_of_cons; done.
Qed.

Lemma expired_urls_spec (t : Z) (cache : gmap str (bool * str * Z)) (k : str) :
  k ∈ expired_urls t cache <->
  exists v f ts, cache !! k = Some (v, f, ts) /\ is_expired t ts = true.
Proof.
  unfold expired_urls. rewrite list_elem_of_fmap. split.
  - intros [[k' [[v f] ts]] [-> Hin]].
    apply list_elem_of_In, filter_In in Hin as [Hin Hp].
    apply list_elem_of_In, elem_of_map_to_list in Hin. exists v, f, ts. done.
  - intros (v & f & ts & Hl & He). exists (k, (v, f, ts)). split; [done|].
    apply list_elem_of_In, filter_In. split; [|done].
    apply list_elem_of_In, elem_of_map_to_list. done.
Qed.

Lemma expired_queries_spec (t : Z) (cache : gmap str (option (str * str) * Z)) (k : str) :
  k ∈ expired_queries t cache <->
  exists r ts, cache !! k = Some (r, ts) /\ is_expired t ts = true.
Proof.
  unfold expired_queries. rewrite list_elem_of_fmap. split.
  - intros [[k' [r ts]] [-> Hin]].
    apply list_elem_of_In, filter_In in Hin as [Hin Hp].
    apply list_elem_of_In, elem_of_map_to_list in Hin. exists r, ts. done.
  - intros (r & ts & Hl & He). exists (k, (r, ts)). split; [done|].
    apply list_elem_of_In, filter_In. split; [|done].
    apply list_elem_of_In, elem_of_map_to_list. done.
Qed.

Lemma List_filter_sublist {T} (P : T -> bool) (l : list T) :
  List.filter P l `sublist_of` l.
Proof.
  induction l as [|x l IH]; simpl; [constructor|].
  destruct (P x); [by apply sublist_skip | by apply sublist_cons].
Qed.

Lemma NoDup_fst_filter {V} (P : str * V -> bool) (cache : gmap str V) :
  NoDup (List.map fst (List.filter P (map_to_list cache))).
Proof.
  pose proof (NoDup_fst_map_to_list cache) as H.
  eapply sublist_NoDup; [exact H|].
  apply (fmap_sublist fst), List_filter_sublist.
Qed.
Section MaintenanceFacts.

Variable time_time : nat -> Z.
Variable http_head : nat -> str -> result (Z * str).
Variable http_get : nat -> str -> result (Z * str).

Local Abbreviation _cleanup_expired_cache := (_cleanup_expired_cache time_time).
Local Abbreviation _check_url_status := (_check_url_status time_time http_head http_get).

Lemma cleanup_spec (w : World) :
  exists w',
    _cleanup_expired_cache w = (None, w') /\
    history w' = EvTime :: history w /\
    heap w' = heap w /\
    (forall url,
        status_cache w' !! url =
        match status_cache w !! url with
        | Some (is_valid, final_url, timestamp) =>
            if is_expired (time_time (length (history w))) timestamp then None
            else Some (is_valid, final_url, timestamp)
        | None => None
        end) /\
    (forall query,
        authority_cache w' !! query =
        match authority_cache w !! query with
        | Some (result, timestamp) =>
            if is_expired (time_time (length (history w))) timestamp then None
            else Some (result, timestamp)
        | None => None
        end).
Proof.
  unfold _cleanup_expired_cache. cbn [status_cache authority_cache log_event history heap].
  set (t := time_time (length (history w))).
  destruct (del_all_spec (expired_urls t (status_cache w)) (status_cache w))
    as (c1 & Hd1 & Hl1).
  { apply NoDup_fst_filter. }
  { intros k (v & f & ts & Hl & _)%expired_urls_spec. by rewrite Hl. }
  destruct (del_all_spec (expired_queries t (authority_cache w)) (authority_cache w))
    as (c2 & Hd2 & Hl2).
  { apply NoDup_fst_filter. }
  { intros k (r & ts & Hl & _)%expired_queries_spec. by rewrite Hl. }
  rewrite Hd1, Hd2. eexists. split; [reflexivity|]. cbn.
  split; [done|]. split; [done|]. split.
  - intros url. rewrite Hl1.
    destruct (status_cache w !! url) as [[[v f] ts]|] eqn:E.
    + destruct (is_expired t ts) eqn:He.
      * rewrite bool_decide_eq_true_2; [done|]. apply expired_urls_spec. eauto.
      * rewrite bool_decide_eq_false_2; [done|].
        intros (v' & f' & ts' & Hl & He')%expired_urls_spec. congruence.
    + by destruct (bool_decide _).
  - intros query. rewrite Hl2.
    destruct (authority_cache w !! query) as [[r ts]|] eqn:E.
    + destruct (is_expired t ts) eqn:He.
      * rewrite bool_decide_eq_true_2; [done|]. apply expired_queries_spec. eauto.
      * rewrite bool_decide_eq_false_2; [done|].
        intros (r' & ts' & Hl & He')%expired_queries_spec. congruence.
    + by destruct (bool_decide _).
Qed.

(** The answer of a probe and the requests it makes do not depend on what
    the caches hold. *)

(** X12.  [_cleanup_expired_cache] never raises (every key it deletes is in
    the dictionary), reads the clock once and leaves the [Citation] objects
    alone.  It removes from [_URL_STATUS_CACHE] and from [_AUTHORITY_CACHE]
    exactly the entries stored more than [_CACHE_TTL] seconds before the time
    it read; every other entry is kept as it is. *)
Theorem cleanup_removes_exactly_the_expired (w : World) :
  exists w',
    _cleanup_expired_cache w = (None, w') /\
    history w' = EvTime :: history w /\
    heap w' = heap w /\
    (forall url,
        status_cache w' !! url =
        match status_cache w !! url with
        | Some (is_valid, final_url, timestamp) =>
            if is_expired (time_time (length (history w))) timestamp then None
            else Some (is_valid, final_url, timestamp)
        | None => None
        end) /\
    (forall query,
        authority_cache w' !! query =
        match authority_cache w !! query with
        | Some (result, timestamp) =>
            if is_expired (time_time (length (history w))) timestamp then None
            else Some (result, timestamp)
        | None => None
        end).
Proof. apply cleanup_spec. Qed.

Lemma probe_cache_independent (url : str) (t : Z) (wa wb : World) :
  history wa = history wb ->
  fst (probe http_head http_get url t wa) = fst (probe http_head http_get url t wb) /\
  history (snd (probe http_head http_get url t wa))
  = history (snd (probe http_head http_get url t wb)).
Proof.
  intros Hh. unfold probe, catch, bind, head. rewrite Hh.
  destruct (http_head _ url) as [[code f]|e]; cbn; [|by rewrite Hh].
  unfold classify.
  destruct (Z.eqb code 200).
  { destruct (_is_error_page_url f); cbn; by rewrite Hh. }
  destruct (Z.eqb code 404); [cbn; by rewrite Hh|].
  destruct (is_redirect code); [|cbn; by rewrite Hh].
  unfold follow_redirect, catch, bind, get. cbn. rewrite Hh.
  destruct (http_get _ f) as [[c2 f2]|e]; cbn.
  - destruct (_ && _); cbn; by rewrite Hh.
  - destruct e; cbn; by rewrite Hh.
Qed.

(** X13.  The clean-up is not seen by [_check_url_status]: if the clock
    does not go back between the two, a call made after
    [_cleanup_expired_cache] returns the same verdict and final URL, and
    makes the same requests, as the same call made with the caches left
    untouched. *)
Theorem cleanup_invisible_to_check_url_status (url : str) (w : World) :
  (time_time (length (history w)) <= time_time (S (length (history w))))%Z ->
  let cleaned := snd (_cleanup_expired_cache w) in
  let untouched := log_event EvTime w in
  fst (_check_url_status url cleaned) = fst (_check_url_status url untouched) /\
  history (snd (_check_url_status url cleaned))
  = history (snd (_check_url_status url untouched)).
Proof.
  intros Hmono cleaned untouched.
  destruct (cleanup_spec w) as (w' & Hc & Hh & _ & Hs & _).
  assert (Hcl : cleaned = w') by (unfold cleaned; by rewrite Hc). rewrite Hcl. clear Hcl cleaned.
  assert (Hhist : history (log_event EvTime w') = history (log_event EvTime untouched)).
  { cbn. by rewrite Hh. }
  unfold _check_url_status, bind, now, get_status_cache.
  cbn [status_cache log_event].
  rewrite Hh. cbn [history untouched log_event length].
  rewrite (Hs url).
  change (status_cache untouched) with (status_cache w).
  set (t' := time_time (S (length (history w)))) in *.
  destruct (status_cache w !! url) as [[[v f] ts]|] eqn:E.
  - destruct (is_expired _ ts) eqn:He.
    + assert (Hn : (t' - ts <? (if v then _CACHE_TTL else _FAILED_URL_TTL))%Z = false).
      { apply Z.ltb_ge. unfold is_expired in He. apply Z.ltb_lt in He.
        unfold _CACHE_TTL, _FAILED_URL_TTL in *. destruct v; lia. }
      rewrite Hn. by apply probe_cache_independent.
    + destruct (_ <? _)%Z; [cbn; by rewrite Hh|]. by apply probe_cache_independent.
  - by apply probe_cache_independent.
Qed.

End MaintenanceFacts.

(** ** The pure helpers *)

Lemma endswith_spec (s p : str) :
  endswith s p = true <-> exists r, s = r ++ p.
Proof.
  unfold endswith. rewrite startswith_spec. split.
  - intros [r Hr]. exists (rev r). apply (f_equal (@rev N)) in Hr.
    rewrite rev_involutive in Hr. rewrite Hr, rev_app_distr, rev_involutive. done.
  - intros [r ->]. exists (rev r). by rewrite rev_app_distr.
Qed.

(** X14.  Whenever [_is_subdomain a b] holds, [a] is strictly longer than
    [b], [_is_subdomain b a] does not hold, and [a] is a subdomain of every
    [c] that [b] is a subdomain of (the relation is transitive). *)
Theorem is_subdomain_transitive (a b c : str) :
  _is_subdomain a b = true ->
  length b < length a /\
  _is_subdomain b a = false /\
  (_is_subdomain b c = true -> _is_subdomain a c = true).
Proof.
  rewrite !is_subdomain_spec, !endswith_spec.
  intros (Ha & Hb & [p ->]).
  split; [|split].
  - rewrite !length_app. cbn. lia.
  - apply not_true_iff_false. rewrite is_subdomain_spec, endswith_spec.
    intros (_ & _ & [r Hr]). apply (f_equal (@length N)) in Hr.
    rewrite !length_app in Hr. cbn in Hr. lia.
  - intros (_ & Hc & [q ->]).
    split; [done|]. split; [done|]. exists (p ++ py "." ++ q).
    by rewrite <- !app_assoc.
Qed.

Lemma find_sub_Some (sub s : str) (i : nat) :
  find_sub sub s = Some i -> exists a b, s = a ++ sub ++ b /\ length a = i.
Proof.
  revert i. induction s as [|x s IH]; intros i; simpl.
  - destruct (startswith [] sub) eqn:E; [|discriminate].
    intros [= <-]. apply startswith_spec in E as [r Hr]. exists [], r. done.
  - destruct (startswith (x :: s) sub) eqn:E.
    + intros [= <-]. apply startswith_spec in E as [r Hr]. exists [], r. done.
    + destruct (find_sub sub s) as [j|]; [|discriminate]. intros [= <-].
      destruct (IH j eq_refl) as (a & b & -> & <-). exists (x :: a), b. done.
Qed.

(** [find] gives the first occurrence. *)
Lemma find_sub_first (sub s : str) (i : nat) :
  find_sub sub s = Some i ->
  forall a b, s = a ++ sub ++ b -> i <= length a.
Proof.
  revert i. induction s as [|x s IH]; intros i; simpl.
  - destruct (startswith [] sub); [|discriminate]. intros [= <-] a b _. lia.
  - destruct (startswith (x :: s) sub) eqn:E.
    + intros [= <-] a b _. lia.
    + destruct (find_sub sub s) as [j|] eqn:Ej; [|discriminate]. intros [= <-] a b Hs.
      destruct a as [|y a].
      * exfalso. simpl in Hs. rewrite Hs in E.
        assert (startswith (sub ++ b) sub = true) by (apply startswith_spec; eauto).
        congruence.
      * injection Hs as _ Hs. simpl. apply le_n_S. by eapply IH.
Qed.

Lemma find_sub_app (sub a b : str) : is_Some (find_sub sub (a ++ sub ++ b)).
Proof.
  induction a as [|x a IH]; simpl.
  - assert (E : startswith (sub ++ b) sub = true) by (apply startswith_spec; eauto).
    destruct (sub ++ b) as [|y l] eqn:El; simpl; [by rewrite E|].
    rewrite <- El at 1. simpl in E. 
    destruct sub as [|z sub]; [done|]. simpl. injection El as -> ->. 
    simpl in E. by rewrite E.
  - destruct (startswith (x :: a ++ sub ++ b) sub); [done|].
    destruct IH as [j ->]. done.
Qed.

Lemma contains_spec (sub s : str) :
  contains sub s = true <-> exists a b, s = a ++ sub ++ b.
Proof.
  unfold contains. rewrite bool_decide_eq_true. split.
  - intros [i Hi]. apply find_sub_Some in Hi as (a & b & -> & _). eauto.
  - intros (a & b & ->). apply find_sub_app.
Qed.

Lemma lower_app (a b : str) : lower (a ++ b) = lower a ++ lower b.
Proof. unfold lower. apply map_app. Qed.

Lemma lower_char_idemp (c : N) : lower_char (lower_char c) = lower_char c.
Proof.
  unfold lower_char, isupper_ascii.
  destruct ((65 <=? c) && (c <=? 90))%N eqn:E; [|by rewrite E].
  apply andb_true_iff in E as [E1 E2]. apply N.leb_le in E1, E2.
  assert (E3 : ((65 <=? c + 32) && (c + 32 <=? 90))%N = false).
  { apply andb_false_iff. right. apply N.leb_gt. lia. }
  by rewrite E3.
Qed.

Lemma lower_idemp (s : str) : lower (lower s) = lower s.
Proof.
  unfold lower. rewrite map_map. apply map_ext. intros c. apply lower_char_idemp.
Qed.

(** X15.  A URL that has, anywhere inside it, a text that
    [_is_error_page_url] takes for an error page is itself taken for an
    error page. *)
Theorem is_error_page_url_anywhere (inside before after : str) :
  _is_error_page_url inside = true ->
  _is_error_page_url (before ++ inside ++ after) = true.
Proof.
  unfold _is_error_page_url. rewrite !existsb_exists.
  intros (p & Hin & Hc). exists p. split; [done|].
  apply contains_spec in Hc as (a & b & Hab).
  apply contains_spec. rewrite !lower_app, Hab.
  exists (lower before ++ a), (b ++ lower after). by rewrite <- !app_assoc.
Qed.

Section FilterMore.

Variable bracketed_netloc_ok : str -> bool.
Variable nfkc_netloc_ok : str -> bool.

Local Abbreviation urlparse := (UrlLib.urlparse bracketed_netloc_ok nfkc_netloc_ok).
Local Abbreviation host_of := (host_of bracketed_netloc_ok nfkc_netloc_ok).
Local Abbreviation _should_filter_url :=
  (_should_filter_url bracketed_netloc_ok nfkc_netloc_ok).
Local Abbreviation _normalize_url := (_normalize_url bracketed_netloc_ok nfkc_netloc_ok).

(** X16.  When the company URL is not empty and [urlparse] raises on it,
    [_should_filter_url] filters the forbidden hosts and nothing else: the
    company and the competitors are not looked at, whatever the list of
    competitors holds. *)
Theorem should_filter_url_company_unparsable (url company_url : str)
    (competitors : list str) :
  company_url <> [] ->
  urlparse company_url = None ->
  (_should_filter_url url company_url competitors = true <->
   exists host, host_of url = Some host /\ In host FORBIDDEN_HOSTS).
Proof.
  intros Hne Hc. unfold _should_filter_url, should_filter_body, host_of.
  destruct (urlparse url) as [parsed|]; cbn [fmap option_fmap option_map].
  2:{ split; [discriminate|]. intros (h & [=] & _). }
  destruct (in_list _ FORBIDDEN_HOSTS) eqn:E.
  - split; [|done]. intros _. eexists. split; [reflexivity|]. by apply in_list_In.
  - destruct company_url; [done|]. rewrite Hc. split; [discriminate|].
    intros (h & [= <-] & Hin). apply in_list_In in Hin. congruence.
Qed.

(** X17.  Normalising does not change what the domain filter says: when
    [urlparse] accepts the input of [_normalize_url] (stripped, with
    [https://] in front when it has no protocol) and finds a netloc that is
    not empty, the URL returned has the same normalised host and gets the same
    answer from [_should_filter_url] as that input. *)
Theorem should_filter_url_after_normalize (url out company_url : str)
    (competitors : list str) (parsed : ParseResult) :
  urlparse (with_protocol url) = Some parsed ->
  netloc parsed <> [] ->
  _normalize_url url = Some out ->
  host_of out = host_of (with_protocol url) /\
  _should_filter_url out company_url competitors
  = _should_filter_url (with_protocol url) company_url competitors.
Proof.
  intros Hp Hnl Hn.
  set (nq := join (py "&") (List.filter keep_param (split_char 38%N (query parsed)))).
  assert (Hout : out = urlunparse (mkParse (scheme parsed) (netloc parsed) (path parsed)
                                      (params parsed) nq (fragment parsed))).
  { unfold _normalize_url in Hn. rewrite Hp in Hn. unfold nq.
    destruct (List.filter keep_param _) as [|q qs]; by injection Hn as <-. }
  destruct (urlparse_query_facts _ _ _ _ (with_protocol_cases url) Hp) as [H35 Hsafe].
  assert (Hparse : urlparse out
                   = Some (mkParse (scheme parsed) (netloc parsed) (path parsed)
                             (params parsed) nq (fragment parsed))).
  { rewrite Hout.
    apply (urlparse_urlunparse _ _ _ _ _ (with_protocol_cases url) Hp Hnl).
    - apply mem_char_forallb. apply new_query_forallb; [reflexivity|].
      by apply mem_char_forallb.
    - apply new_query_forallb; [reflexivity | exact Hsafe]. }
  split.
  - unfold host_of. by rewrite Hparse, Hp.
  - unfold _should_filter_url, should_filter_body. by rewrite Hparse, Hp.
Qed.

End FilterMore.

(** *** [_is_specific_page_url] and [_normalize_hostname] *)

Lemma replace_go_sublist (old : str) (s : str) :
  forall k, replace_go old [] k s `sublist_of` s.
Proof.
  induction s as [|c s IH]; intros k; simpl; [constructor|].
  destruct k as [|k]; [|by apply sublist_cons].
  destruct (startswith (c :: s) old); [by apply sublist_cons | by apply sublist_skip].
Qed.

Lemma replace_absent (old s : str) :
  (forall a b, s <> a ++ old ++ b) -> replace old [] s = s.
Proof.
  unfold replace. induction s as [|c s IH]; intros H; simpl; [done|].
  destruct (startswith (c :: s) old) eqn:E.
  - apply startswith_spec in E as [r Hr]. destruct (H [] r). exact Hr.
  - f_equal. apply IH. intros a b ->. by apply (H (c :: a) b).
Qed.

Lemma split_char_nonempty (c : char) (s : str) : split_char c s <> [].
Proof.
  destruct s as [|x s]; simpl; [done|].
  destruct (N.eqb x c); [done|]. by destruct (split_char c s).
Qed.

Lemma join_split_char (c : char) (s : str) : join [c] (split_char c s) = s.
Proof.
  induction s as [|x s IH]; simpl; [done|].
  pose proof (split_char_nonempty c s) as Hne.
  destruct (split_char c s) as [|w ws] eqn:Es; [done|].
  destruct (N.eqb x c) eqn:E.
  - apply N.eqb_eq in E as ->.
    change (join [c] ([] :: w :: ws)) with ([] ++ [c] ++ join [c] (w :: ws)).
    by rewrite IH.
  - destruct ws as [|w' ws]; rewrite <- IH; reflexivity.
Qed.

Lemma lstrip_by_head (P : char -> bool) (c : char) (s : str) :
  P c = false -> lstrip_by P (c :: s) = c :: s.
Proof. intros H. simpl. by rewrite H. Qed.

Lemma lstrip_by_In (P : char -> bool) (s : str) (x : char) :
  In x (lstrip_by P s) -> In x s.
Proof.
  induction s as [|c s IH]; simpl; [done|].
  destruct (P c); [intros H; right; by apply IH | done].
Qed.

Lemma strip_by_In (P : char -> bool) (s : str) (x : char) :
  In x (strip_by P s) -> In x s.
Proof.
  unfold strip_by, rstrip_by. intros H. apply in_rev in H.
  apply lstrip_by_In in H. apply in_rev in H. by apply lstrip_by_In in H.
Qed.

Lemma mem_char_In (c : char) (s : str) : mem_char c s = true <-> In c s.
Proof.
  unfold mem_char. rewrite existsb_exists. split.
  - intros (x & Hin & <-%N.eqb_eq). done.
  - intros H. exists c. split; [done | apply N.eqb_refl].
Qed.

Lemma strip_by_ends (P : char -> bool) (s : str) (first last : char) (middle : str) :
  s = first :: middle ++ [last] -> P first = false -> P last = false ->
  strip_by P s = s.
Proof.
  intros -> Hf Hl. unfold strip_by, rstrip_by. rewrite lstrip_by_head by done.
  assert (H : rev (first :: middle ++ [last]) = last :: rev (first :: middle)).
  { change (first :: middle ++ [last]) with ((first :: middle) ++ [last]).
    by rewrite rev_app_distr. }
  rewrite H, lstrip_by_head by done. rewrite <- H. apply rev_involutive.
Qed.
(** The text that [_is_specific_page_url] looks at is the same with and
    without the protocol. *)
Lemma specific_page_scheme (scheme rest : str) :
  scheme = [] \/ scheme = py "http://" \/ scheme = py "https://" ->
  replace (py "http://") [] (replace (py "https://") [] (scheme ++ rest))
  = replace (py "http://") [] (replace (py "https://") [] rest).
Proof. intros [->|[->| ->]]; reflexivity. Qed.

Lemma lstrip_by_replicate (P : char -> bool) (c : char) (k : nat) (s : str) :
  P c = true -> lstrip_by P (replicate k c ++ s) = lstrip_by P s.
Proof. intros H. induction k as [|k IH]; simpl; [done|]. by rewrite H. Qed.

Lemma rev_replicate (c : char) (k : nat) : rev (replicate k c) = replicate k c.
Proof.
  induction k as [|k IH]; simpl; [done|]. rewrite IH.
  clear IH. induction k as [|k IH]; simpl; [done|]. by rewrite IH.
Qed.

Lemma all_equal_replicate (c : char) (l : str) :
  (forall x, In x l -> x = c) -> l = replicate (length l) c.
Proof.
  induction l as [|y l IH]; intros H; simpl; [done|].
  rewrite (H y) by (by left). f_equal. apply IH. intros x Hx. apply H. by right.
Qed.

Lemma strip_host_then_slashes (a : str) (k : nat) :
  mem_char 47%N a = false ->
  mem_char 47%N (strip_chars (py "/") (a ++ replicate k 47%N)) = false.
Proof.
  intros Ha. apply not_true_iff_false. rewrite mem_char_In. intros Hin.
  apply not_true_iff_false in Ha. apply Ha, mem_char_In.
  unfold strip_chars, strip_by, rstrip_by in Hin.
  destruct a as [|c a].
  - exfalso. cbn [app] in Hin.
    rewrite <- (app_nil_r (replicate k 47%N)) in Hin.
    rewrite lstrip_by_replicate in Hin by reflexivity. done.
  - cbn [app] in Hin. rewrite lstrip_by_head in Hin.
    2:{ apply not_true_iff_false. intros Hc. apply Ha, mem_char_In. left.
        cbn in Hc. rewrite orb_false_r in Hc. by apply N.eqb_eq in Hc. }
    change (c :: a ++ replicate k 47%N) with ((c :: a) ++ replicate k 47%N) in Hin.
    rewrite rev_app_distr, rev_replicate in Hin.
    rewrite lstrip_by_replicate in Hin by reflexivity.
    apply in_rev in Hin. apply lstrip_by_In in Hin. by apply in_rev in Hin.
Qed.

Lemma bare_domain_aux (protocol host : str) (k : nat) :
  protocol = [] \/ protocol = py "http://" \/ protocol = py "https://" ->
  mem_char 47%N host = false ->
  _is_specific_page_url (protocol ++ host ++ replicate k 47%N) = false.
Proof.
  intros Hp Hh. unfold _is_specific_page_url.
  destruct (protocol ++ host ++ replicate k 47%N) as [|c0 u0] eqn:Eu; [done|].
  rewrite <- Eu. rewrite (specific_page_scheme protocol _ Hp).
  set (cleaned := replace (py "http://") [] (replace (py "https://") []
                                               (host ++ replicate k 47%N))).
  assert (Hsub : cleaned `sublist_of` host ++ replicate k 47%N).
  { unfold cleaned, replace. etransitivity; apply replace_go_sublist. }
  apply sublist_app_r in Hsub as (k1 & k2 & Hc & H1 & H2).
  assert (Hk1 : mem_char 47%N k1 = false).
  { apply not_true_iff_false. rewrite mem_char_In. intros Hin.
    apply not_true_iff_false in Hh. apply Hh, mem_char_In.
    apply list_elem_of_In. apply list_elem_of_In in Hin.
    eapply elem_of_submseteq; [exact Hin | by apply sublist_submseteq]. }
  assert (Hk2 : k2 = replicate (length k2) 47%N).
  { apply all_equal_replicate. intros x Hx. apply list_elem_of_In in Hx.
    assert (Hx' : x ∈ replicate k 47%N)
      by (eapply elem_of_submseteq; [exact Hx | by apply sublist_submseteq]).
    by apply elem_of_replicate in Hx' as [-> _]. }
  rewrite Hc, Hk2, (strip_host_then_slashes k1 _ Hk1). reflexivity.
Qed.

(** X18.  A URL that is only a host, with [http://], [https://] or no
    protocol in front and any number of slashes behind, is never a specific
    page for [_is_specific_page_url]. *)
Theorem bare_domain_is_not_specific (protocol host : str) (k : nat) :
  protocol = [] \/ protocol = py "http://" \/ protocol = py "https://" ->
  mem_char 47%N host = false ->
  _is_specific_page_url (protocol ++ host ++ replicate k 47%N) = false.
Proof. apply bare_domain_aux. Qed.

(** X19.  For a URL made of an optional protocol, a host and a path behind
    one slash, with no doubled slash behind the protocol and no slash at the
    end, [_is_specific_page_url] answers [True] exactly when the lower-cased
    path is none of the names of a home page ([index.html], [index], [home],
    [homepage], [default] and the empty path). *)
Theorem is_specific_page_url_spec (protocol host path : str) :
  protocol = [] \/ protocol = py "http://" \/ protocol = py "https://" ->
  host <> [] ->
  mem_char 47%N host = false ->
  contains (py "//") (host ++ py "/" ++ path) = false ->
  endswith path (py "/") = false ->
  _is_specific_page_url (protocol ++ host ++ py "/" ++ path)
  = negb (in_list (lower path) index_names).
Proof.
  intros Hp Hne Hh Hdd Hend.
  destruct path as [|p0 path0] eqn:Epath.
  { change (py "/" ++ []) with (replicate 1 47%N).
    by rewrite bare_domain_aux. }
  rewrite <- Epath in *.
  unfold _is_specific_page_url.
  destruct (protocol ++ host ++ py "/" ++ path) as [|c0 u0] eqn:Eu.
  { destruct protocol, host; discriminate. }
  rewrite <- Eu. rewrite (specific_page_scheme protocol _ Hp).
  set (rest := host ++ py "/" ++ path) in *.
  assert (Hno : forall old, (exists x, old = x ++ py "//") ->
                forall a b, rest <> a ++ old ++ b).
  { intros old [x ->] a b Hr. apply not_true_iff_false in Hdd. apply Hdd.
    apply contains_spec. exists (a ++ x), b. rewrite Hr. by rewrite <- !app_assoc. }
  rewrite (replace_absent (py "https://") rest)
    by (apply Hno; by exists (py "https:")).
  rewrite (replace_absent (py "http://") rest)
    by (apply Hno; by exists (py "http:")).
  destruct host as [|h0 host0]; [done|].
  destruct (exists_last (l := path)) as (path1 & pl & Hpl); [by rewrite Epath|].
  assert (Hh0 : mem_char h0 (py "/") = false).
  { unfold mem_char in *. change (py "/") with [47%N]. cbn [existsb] in *.
    apply orb_false_iff in Hh as [Hh _]. by rewrite N.eqb_sym, Hh. }
  assert (Hlast : mem_char pl (py "/") = false).
  { rewrite Hpl in Hend. unfold endswith in Hend. rewrite rev_app_distr in Hend.
    change (py "/") with [47%N] in *. cbn [rev app startswith] in Hend.
    rewrite andb_true_r in Hend. unfold mem_char. cbn [existsb].
    by rewrite orb_false_r, N.eqb_sym. }
  assert (Hstrip : strip_chars (py "/") rest = rest).
  { unfold strip_chars. eapply (strip_by_ends _ _ h0 pl (host0 ++ py "/" ++ path1));
      [|exact Hh0|exact Hlast].
    unfold rest. rewrite Hpl. cbn [app]. by rewrite <- !app_assoc. }
  rewrite Hstrip.
  assert (Hsplit : split_char 47%N rest = (h0 :: host0) :: split_char 47%N path).
  { unfold rest. change (py "/" ++ path) with (47%N :: path).
    by apply split_char_app_sep. }
  assert (Hmem : mem_char 47%N rest = true).
  { apply mem_char_In. unfold rest. apply in_or_app. right. by left. }
  rewrite Hmem, Hsplit. cbn [negb].
  pose proof (split_char_nonempty 47%N path) as Hne2.
  destruct (split_char 47%N path) as [|w ws] eqn:Es; [done|].
  cbn [length Nat.leb drop]. rewrite <- Es.
  change (py "/") with [47%N]. rewrite join_split_char.
  rewrite Epath at 1. reflexivity.
Qed.

Lemma lower_char_dot (c : char) : lower_char c = 46%N -> c = 46%N.
Proof.
  unfold lower_char, isupper_ascii.
  destruct ((65 <=? c) && (c <=? 90))%N eqn:E; [|done].
  apply andb_true_iff in E as [E1 E2]. apply N.leb_le in E1, E2. lia.
Qed.

(** X20.  On host names written in ASCII, where [lower] is Python's
    [str.lower], [_normalize_hostname] takes off one [www.] in front, written
    in upper or lower case, and lower-cases the rest: an ASCII host that
    begins with neither a dot nor [www.] and the same host behind [www.] are
    both mapped to the lower-cased host. *)
Theorem normalize_hostname_www (prefix host : str) :
  forallb UrlLib.isascii host = true ->
  lower prefix = py "www." ->
  startswith host (py ".") = false ->
  startswith (lower host) (py "www.") = false ->
  _normalize_hostname (prefix ++ host) = lower host /\
  _normalize_hostname host = lower host.
Proof.
  intros _ Hp Hdot Hwww. split.
  - unfold _normalize_hostname.
    destruct (prefix ++ host) as [|c0 r0] eqn:E.
    { apply app_eq_nil in E as [-> _]. discriminate. }
    rewrite <- E, lower_app, Hp.
    change (lstrip_chars (py ".") (py "www." ++ lower host))
      with (py "www." ++ lower host).
    assert (Hs : startswith (py "www." ++ lower host) (py "www.") = true)
      by (apply startswith_spec; eauto).
    rewrite Hs. reflexivity.
  - unfold _normalize_hostname. destruct host as [|c h]; [done|].
    assert (Hl : lstrip_chars (py ".") (lower (c :: h)) = lower (c :: h)).
    { unfold lstrip_chars. cbn [lower List.map]. apply lstrip_by_head.
      unfold mem_char. change (py ".") with [46%N]. cbn [existsb].
      rewrite orb_false_r. apply N.eqb_neq. intros Hc. apply lower_char_dot in Hc.
      subst c. change (py ".") with [46%N] in Hdot. cbn [startswith] in Hdot.
      by rewrite N.eqb_refl in Hdot. }
    rewrite Hl, Hwww. reflexivity.
Qed.

(** ** What the patterns match *)

Lemma orelse_Some {R} (a b : option R) (x : R) :
  orelse a b = Some x -> a = Some x \/ b = Some x.
Proof. destruct a; simpl; auto. Qed.

Lemma rep_sound {R} (p : char -> bool) (greedy : bool) (k : str -> option R) (x : R)
    (s : str) :
  forall lo hi,
  rep p lo hi greedy s k = Some x ->
  exists m s', s = m ++ s' /\ forallb p m = true /\ lo <= length m /\
    match hi with Some h => length m <= h | None => True end /\
    k s' = Some x.
Proof.
  assert (Hstop : forall lo (hi : option nat) s0,
    match lo with 0 => k s0 | S _ => None end = Some x ->
    exists m s', s0 = m ++ s' /\ forallb p m = true /\ lo <= length m /\
      match hi with Some h => length m <= h | None => True end /\ k s' = Some x).
  { intros lo hi s0 H. destruct lo; [|discriminate]. exists [], s0.
    split_and!; try done. destruct hi; simpl; [lia|done]. }
  induction s as [|c s IH]; intros lo hi H; simpl in H; [by apply Hstop|].
  destruct (p c && hi_allows hi) eqn:E; [|by apply Hstop].
  apply andb_true_iff in E as [Hp Hhi].
  assert (Hmore : rep p (Nat.pred lo) (Nat.pred <$> hi) greedy s k = Some x \/
                  match lo with 0 => k (c :: s) | S _ => None end = Some x).
  { destruct greedy; apply orelse_Some in H; tauto. }
  destruct Hmore as [Hm|Hs]; [|by apply Hstop].
  apply IH in Hm as (m & s' & -> & Hall & Hlo & Hh & Hk).
  exists (c :: m), s'. split; [done|]. simpl. rewrite Hp, Hall.
  split; [done|]. split; [lia|]. split; [|done].
  destruct hi as [[|h]|]; simpl in *; [done|lia|done].
Qed.

Lemma matchk_sound {R} (r : re) :
  nogrp r = true ->
  forall (s : str) (cs : caps) (k : str -> caps -> option R) (x : R),
  matchk r s cs k = Some x ->
  exists m s', s = m ++ s' /\ lang r m /\ k s' cs = Some x.
Proof.
  induction r as [|c|p|p lo hi g|r1 IH1 r2 IH2|r1 IH1 r2 IH2|n r IH];
    intros Hng s cs k x H; simpl in *.
  - exists [], s. done.
  - destruct s as [|y s]; [discriminate|].
    destruct (N.eqb y c) eqn:E; [|discriminate]. apply N.eqb_eq in E as ->.
    exists [c], s. done.
  - destruct s as [|y s]; [discriminate|].
    destruct (p y) eqn:E; [|discriminate]. exists [y], s. eauto.
  - apply rep_sound in H as (m & s' & -> & ? & ? & ? & ?). exists m, s'. done.
  - apply andb_true_iff in Hng as [H1 H2].
    apply (IH1 H1) in H as (m1 & s1 & -> & Hl1 & H).
    apply (IH2 H2) in H as (m2 & s2 & -> & Hl2 & H).
    exists (m1 ++ m2), s2. split; [by rewrite app_assoc|]. split; [|done].
    exists m1, m2. done.
  - apply andb_true_iff in Hng as [H1 H2].
    apply orelse_Some in H as [H|H].
    + apply (IH1 H1) in H as (m & s' & -> & Hl & H). exists m, s'. auto.
    + apply (IH2 H2) in H as (m & s' & -> & Hl & H). exists m, s'. auto.
  - discriminate.
Qed.

Lemma take_matched (m s' : str) : take (length (m ++ s') - length s') (m ++ s') = m.
Proof.
  rewrite length_app. replace (length m + length s' - length s') with (length m) by lia.
  by rewrite take_app_length.
Qed.

(** A group around a pattern without groups records the text matched. *)
Lemma matchk_group {R} (n : nat) (r : re) (s : str) (cs : caps)
    (k : str -> caps -> option R) (x : R) :
  nogrp r = true ->
  matchk (Grp n r) s cs k = Some x ->
  exists m s', s = m ++ s' /\ lang r m /\ k s' ((n, m) :: cs) = Some x.
Proof.
  intros Hng H. simpl in H.
  apply (matchk_sound r Hng) in H as (m & s' & -> & Hl & H).
  rewrite take_matched in H. exists m, s'. done.
Qed.

Lemma re_match_sound (r : re) (s rest : str) (cs : caps) :
  nogrp r = true ->
  re_match r s = Some (cs, rest) ->
  exists m, s = m ++ rest /\ lang r m /\ cs = [].
Proof.
  intros Hng H. unfold re_match in H.
  apply (matchk_sound r Hng) in H as (m & s' & -> & Hl & [= <- <-]). eauto.
Qed.

Lemma re_search_sound (r : re) (s matched : str) (i : nat) (cs : caps) :
  nogrp r = true ->
  re_search r s = Some (i, matched, cs) ->
  lang r matched /\ exists before after, s = before ++ matched ++ after.
Proof.
  intros Hng. unfold re_search. generalize 0.
  induction s as [|c s IH]; intros j H; cbn [re_search_from] in H.
  - destruct (re_match r []) as [[cs' rest]|] eqn:E; [|discriminate].
    assert (Hm : matched = take (length (@nil N) - length rest) []) by congruence.
    apply (re_match_sound r _ _ _ Hng) in E as (m & Hs & Hl & _).
    symmetry in Hs. apply app_eq_nil in Hs as [-> ->]. cbn in Hm. subst matched.
    split; [done|]. by exists [], [].
  - destruct (re_match r (c :: s)) as [[cs' rest]|] eqn:E.
    + assert (Hm : matched = take (length (c :: s) - length rest) (c :: s))
        by congruence.
      apply (re_match_sound r _ _ _ Hng) in E as (m & Hs & Hl & _).
      rewrite Hs, take_matched in Hm. subst matched. split; [done|].
      exists [], rest. by rewrite Hs.
    + apply IH in H as (Hl & before & after & ->). split; [done|].
      by exists (c :: before), after.
Qed.

Lemma findall_sound (r : re) (s : str) :
  nogrp r = true ->
  forall skip m, In m (findall_go r skip s) -> lang r m.
Proof.
  intros Hng. induction s as [|c s IH]; intros skip m H; cbn [findall_go] in H.
  - destruct skip; [|done].
    destruct (re_match r []) as [[cs rest]|] eqn:E; [|done].
    destruct H as [<-|[]].
    apply (re_match_sound r _ _ _ Hng) in E as (m & Hs & Hl & _).
    symmetry in Hs. apply app_eq_nil in Hs as [-> ->]. done.
  - destruct skip as [|skip]; [|by eapply IH].
    destruct (re_match r (c :: s)) as [[cs rest]|] eqn:E; [|by eapply IH].
    destruct H as [Hm|H]; [|by eapply IH].
    apply (re_match_sound r _ _ _ Hng) in E as (m' & Hs & Hl & _).
    rewrite Hs, take_matched in Hm. by subst m.
Qed.

Lemma lang_lit (s m : str) : s <> [] -> lang (lit s) m -> m = s.
Proof.
  unfold lit. revert m. induction s as [|c s IH]; intros m Hne H; [done|].
  destruct s as [|c' s]; [exact H|].
  cbn [List.map seqs lang] in H. destruct H as (m1 & m2 & -> & -> & H2).
  cbn [List.map] in IH. rewrite (IH m2); done.
Qed.

Lemma lang_opt (p : char -> bool) (m : str) :
  lang (opt p) m -> m = [] \/ exists c, m = [c] /\ p c = true.
Proof.
  intros (Hall & _ & Hlen). destruct m as [|c [|c' m]]; simpl in *; [by left| |lia].
  right. exists c. rewrite andb_true_r in Hall. done.
Qed.

Lemma lang_http_prefix (m : str) :
  lang http_prefix m -> m = py "http://" \/ m = py "https://".
Proof.
  unfold http_prefix. cbn [seqs lang].
  intros (m1 & m2 & -> & H1 & m3 & m4 & -> & H3 & H4).
  apply lang_lit in H1; [|discriminate]. apply lang_lit in H4; [|discriminate]. subst.
  apply lang_opt in H3 as [->|(c & -> & Hc)]; [by left|].
  unfold chr_is in Hc. apply N.eqb_eq in Hc as <-. by right.
Qed.

(** What the pattern for URLs in a text matches *)
Lemma lang_url (p : char -> bool) (greedy : bool) (m : str) :
  lang (Seq http_prefix (Rep p 1 None greedy)) m ->
  exists protocol body,
    m = protocol ++ body /\
    (protocol = py "http://" \/ protocol = py "https://") /\
    body <> [] /\ forallb p body = true.
Proof.
  cbn [lang]. intros (m1 & m2 & -> & H1 & Hall & Hlen & _).
  exists m1, m2. split; [done|]. split; [by apply lang_http_prefix|].
  split; [|done]. destruct m2; [simpl in Hlen; lia | done].
Qed.

Lemma lstrip_by_app_stop (P : char -> bool) (a : str) (c : char) (b : str) :
  P c = false -> lstrip_by P (a ++ c :: b) = lstrip_by P a ++ c :: b.
Proof.
  intros Hc. induction a as [|x a IH]; simpl; [by rewrite Hc|].
  destruct (P x); [exact IH | done].
Qed.

Lemma rstrip_by_app_stop (P : char -> bool) (a : str) (c : char) (b : str) :
  P c = false -> rstrip_by P (a ++ c :: b) = a ++ c :: rstrip_by P b.
Proof.
  intros Hc. unfold rstrip_by.
  assert (H1 : rev (a ++ c :: b) = rev b ++ c :: rev a).
  { rewrite rev_app_distr. simpl. by rewrite <- app_assoc. }
  rewrite H1, lstrip_by_app_stop by done.
  rewrite rev_app_distr. simpl. rewrite rev_involutive, <- app_assoc. reflexivity.
Qed.

Lemma lstrip_by_idemp (P : char -> bool) (s : str) :
  lstrip_by P (lstrip_by P s) = lstrip_by P s.
Proof.
  induction s as [|c s IH]; simpl; [done|].
  destruct (P c) eqn:E; [exact IH|]. simpl. by rewrite E.
Qed.

Lemma rstrip_by_idemp (P : char -> bool) (s : str) :
  rstrip_by P (rstrip_by P s) = rstrip_by P s.
Proof. unfold rstrip_by. by rewrite rev_involutive, lstrip_by_idemp. Qed.

Lemma lstrip_by_forallb (P Q : char -> bool) (s : str) :
  forallb Q s = true -> forallb Q (lstrip_by P s) = true.
Proof.
  induction s as [|c s IH]; simpl; [done|]. intros H.
  apply andb_true_iff in H as [Hc Hs].
  destruct (P c); [by apply IH|]. simpl. by rewrite Hc, Hs.
Qed.

Lemma forallb_rev (Q : char -> bool) (s : str) : forallb Q (rev s) = forallb Q s.
Proof.
  induction s as [|c s IH]; simpl; [done|].
  rewrite forallb_app, IH. simpl. rewrite andb_true_r. apply andb_comm.
Qed.

Lemma rstrip_by_forallb (P Q : char -> bool) (s : str) :
  forallb Q s = true -> forallb Q (rstrip_by P s) = true.
Proof.
  intros H. unfold rstrip_by. rewrite forallb_rev. apply lstrip_by_forallb.
  by rewrite forallb_rev.
Qed.

(** A URL matched in a text keeps its protocol when the punctuation at its
    end is taken off. *)
Lemma rstrip_url (p : char -> bool) (greedy : bool) (m : str) :
  lang (Seq http_prefix (Rep p 1 None greedy)) m ->
  (forall c, p c = true -> isspace c = false) ->
  let u := rstrip_chars trailing_punctuation m in
  (startswith u (py "http://") = true \/ startswith u (py "https://") = true) /\
  forallb not_space u = true /\
  rstrip_chars trailing_punctuation u = u.
Proof.
  intros H Hp u.
  apply lang_url in H as (protocol & body & -> & Hprot & Hne & Hall).
  split; [|split].
  - unfold u, rstrip_chars.
    destruct Hprot as [-> | ->]; [left|right].
    + change (py "http://" ++ body) with (py "http:/" ++ 47%N :: body).
      rewrite rstrip_by_app_stop by reflexivity.
      apply startswith_spec. eexists. 
      change (py "http://") with (py "http:/" ++ [47%N]).
      rewrite <- app_assoc. reflexivity.
    + change (py "https://" ++ body) with (py "https:/" ++ 47%N :: body).
      rewrite rstrip_by_app_stop by reflexivity.
      apply startswith_spec. eexists.
      change (py "https://") with (py "https:/" ++ [47%N]).
      rewrite <- app_assoc. reflexivity.
  - unfold u, rstrip_chars. apply rstrip_by_forallb. rewrite forallb_app.
    apply andb_true_iff. split.
    + destruct Hprot as [-> | ->]; reflexivity.
    + apply forallb_forall. intros c Hc. unfold not_space.
      rewrite forallb_forall in Hall. by rewrite (Hp c (Hall c Hc)).
  - unfold u, rstrip_chars. apply rstrip_by_idemp.
Qed.
Lemma matchk_seq_sound {R} (r1 r2 : re) (s : str) (cs : caps)
    (k : str -> caps -> option R) (x : R) :
  nogrp r1 = true ->
  matchk (Seq r1 r2) s cs k = Some x ->
  exists m s1, s = m ++ s1 /\ lang r1 m /\ matchk r2 s1 cs k = Some x.
Proof. intros Hng H. cbn [matchk] in H. by apply (matchk_sound r1 Hng) in H. Qed.

Lemma matchk_seq_group {R} (n : nat) (r r2 : re) (s : str) (cs : caps)
    (k : str -> caps -> option R) (x : R) :
  nogrp r = true ->
  matchk (Seq (Grp n r) r2) s cs k = Some x ->
  exists m s1, s = m ++ s1 /\ lang r m /\ matchk r2 s1 ((n, m) :: cs) k = Some x.
Proof.
  intros Hng H. change (matchk (Seq (Grp n r) r2) s cs k)
    with (matchk (Grp n r) s cs (fun s1 cs1 => matchk r2 s1 cs1 k)) in H.
  by apply matchk_group in H.
Qed.

(** The beginning [\[(\d+)\]:\s*] that the three line patterns share *)
Lemma marker_sound {R} (tail : re) (s : str) (cs : caps)
    (k : str -> caps -> option R) (x : R) :
  matchk (after_marker tail) s cs k = Some x ->
  exists digits spaces s1,
    s = py "[" ++ digits ++ py "]:" ++ spaces ++ s1 /\
    digits <> [] /\ forallb isdigit digits = true /\
    matchk tail s1 ((1, digits) :: cs) k = Some x.
Proof.
  unfold after_marker. intros H.
  apply matchk_seq_sound in H as (m0 & s0 & -> & -> & H); [|done].
  apply matchk_seq_group in H as (digits & s1 & -> & (Hd & Hlen & _) & H); [|done].
  apply matchk_seq_sound in H as (m2 & s2 & -> & -> & H); [|done].
  apply matchk_seq_sound in H as (m3 & s3 & -> & -> & H); [|done].
  apply matchk_seq_sound in H as (spaces & s4 & -> & _ & H); [|done].
  exists digits, spaces, s4. split; [reflexivity|].
  split; [|done]. destruct digits; [simpl in Hlen; lia | done].
Qed.

Lemma rep_greedy_all {R} (p : char -> bool) (k : str -> option R) (s : str) :
  forallb p s = true ->
  (forall s', k s' <> None) ->
  forall lo, lo <= length s -> rep p lo None true s k = k [].
Proof.
  intros Hall Hk. induction s as [|c s IH]; intros lo Hlo; simpl in *.
  - by destruct lo; [|lia].
  - apply andb_true_iff in Hall as [Hc Hs]. rewrite Hc. cbn [andb].
    rewrite (IH Hs) by lia. specialize (Hk []). by destruct (k []).
Qed.

(** A last group [(.+)] takes the whole rest of a line. *)
Lemma last_group_rest (n : nat) (s rest : str) (cs0 cs : caps) :
  mem_char 10%N s = false ->
  matchk (Grp n (plus dot)) s cs0 (fun rest cs => Some (cs, rest)) = Some (cs, rest) ->
  s <> [] /\ rest = [] /\ cs = (n, s) :: cs0.
Proof.
  intros Hnl H. cbn [matchk plus] in H.
  assert (Hdot : forallb dot s = true).
  { apply forallb_forall. intros c Hc. unfold dot. apply negb_true_iff.
    apply not_true_iff_false. intros E. apply N.eqb_eq in E as ->.
    apply not_true_iff_false in Hnl. apply Hnl. apply mem_char_In.
    done. }
  destruct s as [|c s]; [discriminate|].
  rewrite (rep_greedy_all dot _ (c :: s) Hdot) in H; [|done|simpl; lia].
  rewrite Nat.sub_0_r, firstn_all in H. by injection H as <- <-.
Qed.

Lemma lstrip_by_none (P : char -> bool) (s : str) :
  forallb (fun c => negb (P c)) s = true -> lstrip_by P s = s.
Proof.
  destruct s as [|c s]; simpl; [done|]. intros H.
  apply andb_true_iff in H as [Hc _]. apply negb_true_iff in Hc. by rewrite Hc.
Qed.

Lemma strip_by_none (P : char -> bool) (s : str) :
  forallb (fun c => negb (P c)) s = true -> strip_by P s = s.
Proof.
  intros H. unfold strip_by, rstrip_by. rewrite (lstrip_by_none P s H).
  rewrite lstrip_by_none by (by rewrite forallb_rev). apply rev_involutive.
Qed.

Lemma lstrip_by_first (P : char -> bool) (s r : str) (c : char) :
  lstrip_by P s = c :: r -> P c = false.
Proof.
  induction s as [|x s IH]; simpl; [done|].
  destruct (P x) eqn:E; [exact IH|]. by intros [= <- _].
Qed.

Lemma strip_by_last (P : char -> bool) (s a : str) (c : char) :
  strip_by P s = a ++ [c] -> P c = false.
Proof.
  unfold strip_by, rstrip_by. intros H. apply (f_equal (@rev N)) in H.
  rewrite rev_involutive, rev_app_distr in H. simpl in H.
  by apply lstrip_by_first in H.
Qed.

Lemma strip_by_keeps_last (P : char -> bool) (a : str) (c : char) :
  P c = false -> strip_by P (a ++ [c]) <> [].
Proof.
  intros Hc. unfold strip_by. rewrite lstrip_by_app_stop by done.
  rewrite rstrip_by_app_stop by done. by destruct (lstrip_by P a).
Qed.

Lemma suffix_last (pre s a : str) (c : char) :
  pre ++ s = a ++ [c] -> s <> [] -> exists a', s = a' ++ [c].
Proof.
  intros H Hne. destruct (exists_last Hne) as (a' & c' & ->).
  rewrite app_assoc in H. apply app_inj_tail in H as [_ ->]. by exists a'.
Qed.

Lemma mem_char_suffix (c : char) (a b : str) :
  mem_char c (a ++ b) = false -> mem_char c b = false.
Proof. rewrite mem_char_app. by intros [_ ?]%orb_false_iff. Qed.

(** The two patterns with a separator between URL and title *)
Lemma with_separator_sound (greedy : bool) (separator : re) (line before : str)
    (last : char) (cs : caps) (rest : str) :
  nogrp separator = true ->
  mem_char 10%N line = false ->
  line = before ++ [last] ->
  re_match (with_separator greedy separator) line = Some (cs, rest) ->
  exists digits after url_text title_text title_before,
    line = py "[" ++ digits ++ py "]:" ++ after /\
    digits <> [] /\ forallb isdigit digits = true /\
    group 1 cs = digits /\ group 2 cs = url_text /\ group 3 cs = title_text /\
    lang (Seq http_prefix (Rep not_space 1 None greedy)) url_text /\
    title_text = title_before ++ [last].
Proof.
  intros Hng Hnl Hlast H. unfold re_match, with_separator in H.
  apply marker_sound in H as (digits & spaces & s1 & Hline & Hne & Hd & H).
  apply matchk_seq_group in H as (u & s2 & -> & Hu & H); [|done].
  apply matchk_seq_sound in H as (sep & s3 & -> & _ & H); [|done].
  assert (Hnl3 : mem_char 10%N s3 = false).
  { rewrite Hline in Hnl. repeat apply mem_char_suffix in Hnl. exact Hnl. }
  apply last_group_rest in H as (Hne3 & -> & ->); [|exact Hnl3].
  destruct (suffix_last (py "[" ++ digits ++ py "]:" ++ spaces ++ u ++ sep) s3
              before last) as [tb Htb]; [|done|].
  { rewrite <- Hlast, Hline. by rewrite <- !app_assoc. }
  exists digits, (spaces ++ u ++ sep ++ s3), u, s3, tb.
  split; [by rewrite Hline|]. done.
Qed.

Lemma startswith_nonempty (s p : str) : startswith s p = true -> p <> [] -> s <> [].
Proof. intros H Hp ->. destruct p; [done|discriminate]. Qed.
(** ** [_build_search_query], [_extract_urls_from_response] and
    [_extract_title_from_response] *)

Lemma sub_go_no_marker (s : str) :
  mem_char 91%N s = false -> sub_go VPatterns.citation_marker 0 s = s.
Proof.
  induction s as [|c s IH]; intros H; [done|].
  unfold mem_char in H. cbn [existsb] in H. apply orb_false_iff in H as [Hc Hs].
  cbn [sub_go].
  destruct (re_match VPatterns.citation_marker (c :: s)) as [[cs rest]|] eqn:E.
  - exfalso. unfold re_match in E.
    change VPatterns.citation_marker
      with (Seq (Chr 91) (Seq (plus isdigit) (Chr 93))) in E.
    apply matchk_seq_sound in E as (m & s1 & Hm & -> & _); [|done].
    injection Hm as -> _. by rewrite N.eqb_refl in Hc.
  - f_equal. by apply IH.
Qed.

(** X21.  The query that [_build_search_query] returns has at most 103
    characters; for a title without an opening square bracket it is the
    stripped title, cut after 100 characters with three dots behind when it
    is longer. *)
Theorem build_search_query_bounded (title : str) :
  length (_build_search_query title) <= 103 /\
  (mem_char 91%N title = false ->
   _build_search_query title
   = if Nat.ltb 100 (length (strip title))
     then take 100 (strip title) ++ py "..." else strip title).
Proof.
  unfold _build_search_query. split.
  - destruct (Nat.ltb 100 _) eqn:E.
    + rewrite length_app, length_take. change (length (py "...")) with 3.
      pose proof (Nat.le_min_l 100 (length (re_sub_empty VPatterns.citation_marker (strip title)))).
      lia.
    + apply Nat.ltb_ge in E. lia.
  - intros H. unfold re_sub_empty. rewrite sub_go_no_marker; [done|].
    apply not_true_iff_false. rewrite mem_char_In. intros Hin.
    apply strip_by_In, mem_char_In in Hin. congruence.
Qed.

Section ExtractFacts.
Variable json_loads : str -> option (list (str * json)).

(** X22.  Every entry of the list that [_extract_urls_from_response]
    returns is either the value under [url] of the JSON object found in the
    text, as [json.loads] gives it, or a string that begins with [http://] or
    [https://], has no white space in it and does not end with one of the
    characters [.,;:!?)]. *)
Theorem extract_urls_from_response_shape (response_text : str) (v : json) :
  In v (_extract_urls_from_response json_loads response_text) ->
  (exists u, v = JStr u /\
     (startswith u (py "http://") = true \/ startswith u (py "https://") = true) /\
     forallb not_space u = true /\
     rstrip_chars trailing_punctuation u = u) \/
  (exists i matched cs data,
     re_search VPatterns.json_url response_text = Some (i, matched, cs) /\
     json_loads matched = Some data /\
     dict_get (py "url") data = Some v).
Proof.
  unfold _extract_urls_from_response.
  set (urls := List.map JStr _).
  assert (Hurls : In v urls ->
    exists u, v = JStr u /\
     (startswith u (py "http://") = true \/ startswith u (py "https://") = true) /\
     forallb not_space u = true /\
     rstrip_chars trailing_punctuation u = u).
  { unfold urls. intros H. apply in_map_iff in H as (u & <- & Hu).
    apply filter_In in Hu as [Hu _]. apply in_map_iff in Hu as (m & <- & Hm).
    exists (rstrip_chars (py ".,;:!?)") m). split; [done|].
    apply (findall_sound VPatterns.url_token response_text eq_refl) in Hm.
    apply (rstrip_url _ true m Hm).
    intros c Hc. apply andb_true_iff in Hc as [Hc _]. unfold not_space in Hc.
    by apply negb_true_iff in Hc. }
  destruct (re_search VPatterns.json_url response_text) as [[[i matched] cs]|] eqn:Ere;
    [|by left; apply Hurls].
  destruct (json_loads matched) as [data|] eqn:Ej; [|by left; apply Hurls].
  destruct (dict_get (py "url") data) as [v0|] eqn:Ed; [|by left; apply Hurls].
  intros [<-|H]; [|by left; apply Hurls].
  right. by exists i, matched, cs, data.
Qed.

End ExtractFacts.

Lemma re_search_from_suffix (r : re) (s matched : str) (cs : caps) :
  forall i j, re_search_from r i s = Some (j, matched, cs) ->
  exists before s' rest,
    s = before ++ s' /\ re_match r s' = Some (cs, rest) /\
    matched = take (length s' - length rest) s'.
Proof.
  induction s as [|c s IH]; intros i j H; cbn [re_search_from] in H.
  - destruct (re_match r []) as [[cs' rest]|] eqn:E; [|discriminate].
    exists [], [], rest. split; [done|]. split; [|congruence]. rewrite E. congruence.
  - destruct (re_match r (c :: s)) as [[cs' rest]|] eqn:E.
    + exists [], (c :: s), rest. split; [done|]. split; [|congruence].
      rewrite E. congruence.
    + apply IH in H as (before & s' & rest & -> & Hm & Ht).
      exists (c :: before), s', rest. done.
Qed.

Lemma strip_by_length (P : char -> bool) (s : str) : length (strip_by P s) <= length s.
Proof.
  assert (Hl : forall t, length (lstrip_by P t) <= length t).
  { induction t as [|c t IH]; simpl; [done|]. destruct (P c); simpl; lia. }
  unfold strip_by, rstrip_by. rewrite length_rev.
  etransitivity; [apply Hl|]. rewrite length_rev. apply Hl.
Qed.

Lemma strip_by_forallb (P Q : char -> bool) (s : str) :
  forallb Q s = true -> forallb Q (strip_by P s) = true.
Proof.
  intros H. unfold strip_by. apply rstrip_by_forallb. by apply lstrip_by_forallb.
Qed.

Section TitleFacts.
Variable json_loads : str -> option (list (str * json)).

(** X23.  A title returned by [_extract_title_from_response] is either the
    value under [url_meta_title] of the JSON object found in the text, or a
    string of at most 80 characters without quotation marks; the second only
    when the URL occurs in the text and its first occurrence is not at the
    very beginning: the text is [before], the URL and [after], with [before]
    not empty, and the URL does not occur at any earlier place. *)
Theorem extract_title_from_response_sources (response_text url : str) (v : json) :
  _extract_title_from_response json_loads response_text url = Some v ->
  (exists i matched cs data,
     re_search VPatterns.json_meta_title response_text = Some (i, matched, cs) /\
     json_loads matched = Some data /\
     dict_get (py "url_meta_title") data = Some v) \/
  (exists t before after,
     v = JStr t /\ length t <= 80 /\
     forallb (none_of VPatterns.quote_chars) t = true /\
     response_text = before ++ url ++ after /\ before <> [] /\
     forall earlier rest,
       response_text = earlier ++ url ++ rest -> length before <= length earlier).
Proof.
  unfold _extract_title_from_response. intros H.
  assert (Htext :
    match find_sub url response_text with
    | Some (S i) =>
        match re_search VPatterns.title_near
                (drop (S i - 200) (take (S i) response_text)) with
        | Some (_, _, cs) => Some (JStr (strip (group 1 cs)))
        | None => None
        end
    | _ => None
    end = Some v ->
    exists t before after,
      v = JStr t /\ length t <= 80 /\
      forallb (none_of VPatterns.quote_chars) t = true /\
      response_text = before ++ url ++ after /\ before <> [] /\
      forall earlier rest,
        response_text = earlier ++ url ++ rest -> length before <= length earlier).
  { clear H. intros H.
    destruct (find_sub url response_text) as [[|i]|] eqn:Ef; try discriminate.
    pose proof (find_sub_first _ _ _ Ef) as Hfirst.
    apply find_sub_Some in Ef as (before & after & Htext & Hlen).
    destruct (re_search VPatterns.title_near _) as [[[j matched] cs]|] eqn:Er;
      [|discriminate].
    injection H as <-.
    unfold re_search in Er.
    apply re_search_from_suffix in Er as (b & s' & rest & _ & Hm & _).
    unfold re_match in Hm.
    change VPatterns.title_near with
      (Seq (Alt (VPatterns.lit_ci (py "title")) (VPatterns.lit_ci (py "meta")))
         (Seq (plus (fun c => N.eqb c 58 || isspace c))
            (Seq (opt (fun c => mem_char c VPatterns.quote_chars))
               (Seq (Grp 1 (Rep (none_of VPatterns.quote_chars) 10 (Some 80) true))
                  (opt (fun c => mem_char c VPatterns.quote_chars)))))) in Hm.
    apply matchk_seq_sound in Hm as (m1 & s1 & -> & _ & Hm); [|done].
    apply matchk_seq_sound in Hm as (m2 & s2 & -> & _ & Hm); [|done].
    apply matchk_seq_sound in Hm as (m3 & s3 & -> & _ & Hm); [|done].
    apply matchk_seq_group in Hm as (m & s4 & -> & (Hall & _ & Hmax) & Hm); [|done].
    apply matchk_sound in Hm as (m5 & s5 & -> & _ & Hm); [|done].
    injection Hm as <- _.
    change (group 1 [(1, m)]) with m.
    exists (strip m), before, after. split; [done|].
    split; [etransitivity; [apply strip_by_length | exact Hmax]|].
    split; [by apply strip_by_forallb|]. split; [exact Htext|].
    split; [destruct before; [discriminate|done]|].
    intros earlier rest' He. rewrite Hlen. by eapply Hfirst. }
  destruct (re_search VPatterns.json_meta_title response_text)
    as [[[i matched] cs]|] eqn:Ere; [|by right; apply Htext].
  destruct (json_loads matched) as [data|] eqn:Ej; [|by right; apply Htext].
  destruct (dict_get (py "url_meta_title") data) as [v0|] eqn:Ed;
    [|by right; apply Htext].
  injection H as <-. left. by exists i, matched, cs, data.
Qed.

End TitleFacts.

(** ** [_parse_sources] *)

Section ParserMore.

Variable Citation_init : Z -> str -> str -> option Citation.

Lemma parse_line_sound (line0 : str) (c : Citation) :
  mem_char 10%N line0 = false ->
  In c (parse_line Citation_init line0) ->
  exists digits after url_text title_text,
    strip line0 = py "[" ++ digits ++ py "]:" ++ after /\
    digits <> [] /\ forallb isdigit digits = true /\
    Citation_init (py_int digits) url_text title_text = Some c /\
    (startswith url_text (py "http://") = true \/
     startswith url_text (py "https://") = true) /\
    forallb not_space url_text = true /\
    title_text <> [].
Proof.
  intros Hnl0 Hin. unfold parse_line in Hin.
  assert (Hnl : mem_char 10%N (strip line0) = false).
  { apply not_true_iff_false. rewrite mem_char_In. intros H.
    apply strip_by_In in H. apply mem_char_In in H. congruence. }
  destruct (strip line0) as [|l0 line1] eqn:Eline; [done|].
  destruct (exists_last (l := l0 :: line1)) as (before & last & Hlast); [done|].
  assert (Hsp : isspace last = false).
  { apply (strip_by_last isspace line0 before). unfold strip in Eline.
    by rewrite Eline, Hlast. }
  set (line := l0 :: line1) in *.
  assert (Hprimary : forall greedy separator cs rest,
    nogrp separator = true ->
    re_match (with_separator greedy separator) line = Some (cs, rest) ->
    In c (match Citation_init (py_int (group 1 cs)) (strip (group 2 cs))
                  (strip (group 3 cs)) with
          | Some citation => [citation]
          | None => []
          end) ->
    exists digits after url_text title_text,
      line = py "[" ++ digits ++ py "]:" ++ after /\
      digits <> [] /\ forallb isdigit digits = true /\
      Citation_init (py_int digits) url_text title_text = Some c /\
      (startswith url_text (py "http://") = true \/
       startswith url_text (py "https://") = true) /\
      forallb not_space url_text = true /\
      title_text <> []).
  { intros greedy separator cs rest Hng Hm Hc.
    destruct (with_separator_sound greedy separator line before last cs rest
                Hng Hnl Hlast Hm)
      as (digits & after & u & t & tb & Hline & Hne & Hd & H1 & H2 & H3 & Hu & Ht).
    rewrite H1, H2, H3 in Hc.
    apply lang_url in Hu as (protocol & body & Hu & Hprot & Hbody & Hall).
    assert (Hns : forallb not_space u = true).
    { rewrite Hu, forallb_app. apply andb_true_iff. split; [|done].
      destruct Hprot as [-> | ->]; reflexivity. }
    assert (Hstrip : strip u = u) by (by apply strip_by_none).
    rewrite Hstrip in Hc.
    destruct (Citation_init _ _ _) as [built|] eqn:Eb; [|done].
    destruct Hc as [<-|[]].
    exists digits, after, u, (strip t).
    split_and!; try done.
    - rewrite Hu. destruct Hprot as [-> | ->]; [left|right];
        apply startswith_spec; by exists body.
    - rewrite Ht. by apply strip_by_keeps_last. }
  destruct (re_match Patterns.line_dash line) as [[cs rest]|] eqn:Ed.
  { exact (Hprimary false (Alt (seqs [plus isspace; Cls dash; plus isspace])
                                (plus isspace)) cs rest eq_refl Ed Hin). }
  destruct (re_match Patterns.line_space line) as [[cs rest]|] eqn:Es.
  { exact (Hprimary true (plus isspace) cs rest eq_refl Es Hin). }
  destruct (re_match Patterns.line_free line) as [[cs rest]|] eqn:Ef; [|done].
  unfold re_match in Ef.
  change Patterns.line_free with (after_marker (Grp 2 (plus dot))) in Ef.
  apply marker_sound in Ef as (digits & spaces & s1 & Hline & Hne & Hd & Ef).
  assert (Hnl1 : mem_char 10%N s1 = false).
  { rewrite Hline in Hnl. repeat apply mem_char_suffix in Hnl. exact Hnl. }
  apply last_group_rest in Ef as (_ & -> & ->); [|exact Hnl1].
  change (group 1 [(2, s1); (1, digits)]) with digits in Hin.
  change (group 2 [(2, s1); (1, digits)]) with s1 in Hin.
  destruct (re_search Patterns.url_in_text (strip s1)) as [[[i matched] cs]|] eqn:Eu;
    [|done].
  apply re_search_sound in Eu as [Hm _]; [|done].
  change Patterns.url_in_text
    with (Seq http_prefix
            (Rep (fun c => not_space c && negb (dash c) && none_of (py ")]}") c)
                 1 None true)) in Hm.
  destruct (rstrip_url _ true matched Hm) as (Hstart & Hns & _).
  { intros ch Hch. apply andb_true_iff in Hch as [Hch _].
    apply andb_true_iff in Hch as [Hch _]. unfold not_space in Hch.
    by apply negb_true_iff in Hch. }
  fold trailing_punctuation in Hin.
  set (url_text := rstrip_chars trailing_punctuation matched) in *.
  assert (Hune : url_text <> []).
  { destruct Hstart as [H|H]; eapply startswith_nonempty; eauto; discriminate. }
  destruct (startswith url_text (py "/")); [done|].
  match type of Hin with context [Citation_init _ _ ?t] => set (title_text := t) in * end.
  destruct (Citation_init _ _ _) as [built|] eqn:Eb; [|done].
  destruct Hin as [<-|[]].
  exists digits, (spaces ++ s1), url_text, title_text.
  split_and!; try done.
  unfold title_text. destruct (strip (re_sub_empty _ _)); [exact Hune | done].
Qed.


Lemma renumber_In (c : Citation) (l : list Citation) :
  forall i, In c (renumber i l) -> exists n built, In built l /\ c = set_number n built.
Proof.
  induction l as [|b l IH]; intros i H; simpl in H; [done|].
  destruct H as [<-|H].
  - exists i, b. split; [by left|done].
  - apply IH in H as (n & built & Hin & ->). exists n, built. split; [by right|done].
Qed.

(** X24.  Every citation that [_parse_sources] returns comes from a line of
    the text which, stripped, begins with [[], decimal digits and []:].  It
    was built by the constructor from the number these digits write, a URL
    that begins with [http://] or [https://] and has no white space in it,
    and a title that is not empty, and then given its new number. *)
Theorem parse_sources_citations_well_formed (sources_text : str) (c : Citation) :
  In c (_parse_sources Citation_init sources_text) ->
  exists line digits after url_text title_text built n,
    In line (split_char 10%N (strip sources_text)) /\
    strip line = py "[" ++ digits ++ py "]:" ++ after /\
    digits <> [] /\ forallb isdigit digits = true /\
    Citation_init (py_int digits) url_text title_text = Some built /\
    c = set_number n built /\
    (startswith url_text (py "http://") = true \/
     startswith url_text (py "https://") = true) /\
    forallb not_space url_text = true /\
    title_text <> [].
Proof.
  unfold _parse_sources. intros H.
  apply renumber_In in H as (n & built & Hin & ->).
  apply in_concat in Hin as (cits & Hc & Hb).
  apply in_map_iff in Hc as (line & <- & Hline).
  assert (Hnl : mem_char 10%N line = false).
  { pose proof (split_char_parts 10%N (strip sources_text)) as Hp.
    rewrite Forall_forall in Hp. apply Hp. by apply list_elem_of_In. }
  destruct (parse_line_sound line built Hnl Hb)
    as (digits & after & u & t & ? & ? & ? & ? & ? & ? & ?).
  exists line, digits, after, u, t, built, n. done.
Qed.

Lemma parse_line_length (line : str) :
  length (parse_line Citation_init line)
  <= if str_eqb (strip line) [] then 0 else 1.
Proof.
  unfold parse_line. destruct (strip line) as [|l0 l1]; [done|].
  cbn [str_eqb]. repeat case_match; simpl; lia.
Qed.

Lemma lstrip_by_all (P : char -> bool) (s : str) :
  forallb P s = true -> lstrip_by P s = [].
Proof.
  induction s as [|c s IH]; simpl; [done|].
  intros [Hc Hs]%andb_prop. rewrite Hc. by apply IH.
Qed.

Lemma strip_all_space (s : str) : forallb isspace s = true -> strip s = [].
Proof.
  intros H. unfold strip, strip_by, rstrip_by. by rewrite (lstrip_by_all _ _ H).
Qed.

Lemma parse_lines_length (lines : list str) :
  length (concat (List.map (parse_line Citation_init) lines))
  <= length (List.filter (fun line => negb (str_eqb (strip line) [])) lines).
Proof.
  induction lines as [|line lines IH]; simpl; [done|].
  rewrite length_app. pose proof (parse_line_length line) as Hl.
  destruct (str_eqb (strip line) []); simpl; lia.
Qed.

(** X25.  [_parse_sources] returns at most one citation for each line of
    the stripped text that is not blank; a text that is empty or of white
    space only gives no citation. *)
Theorem parse_sources_at_most_one_per_line (sources_text : str) :
  length (_parse_sources Citation_init sources_text)
  <= length (List.filter (fun line => negb (str_eqb (strip line) []))
               (split_char 10%N (strip sources_text))) /\
  (forallb isspace sources_text = true ->
   _parse_sources Citation_init sources_text = []).
Proof.
  assert (Hlen : length (_parse_sources Citation_init sources_text)
                 <= length (List.filter (fun line => negb (str_eqb (strip line) []))
                              (split_char 10%N (strip sources_text)))).
  { unfold _parse_sources. rewrite renumber_length. apply parse_lines_length. }
  split; [exact Hlen|].
  intros Hspace. rewrite (strip_all_space _ Hspace) in Hlen.
  destruct (_parse_sources Citation_init sources_text); [done|].
  simpl in Hlen. lia.
Qed.

End ParserMore.

(** ** The further properties at concrete inputs *)

Lemma check_url_status_remembered_witness :
  let url := Cases.report in
  status_cache Scenario.start !! url = None /\
  Scenario.http_ok (S (length (history Scenario.start))) url = Ok (200%Z, url) /\
  is_redirect 200 = false /\
  exists is_valid w1,
    _check_url_status (Scenario.clock 0) Scenario.http_ok Scenario.http_fails
      url Scenario.start = (Ok (is_valid, url), w1) /\
    (is_valid = true <-> 200%Z = 200%Z /\ _is_error_page_url url = false) /\
    forall w2,
      status_cache w2 !! url = status_cache w1 !! url ->
      (Scenario.clock 0 (length (history w2))
       - Scenario.clock 0 (length (history Scenario.start))
       < if is_valid then _CACHE_TTL else _FAILED_URL_TTL)%Z ->
      _check_url_status (Scenario.clock 0) Scenario.http_ok Scenario.http_fails url w2
      = (Ok (is_valid, url), log_event EvTime w2).
Proof.
  intros url.
  assert (H1 : status_cache Scenario.start !! url = None) by reflexivity.
  assert (H2 : Scenario.http_ok (S (length (history Scenario.start))) url
               = Ok (200%Z, url)) by reflexivity.
  assert (H3 : is_redirect 200 = false) by reflexivity.
  split; [exact H1|]. split; [exact H2|]. split; [exact H3|].
  exact (check_url_status_remembered (Scenario.clock 0) Scenario.http_ok
           Scenario.http_fails url Scenario.start 200%Z url H1 H2 H3).
Defined.

Lemma cache_sound_start : cache_sound Scenario.start.
Proof. intros u f ts H. cbn in H. by rewrite lookup_empty in H. Qed.

Lemma check_url_status_valid_is_no_error_page_witness :
  let run := _check_url_status (Scenario.clock 0) Scenario.http_ok Scenario.http_fails
               Cases.report Scenario.start in
  cache_sound Scenario.start /\
  fst run = Ok (true, Cases.report) /\
  cache_sound (snd run) /\
  (true = true -> _is_error_page_url Cases.report = false).
Proof.
  intros run.
  assert (Hfst : fst run = Ok (true, Cases.report)) by (vm_compute; reflexivity).
  assert (Hrun : run = (Ok (true, Cases.report), snd run)).
  { rewrite <- Hfst. destruct run; reflexivity. }
  split; [exact cache_sound_start|]. split; [exact Hfst|].
  exact (check_url_status_valid_is_no_error_page (Scenario.clock 0) Scenario.http_ok
           Scenario.http_fails Cases.report Scenario.start (snd run) true Cases.report
           cache_sound_start Hrun).
Defined.

Lemma no_fresh_authority_entry :
  forall cached timestamp,
    authority_cache Scenario.with_cached_authority !! take 100 (py "AI report")
    = Some (cached, timestamp) ->
    (_CACHE_TTL
     <= Scenario.clock 500 (length (history Scenario.with_cached_authority)) - timestamp)%Z.
Proof.
  intros cached timestamp H.
  assert (Hl : authority_cache Scenario.with_cached_authority !! take 100 (py "AI report")
               = Some (Some Scenario.nist, 0%Z)) by (vm_compute; reflexivity).
  rewrite Hl in H. injection H as _ <-. vm_compute. discriminate.
Qed.

Lemma authority_fallback_remembered_witness :
  let w := Scenario.with_cached_authority in
  let q := py "AI report" in
  (forall cached timestamp,
      authority_cache w !! take 100 q = Some (cached, timestamp) ->
      (_CACHE_TTL <= Scenario.clock 500 (length (history w)) - timestamp)%Z) /\
  exists result w1,
    _try_authority_fallback accept_all accept_all (Scenario.clock 500) Scenario.http_ok
      Scenario.http_fails Scenario.company [] q w = (Ok result, w1) /\
    authority_cache w1
    = <[take 100 q := (result, Scenario.clock 500 (length (history w)))]>
        (authority_cache w) /\
    forall other_query w2,
      take 100 other_query = take 100 q ->
      authority_cache w2 !! take 100 q
      = Some (result, Scenario.clock 500 (length (history w))) ->
      (Scenario.clock 500 (length (history w2)) - Scenario.clock 500 (length (history w))
       < _CACHE_TTL)%Z ->
      _try_authority_fallback accept_all accept_all (Scenario.clock 500) Scenario.http_ok
        Scenario.http_fails Scenario.company [] other_query w2
      = (Ok result, log_event EvTime w2).
Proof.
  intros w q. split; [exact no_fresh_authority_entry|].
  exact (authority_fallback_remembered accept_all accept_all (Scenario.clock 500)
           Scenario.http_ok Scenario.http_fails Scenario.company [] q w
           no_fresh_authority_entry).
Defined.

Lemma authority_fallback_result_checked_witness :
  let w := Scenario.with_cached_authority in
  let q := py "AI report" in
  let run := _try_authority_fallback accept_all accept_all (Scenario.clock 500)
               Scenario.http_ok Scenario.http_fails Scenario.company [] q w in
  (forall cached timestamp,
      authority_cache w !! take 100 q = Some (cached, timestamp) ->
      (_CACHE_TTL <= Scenario.clock 500 (length (history w)) - timestamp)%Z) /\
  fst run = Ok (Some (py "https://www.nist.gov/", py "AI report - NIST")) /\
  exists base_url source_name w1 w2,
    In (base_url, source_name) (authority_candidates (lower q)) /\
    _should_filter_url accept_all accept_all base_url Scenario.company [] = false /\
    grows w w1 /\
    _check_url_status (Scenario.clock 500) Scenario.http_ok Scenario.http_fails
      base_url w1 = (Ok (true, py "https://www.nist.gov/"), w2) /\
    py "AI report - NIST" = take 60 q ++ py " - " ++ source_name.
Proof.
  intros w q run.
  assert (Hfst : fst run = Ok (Some (py "https://www.nist.gov/", py "AI report - NIST")))
    by (vm_compute; reflexivity).
  assert (Hrun : run = (Ok (Some (py "https://www.nist.gov/", py "AI report - NIST")),
                        snd run)).
  { rewrite <- Hfst. destruct run; reflexivity. }
  split; [exact no_fresh_authority_entry|]. split; [exact Hfst|].
  exact (authority_fallback_result_checked accept_all accept_all (Scenario.clock 500)
           Scenario.http_ok Scenario.http_fails Scenario.company [] q w (snd run)
           _ _ no_fresh_authority_entry Hrun).
Defined.

Lemma find_alternative_url_none_reported_witness :
  let title_text := py "AI report" in
  let w := Scenario.start in
  Scenario.gemini_says Cases.answer_none (length (history w))
    (alternative_request Scenario.company [] title_text) = Ok Cases.answer_none /\
  re_search VPatterns.json_url_verified Cases.answer_none
    = Some (0, Cases.answer_none, []) /\
  Cases.json_loads Cases.answer_none
    = Some [(py "url", JStr []); (py "verified", JBool false)] /\
  _find_alternative_url accept_all accept_all (Scenario.clock 0) Scenario.http_ok
    Scenario.http_fails (Scenario.gemini_says Cases.answer_none) Cases.json_loads
    Scenario.company [] (JStr title_text) w
  = (Ok None, log_event (EvGemini (alternative_request Scenario.company [] title_text)) w).
Proof.
  intros title_text w.
  assert (H1 : Scenario.gemini_says Cases.answer_none (length (history w))
                 (alternative_request Scenario.company [] title_text)
               = Ok Cases.answer_none) by reflexivity.
  assert (H2 : re_search VPatterns.json_url_verified Cases.answer_none
               = Some (0, Cases.answer_none, [])) by (vm_compute; reflexivity).
  assert (H3 : Cases.json_loads Cases.answer_none
               = Some [(py "url", JStr []); (py "verified", JBool false)])
    by (vm_compute; reflexivity).
  split; [exact H1|]. split; [exact H2|]. split; [exact H3|].
  exact (find_alternative_url_none_reported accept_all accept_all (Scenario.clock 0)
           Scenario.http_ok Scenario.http_fails (Scenario.gemini_says Cases.answer_none)
           Cases.json_loads Scenario.company [] title_text Cases.answer_none
           Cases.answer_none 0 [] _ w H1 H2 H3 eq_refl eq_refl).
Defined.

Lemma validate_citation_url_invalid_keeps_original_witness :
  let run := validate_citation_url accept_all accept_all (Scenario.clock 0)
               Scenario.http_fails Scenario.http_fails Scenario.gemini_times_out
               Scenario.json_loads Scenario.company []
               Cases.report (JStr (py "Quarterly letter")) Scenario.start in
  fst run = Ok (false, Cases.report, JStr (py "Quarterly letter")) /\
  Cases.report = Cases.report /\
  JStr (py "Quarterly letter") = JStr (py "Quarterly letter").
Proof.
  intros run.
  assert (Hfst : fst run = Ok (false, Cases.report, JStr (py "Quarterly letter")))
    by (vm_compute; reflexivity).
  assert (Hrun : run = (Ok (false, Cases.report, JStr (py "Quarterly letter")), snd run)).
  { rewrite <- Hfst. destruct run; reflexivity. }
  split; [exact Hfst|].
  exact (validate_citation_url_invalid_keeps_original accept_all accept_all
           (Scenario.clock 0) Scenario.http_fails Scenario.http_fails
           Scenario.gemini_times_out Scenario.json_loads Scenario.company []
           Cases.report (JStr (py "Quarterly letter")) Scenario.start (snd run)
           _ _ Hrun).
Defined.

Lemma validate_all_citations_footprint_witness :
  Permutation [1; 0] (seq 0 (length [0; 1])) /\
  exists w',
    validate_all_citations accept_all accept_all (Scenario.clock 0)
      Scenario.http_only_good Scenario.http_fails
      (Scenario.gemini_says Scenario.answer_good) Scenario.json_loads
      [0; 1] Scenario.company [] [1; 0] Scenario.start
      = Some (inr [0; 1], w') /\
    (forall r, r ∉ [0; 1] -> heap w' r = heap Scenario.start r) /\
    keeps_keys Scenario.start w' /\
    (cache_sound Scenario.start -> cache_sound w').
Proof.
  assert (H : Permutation [1; 0] (seq 0 (length [0; 1]))) by (simpl; apply perm_swap).
  split; [exact H|].
  exact (validate_all_citations_footprint accept_all accept_all
           (Scenario.clock 0) Scenario.http_only_good Scenario.http_fails
           (Scenario.gemini_says Scenario.answer_good) Scenario.json_loads
           Scenario.company [] [0; 1] [1; 0] Scenario.start H).
Defined.

Lemma validate_all_citations_gemini_budget_witness :
  Permutation [1; 0] (seq 0 (length [0; 1])) /\
  exists w',
    validate_all_citations accept_all accept_all (Scenario.clock 0)
      Scenario.http_only_good Scenario.http_fails
      (Scenario.gemini_says Scenario.answer_good) Scenario.json_loads
      [0; 1] Scenario.company [] [1; 0] Scenario.start
      = Some (inr [0; 1], w') /\
    number_of_gemini_calls w'
    <= number_of_gemini_calls Scenario.start + 2 * length [0; 1].
Proof.
  assert (H : Permutation [1; 0] (seq 0 (length [0; 1]))) by (simpl; apply perm_swap).
  split; [exact H|].
  exact (validate_all_citations_gemini_budget accept_all accept_all
           (Scenario.clock 0) Scenario.http_only_good Scenario.http_fails
           (Scenario.gemini_says Scenario.answer_good) Scenario.json_loads
           Scenario.company [] [0; 1] [1; 0] Scenario.start H).
Defined.

Lemma cleanup_invisible_to_check_url_status_witness :
  let w := Cases.with_old_status in
  let cleaned := snd (_cleanup_expired_cache (Scenario.clock 0) w) in
  let untouched := log_event EvTime w in
  (Scenario.clock 0 (length (history w)) <= Scenario.clock 0 (S (length (history w))))%Z /\
  status_cache cleaned !! Cases.report = None /\
  status_cache untouched !! Cases.report = Some (true, Cases.report, (-200)%Z) /\
  fst (_check_url_status (Scenario.clock 0) Scenario.http_fails Scenario.http_fails
         Cases.report cleaned)
  = fst (_check_url_status (Scenario.clock 0) Scenario.http_fails Scenario.http_fails
           Cases.report untouched) /\
  history (snd (_check_url_status (Scenario.clock 0) Scenario.http_fails
                  Scenario.http_fails Cases.report cleaned))
  = history (snd (_check_url_status (Scenario.clock 0) Scenario.http_fails
                    Scenario.http_fails Cases.report untouched)).
Proof.
  intros w cleaned untouched.
  assert (H : (Scenario.clock 0 (length (history w))
               <= Scenario.clock 0 (S (length (history w))))%Z) by reflexivity.
  split; [exact H|]. split; [vm_compute; reflexivity|]. split; [vm_compute; reflexivity|].
  exact (cleanup_invisible_to_check_url_status (Scenario.clock 0) Scenario.http_fails
           Scenario.http_fails Cases.report w H).
Defined.

Lemma is_subdomain_transitive_witness :
  let a := py "docs.blog.acme.com" in
  let b := py "blog.acme.com" in
  let c := py "acme.com" in
  _is_subdomain a b = true /\
  length b < length a /\
  _is_subdomain b a = false /\
  _is_subdomain b c = true /\
  _is_subdomain a c = true.
Proof.
  intros a b c.
  assert (H1 : _is_subdomain a b = true) by reflexivity.
  assert (H2 : _is_subdomain b c = true) by reflexivity.
  destruct (is_subdomain_transitive a b c H1) as (Hlen & Hback & Htrans).
  split; [exact H1|]. split; [exact Hlen|]. split; [exact Hback|].
  split; [exact H2 | exact (Htrans H2)].
Defined.

Lemma is_error_page_url_anywhere_witness :
  _is_error_page_url (py "/Not-Found") = true /\
  _is_error_page_url (py "https://example.org/login?next=" ++ py "/Not-Found" ++ py "&x=1")
  = true.
Proof.
  assert (H : _is_error_page_url (py "/Not-Found") = true) by (vm_compute; reflexivity).
  split; [exact H|].
  exact (is_error_page_url_anywhere (py "/Not-Found")
           (py "https://example.org/login?next=") (py "&x=1") H).
Defined.

Lemma should_filter_url_company_unparsable_witness :
  let company_url := py "http://[" in
  let url := py "https://rival.com/page" in
  company_url <> [] /\
  urlparse accept_all accept_all company_url = None /\
  (_should_filter_url accept_all accept_all url company_url [py "rival.com"] = true <->
   exists host, host_of accept_all accept_all url = Some host /\ In host FORBIDDEN_HOSTS) /\
  _should_filter_url accept_all accept_all url company_url [py "rival.com"] = false /\
  _should_filter_url accept_all accept_all url (py "https://acme.com") [py "rival.com"]
  = true.
Proof.
  intros company_url url.
  assert (H1 : company_url <> []) by discriminate.
  assert (H2 : urlparse accept_all accept_all company_url = None)
    by (vm_compute; reflexivity).
  split; [exact H1|]. split; [exact H2|].
  split; [|split; vm_compute; reflexivity].
  exact (should_filter_url_company_unparsable accept_all accept_all url company_url
           [py "rival.com"] H1 H2).
Defined.

Lemma should_filter_url_after_normalize_witness :
  let url := py "Blog.Acme.com/a?utm_source=x&b=1" in
  let parsed := mkParse (py "https") (py "Blog.Acme.com") (py "/a") []
                        (py "utm_source=x&b=1") [] in
  let out := py "https://Blog.Acme.com/a?b=1" in
  urlparse accept_all accept_all (with_protocol url) = Some parsed /\
  netloc parsed <> [] /\
  _normalize_url accept_all accept_all url = Some out /\
  host_of accept_all accept_all out = host_of accept_all accept_all (with_protocol url) /\
  _should_filter_url accept_all accept_all out Scenario.company []
  = _should_filter_url accept_all accept_all (with_protocol url) Scenario.company [].
Proof.
  intros url parsed out.
  assert (H1 : urlparse accept_all accept_all (with_protocol url) = Some parsed)
    by (vm_compute; reflexivity).
  assert (H2 : netloc parsed <> []) by discriminate.
  assert (H3 : _normalize_url accept_all accept_all url = Some out)
    by (vm_compute; reflexivity).
  split; [exact H1|]. split; [exact H2|]. split; [exact H3|].
  exact (should_filter_url_after_normalize accept_all accept_all url out
           Scenario.company [] parsed H1 H2 H3).
Defined.

Lemma normalize_hostname_www_witness :
  let prefix := py "WWW." in
  let host := py "Example.COM" in
  forallb UrlLib.isascii host = true /\
  lower prefix = py "www." /\
  startswith host (py ".") = false /\
  startswith (lower host) (py "www.") = false /\
  _normalize_hostname (prefix ++ host) = py "example.com" /\
  _normalize_hostname host = py "example.com".
Proof.
  intros prefix host.
  assert (H0 : forallb UrlLib.isascii host = true) by reflexivity.
  assert (H1 : lower prefix = py "www.") by reflexivity.
  assert (H2 : startswith host (py ".") = false) by reflexivity.
  assert (H3 : startswith (lower host) (py "www.") = false) by reflexivity.
  split; [exact H0|]. split; [exact H1|]. split; [exact H2|]. split; [exact H3|].
  exact (normalize_hostname_www prefix host H0 H1 H2 H3).
Defined.

Lemma bare_domain_is_not_specific_witness :
  let protocol := py "https://" in
  let host := py "www.nist.gov" in
  (protocol = [] \/ protocol = py "http://" \/ protocol = py "https://") /\
  mem_char 47%N host = false /\
  _is_specific_page_url (protocol ++ host ++ replicate 2 47%N) = false.
Proof.
  intros protocol host.
  assert (H1 : protocol = [] \/ protocol = py "http://" \/ protocol = py "https://")
    by (right; right; reflexivity).
  assert (H2 : mem_char 47%N host = false) by reflexivity.
  split; [exact H1|]. split; [exact H2|].
  exact (bare_domain_is_not_specific protocol host 2 H1 H2).
Defined.

Lemma is_specific_page_url_spec_witness :
  let protocol := py "https://" in
  let host := py "example.org" in
  let path := py "docs/Index.html" in
  (protocol = [] \/ protocol = py "http://" \/ protocol = py "https://") /\
  host <> [] /\
  mem_char 47%N host = false /\
  contains (py "//") (host ++ py "/" ++ path) = false /\
  endswith path (py "/") = false /\
  _is_specific_page_url (protocol ++ host ++ py "/" ++ path)
  = negb (in_list (lower path) index_names) /\
  _is_specific_page_url (protocol ++ host ++ py "/" ++ path) = true.
Proof.
  intros protocol host path.
  assert (H1 : protocol = [] \/ protocol = py "http://" \/ protocol = py "https://")
    by (right; right; reflexivity).
  assert (H2 : host <> []) by discriminate.
  assert (H3 : mem_char 47%N host = false) by reflexivity.
  assert (H4 : contains (py "//") (host ++ py "/" ++ path) = false)
    by (vm_compute; reflexivity).
  assert (H5 : endswith path (py "/") = false) by reflexivity.
  split; [exact H1|]. split; [exact H2|]. split; [exact H3|]. split; [exact H4|].
  split; [exact H5|]. split; [|vm_compute; reflexivity].
  exact (is_specific_page_url_spec protocol host path H1 H2 H3 H4 H5).
Defined.

Lemma extract_urls_from_response_shape_witness :
  let text := py "See (https://good.org/page)." in
  let v := JStr (py "https://good.org/page") in
  In v (_extract_urls_from_response Scenario.json_loads text) /\
  ((exists u, v = JStr u /\
      (startswith u (py "http://") = true \/ startswith u (py "https://") = true) /\
      forallb not_space u = true /\
      rstrip_chars trailing_punctuation u = u) \/
   (exists i matched cs data,
      re_search VPatterns.json_url text = Some (i, matched, cs) /\
      Scenario.json_loads matched = Some data /\
      dict_get (py "url") data = Some v)).
Proof.
  intros text v.
  assert (H : In v (_extract_urls_from_response Scenario.json_loads text))
    by (vm_compute; left; reflexivity).
  split; [exact H|].
  exact (extract_urls_from_response_shape Scenario.json_loads text v H).
Defined.

Lemma extract_title_from_response_sources_witness :
  let url := py "https://good.org/page" in
  let v := JStr (py "A good page about things") in
  _extract_title_from_response Scenario.json_loads Cases.titled_answer url = Some v /\
  ((exists i matched cs data,
      re_search VPatterns.json_meta_title Cases.titled_answer = Some (i, matched, cs) /\
      Scenario.json_loads matched = Some data /\
      dict_get (py "url_meta_title") data = Some v) \/
   (exists t before after,
      v = JStr t /\ length t <= 80 /\
      forallb (none_of VPatterns.quote_chars) t = true /\
      Cases.titled_answer = before ++ url ++ after /\ before <> [] /\
      forall earlier rest,
        Cases.titled_answer = earlier ++ url ++ rest ->
        length before <= length earlier)).
Proof.
  intros url v.
  assert (H : _extract_title_from_response Scenario.json_loads Cases.titled_answer url
              = Some v) by (vm_compute; reflexivity).
  split; [exact H|].
  exact (extract_title_from_response_sources Scenario.json_loads Cases.titled_answer
           url v H).
Defined.

Lemma parse_sources_citations_well_formed_witness :
  let c := mkCitation 2 (py "http://b.com") (JStr (py "B")) in
  In c (_parse_sources plain_init example_sources) /\
  exists line digits after url_text title_text built n,
    In line (split_char 10%N (strip example_sources)) /\
    strip line = py "[" ++ digits ++ py "]:" ++ after /\
    digits <> [] /\ forallb isdigit digits = true /\
    plain_init (py_int digits) url_text title_text = Some built /\
    c = set_number n built /\
    (startswith url_text (py "http://") = true \/
     startswith url_text (py "https://") = true) /\
    forallb not_space url_text = true /\
    title_text <> [].
Proof.
  intros c.
  assert (H : In c (_parse_sources plain_init example_sources))
    by (vm_compute; right; left; reflexivity).
  split; [exact H|].
  exact (parse_sources_citations_well_formed plain_init example_sources c H).
Defined.
